(** * firecracker-shim: the VM manager, the VM pool, the snapshot pool,
      the agent client and the shim task service.

    A shallow embedding of the Go sources
      - pkg/domain/types.go    (module [domain])
      - pkg/vm/manager.go      ([Manager_CreateVM], [Manager_StopVM], ...)
      - pkg/vm/pool.go         ([Pool_Acquire], [Pool_Release], ...)
      - pkg/vm/snapshot.go     ([SnapshotManager_Cleanup], [SnapshotPool_Acquire], ...)
      - pkg/agent/client.go    ([Client_call], [Client_Connect], ...)
      - cmd/fc-agent/main.go   ([Agent_handleRequest], [Agent_createContainer], ...)
      - pkg/shim/service.go    ([Service_Create], [Service_Start], ...)
    A method [(x *T) m] of the source is [T_m] here.

    Go pointers to sandboxes are locations of a store; maps are [gmap]s;
    the buffered channel of ready VMs is a FIFO list with a capacity and a
    closed flag.  Calls that leave the process (the Firecracker SDK, the
    file system, the clock, the vsock connection) are recorded in a trace
    and take their results from an oracle argument. *)

From stdpp Require Import gmap strings list fin_maps pretty relations.
From Stdlib Require Import ZArith QArith Lia Lqa.

Set Warnings "-register-all".
Close Scope Q_scope.
Open Scope Z_scope.

(** ** Go base types *)

(** [time.Time] as nanoseconds since the zero Time; [time.Duration] as
    nanoseconds. *)
Definition time_Time := Z.
Definition time_Duration := Z.
Definition Millisecond : time_Duration := 1000000%Z.
Definition Second : time_Duration := 1000000000%Z.

(** Wrap-around of the fixed-width integers the code counts with. *)
Definition wrap_int64 (z : Z) : Z := ((z + 2 ^ 63) mod 2 ^ 64 - 2 ^ 63)%Z.
Definition wrap_uint64 (z : Z) : Z := (z mod 2 ^ 64)%Z.
Definition wrap_uint32 (z : Z) : Z := (z mod 2 ^ 32)%Z.

(** [atomic.AddInt64(&x, d)]: the new value of [x]. *)
Definition atomic_AddInt64 (x d : Z) : Z := wrap_int64 (x + d).

(** [fmt.Sprintf("%d", n)] *)
Definition fmt_d (n : Z) : string := pretty n.

(** [filepath.Join] of a directory and a file name (the cleaning of the
    result, which removes doubled separators and dots, is not modelled). *)
Definition filepath_Join (dir name : string) : string := dir +:+ "/" +:+ name.

(** Go errors.  [Errorf] is [fmt.Errorf] without a wrapped error, [Wrap]
    is [fmt.Errorf("<msg>: %w", err)], [ToGRPC] an error of containerd's
    errdefs taxonomy, [CtxErr] is [ctx.Err()], [External] an error handed
    back by the operating system or the Firecracker SDK. *)
Inductive errdef := ErrNotFound | ErrNotImplemented | ErrUnavailable.

Inductive error :=
| Errorf (msg : string)
| Wrap (msg : string) (inner : error)
| ToGRPC (kind : errdef) (msg : string)
| CtxErr (deadline : bool)
| External (what : string).

#[global] Instance errdef_eq_dec : EqDecision errdef.
Proof. solve_decision. Defined.
#[global] Instance error_eq_dec : EqDecision error.
Proof. solve_decision. Defined.


(** A Go result [(T, error)]. *)
Inductive res (A : Type) :=
| OK (a : A)
| Error (e : error).
Arguments OK {A} a.
Arguments Error {A} e.

(** ** JSON values, as [encoding/json] decodes them into [interface{}]:
    numbers are float64 (here rationals), objects keep the last value of a
    repeated key. *)
Inductive json :=
| JNull
| JBool (b : bool)
| JNum (q : Q)
| JStr (s : string)
| JArr (l : list json)
| JObj (fields : list (string * json)).

Definition JInt (z : Z) : json := JNum (inject_Z z).

(** [int(f)] for a float64 [f]: truncation toward zero. *)
Definition int_of_float64 (q : Q) : Z := Z.quot (Qnum q) (Z.pos (Qden q)).

(** ** float64 arithmetic

    A float64 is a rational [m * 2^e] with [|m| < 2^53].  The result of an
    operation is the float64 nearest to the exact result, a tie going to
    the even [m].  Overflow and subnormal numbers are not modelled: the
    numbers here are seconds and fractions of a second. *)

(** The integer nearest to [n / d], for [d > 0]; a tie goes to the even
    one. *)
Definition round_half_even (n d : Z) : Z :=
  let f := n / d in
  match 2 * (n mod d) ?= d with
  | Lt => f
  | Gt => f + 1
  | Eq => if Z.even f then f else f + 1
  end.

(** The float64 nearest to [q = n / d].  With [2^s > d] and
    [2^l <= |q| * 2^s < 2^(l+1)], the exponent [e = l - s - 52] is the one
    with [2^52 <= |q| / 2^e < 2^53]; the result is [m * 2^e] for the
    integer [m] nearest to [q / 2^e]. *)
Definition float64_round (q : Q) : Q :=
  let n := Qnum q in
  let d := Z.pos (Qden q) in
  if decide (n = 0) then Qmake 0 1
  else
    let s := Z.log2 d + 1 in
    let l := Z.log2 (Z.abs n * 2 ^ s / d) in
    let m := round_half_even (n * 2 ^ (s + 52)) (d * 2 ^ l) in
    Qmake (m * 2 ^ l) (Z.to_pos (2 ^ (s + 52))).

(** [d.Seconds()]:
    [float64(d / Second) + float64(d % Second) / 1e9].  The two
    conversions are exact, the integers being below 2^53; the division and
    the sum round. *)
Definition Duration_Seconds (d : time_Duration) : Q :=
  let sec := Z.quot d Second in
  let nsec := Z.rem d Second in
  float64_round (Qplus (inject_Z sec) (float64_round (Qmake nsec 1000000000))).

(** [int(d.Seconds())] *)
Definition Duration_Seconds_int (d : time_Duration) : Z :=
  int_of_float64 (Duration_Seconds d).

(** The Go map a JSON object decodes into: later fields overwrite earlier
    ones. *)
Fixpoint obj_lookup (k : string) (fields : list (string * json)) : option json :=
  match fields with
  | [] => None
  | (k', v) :: rest =>
      match obj_lookup k rest with
      | Some v' => Some v'
      | None => if decide (k' = k) then Some v else None
      end
  end.

(** ** pkg/domain/types.go *)
Module domain.

Inductive SandboxState := SandboxUnknown | SandboxPending | SandboxReady | SandboxStopped.

#[global] Instance SandboxState_eq_dec : EqDecision SandboxState.
Proof. solve_decision. Defined.

Inductive ContainerState :=
  ContainerUnknown | ContainerCreated | ContainerRunning | ContainerExited.

Record DriveConfig := {
  DriveID : string;
  PathOnHost : string;
  IsReadOnly : bool;
  IsRoot : bool;
  CacheType : string }.

Record CNIConfig := {
  NetworkName : string;
  IfName : string;
  BinDir : string;
  ConfDir : string;
  CNICacheDir : string }.

Record JailerConfig := {
  UID : Z;
  GID : Z;
  ChrootBaseDir : string;
  ExecFile : string;
  NetNS : string }.

Record VMConfig := {
  VcpuCount : Z;
  MemoryMB : Z;
  SMTEnabled : bool;
  KernelPath : string;
  KernelArgs : string;
  InitrdPath : string;
  RootDrive : DriveConfig;
  NetworkMode : string;
  CNI : option CNIConfig;
  VsockEnabled : bool;
  ConfigVsockCID : Z;
  JailerEnabled : bool;
  Jailer : option JailerConfig }.

Definition zeroDrive : DriveConfig :=
  {| DriveID := ""; PathOnHost := ""; IsReadOnly := false; IsRoot := false; CacheType := "" |}.

Definition DefaultVMConfig : VMConfig :=
  {| VcpuCount := 1; MemoryMB := 128; SMTEnabled := false;
     KernelPath := ""; KernelArgs := "console=ttyS0 reboot=k panic=1 pci=off quiet";
     InitrdPath := ""; RootDrive := zeroDrive; NetworkMode := "cni"; CNI := None;
     VsockEnabled := true; ConfigVsockCID := 0; JailerEnabled := false; Jailer := None |}.

Definition with_KernelPath (c : VMConfig) (p : string) : VMConfig :=
  {| VcpuCount := VcpuCount c; MemoryMB := MemoryMB c; SMTEnabled := SMTEnabled c;
     KernelPath := p; KernelArgs := KernelArgs c; InitrdPath := InitrdPath c;
     RootDrive := RootDrive c; NetworkMode := NetworkMode c; CNI := CNI c;
     VsockEnabled := VsockEnabled c; ConfigVsockCID := ConfigVsockCID c;
     JailerEnabled := JailerEnabled c; Jailer := Jailer c |}.

Definition with_KernelArgs (c : VMConfig) (a : string) : VMConfig :=
  {| VcpuCount := VcpuCount c; MemoryMB := MemoryMB c; SMTEnabled := SMTEnabled c;
     KernelPath := KernelPath c; KernelArgs := a; InitrdPath := InitrdPath c;
     RootDrive := RootDrive c; NetworkMode := NetworkMode c; CNI := CNI c;
     VsockEnabled := VsockEnabled c; ConfigVsockCID := ConfigVsockCID c;
     JailerEnabled := JailerEnabled c; Jailer := Jailer c |}.

Definition with_RootDrive (c : VMConfig) (d : DriveConfig) : VMConfig :=
  {| VcpuCount := VcpuCount c; MemoryMB := MemoryMB c; SMTEnabled := SMTEnabled c;
     KernelPath := KernelPath c; KernelArgs := KernelArgs c; InitrdPath := InitrdPath c;
     RootDrive := d; NetworkMode := NetworkMode c; CNI := CNI c;
     VsockEnabled := VsockEnabled c; ConfigVsockCID := ConfigVsockCID c;
     JailerEnabled := JailerEnabled c; Jailer := Jailer c |}.

Record Container := {
  ContainerID : string;
  SandboxID : string;
  ContainerName : string;
  Image : string;
  CState : ContainerState;
  ContainerPID : Z;
  ExitCode : Z }.

(** Handles of the objects the sandbox only holds a reference to: the
    [*firecracker.Machine] and the [net.Conn] of the agent. *)
Definition Machine := positive.
Definition Conn := positive.

Record Sandbox := {
  ID : string;
  Name : string;
  Namespace : string;
  Labels : gmap string string;
  Annotations : gmap string string;
  State : SandboxState;
  VM : option Machine;
  SandboxVMConfig : VMConfig;
  PID : Z;
  VsockPath : string;
  VsockCID : Z;
  AgentConn : option Conn;
  NetworkNamespace : string;
  IP : list Z;
  Gateway : list Z;
  RootfsPath : string;
  Containers : gmap string Container;
  CreatedAt : time_Time;
  StartedAt : time_Time;
  FinishedAt : time_Time;
  PooledAt : time_Time;
  FromPool : bool }.

(** [NewSandbox(id)], with [time.Now()] read as [now]. *)
Definition NewSandbox (id : string) (now : time_Time) : Sandbox :=
  {| ID := id; Name := ""; Namespace := ""; Labels := ∅; Annotations := ∅;
     State := SandboxPending; VM := None; SandboxVMConfig :=
       {| VcpuCount := 0; MemoryMB := 0; SMTEnabled := false; KernelPath := "";
          KernelArgs := ""; InitrdPath := ""; RootDrive := zeroDrive; NetworkMode := "";
          CNI := None; VsockEnabled := false; ConfigVsockCID := 0;
          JailerEnabled := false; Jailer := None |};
     PID := 0; VsockPath := ""; VsockCID := 0; AgentConn := None;
     NetworkNamespace := ""; IP := []; Gateway := []; RootfsPath := "";
     Containers := ∅; CreatedAt := now; StartedAt := 0; FinishedAt := 0;
     PooledAt := 0; FromPool := false |}.

(** Field assignments through a sandbox pointer. *)
Definition set_State (v : SandboxState) (s : Sandbox) : Sandbox :=
  {| ID := ID s; Name := Name s; Namespace := Namespace s; Labels := Labels s;
     Annotations := Annotations s; State := v; VM := VM s;
     SandboxVMConfig := SandboxVMConfig s; PID := PID s; VsockPath := VsockPath s;
     VsockCID := VsockCID s; AgentConn := AgentConn s;
     NetworkNamespace := NetworkNamespace s; IP := IP s; Gateway := Gateway s;
     RootfsPath := RootfsPath s; Containers := Containers s; CreatedAt := CreatedAt s;
     StartedAt := StartedAt s; FinishedAt := FinishedAt s; PooledAt := PooledAt s;
     FromPool := FromPool s |}.

Definition set_VM (v : option Machine) (s : Sandbox) : Sandbox :=
  {| ID := ID s; Name := Name s; Namespace := Namespace s; Labels := Labels s;
     Annotations := Annotations s; State := State s; VM := v;
     SandboxVMConfig := SandboxVMConfig s; PID := PID s; VsockPath := VsockPath s;
     VsockCID := VsockCID s; AgentConn := AgentConn s;
     NetworkNamespace := NetworkNamespace s; IP := IP s; Gateway := Gateway s;
     RootfsPath := RootfsPath s; Containers := Containers s; CreatedAt := CreatedAt s;
     StartedAt := StartedAt s; FinishedAt := FinishedAt s; PooledAt := PooledAt s;
     FromPool := FromPool s |}.

Definition set_VMConfig (v : VMConfig) (s : Sandbox) : Sandbox :=
  {| ID := ID s; Name := Name s; Namespace := Namespace s; Labels := Labels s;
     Annotations := Annotations s; State := State s; VM := VM s;
     SandboxVMConfig := v; PID := PID s; VsockPath := VsockPath s;
     VsockCID := VsockCID s; AgentConn := AgentConn s;
     NetworkNamespace := NetworkNamespace s; IP := IP s; Gateway := Gateway s;
     RootfsPath := RootfsPath s; Containers := Containers s; CreatedAt := CreatedAt s;
     StartedAt := StartedAt s; FinishedAt := FinishedAt s; PooledAt := PooledAt s;
     FromPool := FromPool s |}.

Definition set_PID (v : Z) (s : Sandbox) : Sandbox :=
  {| ID := ID s; Name := Name s; Namespace := Namespace s; Labels := Labels s;
     Annotations := Annotations s; State := State s; VM := VM s;
     SandboxVMConfig := SandboxVMConfig s; PID := v; VsockPath := VsockPath s;
     VsockCID := VsockCID s; AgentConn := AgentConn s;
     NetworkNamespace := NetworkNamespace s; IP := IP s; Gateway := Gateway s;
     RootfsPath := RootfsPath s; Containers := Containers s; CreatedAt := CreatedAt s;
     StartedAt := StartedAt s; FinishedAt := FinishedAt s; PooledAt := PooledAt s;
     FromPool := FromPool s |}.

Definition set_VsockPath (v : string) (s : Sandbox) : Sandbox :=
  {| ID := ID s; Name := Name s; Namespace := Namespace s; Labels := Labels s;
     Annotations := Annotations s; State := State s; VM := VM s;
     SandboxVMConfig := SandboxVMConfig s; PID := PID s; VsockPath := v;
     VsockCID := VsockCID s; AgentConn := AgentConn s;
     NetworkNamespace := NetworkNamespace s; IP := IP s; Gateway := Gateway s;
     RootfsPath := RootfsPath s; Containers := Containers s; CreatedAt := CreatedAt s;
     StartedAt := StartedAt s; FinishedAt := FinishedAt s; PooledAt := PooledAt s;
     FromPool := FromPool s |}.

Definition set_VsockCID (v : Z) (s : Sandbox) : Sandbox :=
  {| ID := ID s; Name := Name s; Namespace := Namespace s; Labels := Labels s;
     Annotations := Annotations s; State := State s; VM := VM s;
     SandboxVMConfig := SandboxVMConfig s; PID := PID s; VsockPath := VsockPath s;
     VsockCID := v; AgentConn := AgentConn s;
     NetworkNamespace := NetworkNamespace s; IP := IP s; Gateway := Gateway s;
     RootfsPath := RootfsPath s; Containers := Containers s; CreatedAt := CreatedAt s;
     StartedAt := StartedAt s; FinishedAt := FinishedAt s; PooledAt := PooledAt s;
     FromPool := FromPool s |}.

Definition set_Containers (v : gmap string Container) (s : Sandbox) : Sandbox :=
  {| ID := ID s; Name := Name s; Namespace := Namespace s; Labels := Labels s;
     Annotations := Annotations s; State := State s; VM := VM s;
     SandboxVMConfig := SandboxVMConfig s; PID := PID s; VsockPath := VsockPath s;
     VsockCID := VsockCID s; AgentConn := AgentConn s;
     NetworkNamespace := NetworkNamespace s; IP := IP s; Gateway := Gateway s;
     RootfsPath := RootfsPath s; Containers := v; CreatedAt := CreatedAt s;
     StartedAt := StartedAt s; FinishedAt := FinishedAt s; PooledAt := PooledAt s;
     FromPool := FromPool s |}.

Definition set_StartedAt (v : time_Time) (s : Sandbox) : Sandbox :=
  {| ID := ID s; Name := Name s; Namespace := Namespace s; Labels := Labels s;
     Annotations := Annotations s; State := State s; VM := VM s;
     SandboxVMConfig := SandboxVMConfig s; PID := PID s; VsockPath := VsockPath s;
     VsockCID := VsockCID s; AgentConn := AgentConn s;
     NetworkNamespace := NetworkNamespace s; IP := IP s; Gateway := Gateway s;
     RootfsPath := RootfsPath s; Containers := Containers s; CreatedAt := CreatedAt s;
     StartedAt := v; FinishedAt := FinishedAt s; PooledAt := PooledAt s;
     FromPool := FromPool s |}.

Definition set_FinishedAt (v : time_Time) (s : Sandbox) : Sandbox :=
  {| ID := ID s; Name := Name s; Namespace := Namespace s; Labels := Labels s;
     Annotations := Annotations s; State := State s; VM := VM s;
     SandboxVMConfig := SandboxVMConfig s; PID := PID s; VsockPath := VsockPath s;
     VsockCID := VsockCID s; AgentConn := AgentConn s;
     NetworkNamespace := NetworkNamespace s; IP := IP s; Gateway := Gateway s;
     RootfsPath := RootfsPath s; Containers := Containers s; CreatedAt := CreatedAt s;
     StartedAt := StartedAt s; FinishedAt := v; PooledAt := PooledAt s;
     FromPool := FromPool s |}.

Definition set_PooledAt (v : time_Time) (s : Sandbox) : Sandbox :=
  {| ID := ID s; Name := Name s; Namespace := Namespace s; Labels := Labels s;
     Annotations := Annotations s; State := State s; VM := VM s;
     SandboxVMConfig := SandboxVMConfig s; PID := PID s; VsockPath := VsockPath s;
     VsockCID := VsockCID s; AgentConn := AgentConn s;
     NetworkNamespace := NetworkNamespace s; IP := IP s; Gateway := Gateway s;
     RootfsPath := RootfsPath s; Containers := Containers s; CreatedAt := CreatedAt s;
     StartedAt := StartedAt s; FinishedAt := FinishedAt s; PooledAt := v;
     FromPool := FromPool s |}.

Definition set_FromPool (v : bool) (s : Sandbox) : Sandbox :=
  {| ID := ID s; Name := Name s; Namespace := Namespace s; Labels := Labels s;
     Annotations := Annotations s; State := State s; VM := VM s;
     SandboxVMConfig := SandboxVMConfig s; PID := PID s; VsockPath := VsockPath s;
     VsockCID := VsockCID s; AgentConn := AgentConn s;
     NetworkNamespace := NetworkNamespace s; IP := IP s; Gateway := Gateway s;
     RootfsPath := RootfsPath s; Containers := Containers s; CreatedAt := CreatedAt s;
     StartedAt := StartedAt s; FinishedAt := FinishedAt s; PooledAt := PooledAt s;
     FromPool := v |}.

Record PoolStats := {
  Available : Z;
  InUse : Z;
  StatsMaxSize : Z;
  TotalServed : Z;
  PoolHits : Z;
  PoolMisses : Z }.

Record ContainerSpec := {
  SpecID : string;
  BundlePath : string;
  Stdin : bool;
  Stdout : bool;
  Stderr : bool;
  Terminal : bool }.

End domain.

Import domain.

(** ** The state of one shim process *)

(** A [*domain.Sandbox] is a location of the sandbox store. *)
Definition loc := positive.

(** pkg/vm/manager.go *)
Record ManagerConfig := {
  FirecrackerBinary : string;
  RuntimeDir : string;
  DefaultKernelPath : string;
  DefaultKernelArgs : string;
  JailerBinary : string;
  EnableJailer : bool }.

Record Manager := {
  mgr_config : ManagerConfig;
  sandboxes : gmap string loc;
  cidCounter : Z }.

Definition DefaultManagerConfig : ManagerConfig :=
  {| FirecrackerBinary := "/usr/bin/firecracker"; RuntimeDir := "/run/fc-cri";
     DefaultKernelPath := "/var/lib/fc-cri/vmlinux";
     DefaultKernelArgs := "console=ttyS0 reboot=k panic=1 pci=off quiet";
     JailerBinary := "/usr/bin/jailer"; EnableJailer := false |}.

Definition NewManager (config : ManagerConfig) : Manager :=
  {| mgr_config := config; sandboxes := ∅; cidCounter := 3 |}.

(** pkg/vm/pool.go *)
Record poolStats := {
  totalServed : Z;
  poolHits : Z;
  poolMisses : Z }.

Record PoolConfig := {
  MaxSize : Z;
  MinSize : Z;
  MaxIdleTime : time_Duration;
  WarmConcurrency : Z;
  DefaultPoolVMConfig : VMConfig;
  ReplenishInterval : time_Duration }.

Definition DefaultPoolConfig : PoolConfig :=
  {| MaxSize := 10; MinSize := 3; MaxIdleTime := 5 * 60 * Second; WarmConcurrency := 2;
     DefaultPoolVMConfig := DefaultVMConfig; ReplenishInterval := 10 * Second |}.

(** [chan *domain.Sandbox] with a buffer: the queued pointers, oldest
    first, the capacity it was made with, and whether it was closed. *)
Record chan := {
  buf : list loc;
  cap : Z;
  chan_closed : bool }.

Record Pool := {
  pool_config : PoolConfig;
  available : chan;
  inUse : gmap string loc;
  stats : poolStats;
  closed : bool }.

(** pkg/vm/snapshot.go *)
Record SnapshotConfig := {
  Enabled : bool;
  CacheDir : string;
  MaxCached : Z;
  GoldenSnapshotName : string;
  GoldenVMConfig : VMConfig;
  SnapshotType : string;
  MemoryBackend : string;
  CompressMemory : bool }.

Record Snapshot := {
  SnapName : string;
  MemoryPath : string;
  StatePath : string;
  SnapVMConfig : VMConfig;
  Version : string;
  SnapCreatedAt : time_Time;
  SizeBytes : Z;
  Metadata : gmap string string;
  IsGolden : bool }.

Record SnapshotManager := {
  sm_config : SnapshotConfig;
  snapshots : gmap string Snapshot;
  goldenSnapshot : option Snapshot }.

(** pkg/agent/client.go *)
Record Client := {
  conn : option Conn;
  requestID : Z }.

Record Request := {
  ReqID : Z;
  Method : string;
  Params : gmap string json }.

Record ResponseError := {
  Code : Z;
  Message : string }.

Record Response := {
  RespID : Z;
  Result : option json;
  RespError : option ResponseError }.

(** The request as [json.Encoder] writes it: the three struct fields, the
    params left out when the map is empty ([omitempty]). *)
Record frame := {
  frame_id : Z;
  frame_method : string;
  frame_params : option (gmap string json) }.

(** pkg/shim/service.go *)
Record processState := {
  proc_id : string;
  containerID : string;
  proc_pid : Z;
  exitStatus : Z;
  exitedAt : time_Time;
  proc_stdin : string;
  proc_stdout : string;
  proc_stderr : string;
  proc_terminal : bool }.

Record Service := {
  svc_id : string;
  svc_namespace : string;
  svc_bundle : string;
  svc_sandbox : option loc;
  processes : gmap string processState }.

(** The configuration handed to [firecracker.NewMachine]. *)
Record fcDrive := {
  fcDriveID : string;
  fcPathOnHost : string;
  fcIsRootDevice : bool;
  fcIsReadOnly : bool }.

Record fcSnapshot := {
  MemFilePath : string;
  SnapshotPath : string;
  ResumeVM : bool;
  EnableDiffSnapshots : bool }.

Record fcConfig := {
  SocketPath : string;
  KernelImagePath : string;
  fcKernelArgs : string;
  fcVcpuCount : Z;
  MemSizeMib : Z;
  Smt : bool;
  VsockDevicePath : string;
  VsockDeviceCID : Z;
  Drives : list fcDrive;
  FcSnapshot : option fcSnapshot }.

(** Calls that leave the process, in the order the code makes them, and
    the warnings it logs. *)
Inductive Event :=
| EvMkdirAll (path : string)
| EvNewMachine (cfg : fcConfig)
| EvMachineStart (m : Machine)
| EvShutdown (m : Machine)
| EvStopVMM (m : Machine)
| EvWait (m : Machine) (timeout : time_Duration)
| EvConnClose (c : Conn)
| EvRemoveAll (path : string)
| EvVsockDial (cid port : Z)
| EvUnixDial (path : string) (timeout : time_Duration)
| EvEncode (c : Conn) (f : frame)
| EvDecode (c : Conn)
| EvSleep (d : time_Duration)
| EvWarn (msg : string).

Record St := {
  heap : gmap loc Sandbox;
  manager : Manager;
  pool : Pool;
  snapshotMgr : option SnapshotManager;
  agentClient : option Client;
  service : Service;
  trace : list Event }.

Definition set_heap (f : gmap loc Sandbox → gmap loc Sandbox) (s : St) : St :=
  {| heap := f (heap s); manager := manager s; pool := pool s;
     snapshotMgr := snapshotMgr s; agentClient := agentClient s;
     service := service s; trace := trace s |}.

Definition set_manager (f : Manager → Manager) (s : St) : St :=
  {| heap := heap s; manager := f (manager s); pool := pool s;
     snapshotMgr := snapshotMgr s; agentClient := agentClient s;
     service := service s; trace := trace s |}.

Definition set_pool (f : Pool → Pool) (s : St) : St :=
  {| heap := heap s; manager := manager s; pool := f (pool s);
     snapshotMgr := snapshotMgr s; agentClient := agentClient s;
     service := service s; trace := trace s |}.

Definition set_snapshotMgr (f : option SnapshotManager → option SnapshotManager) (s : St) : St :=
  {| heap := heap s; manager := manager s; pool := pool s;
     snapshotMgr := f (snapshotMgr s); agentClient := agentClient s;
     service := service s; trace := trace s |}.

Definition set_agentClient (f : option Client → option Client) (s : St) : St :=
  {| heap := heap s; manager := manager s; pool := pool s;
     snapshotMgr := snapshotMgr s; agentClient := f (agentClient s);
     service := service s; trace := trace s |}.

Definition set_service (f : Service → Service) (s : St) : St :=
  {| heap := heap s; manager := manager s; pool := pool s;
     snapshotMgr := snapshotMgr s; agentClient := agentClient s;
     service := f (service s); trace := trace s |}.

Definition set_trace (f : list Event → list Event) (s : St) : St :=
  {| heap := heap s; manager := manager s; pool := pool s;
     snapshotMgr := snapshotMgr s; agentClient := agentClient s;
     service := service s; trace := f (trace s) |}.

Definition set_sandboxes (f : gmap string loc → gmap string loc) (m : Manager) : Manager :=
  {| mgr_config := mgr_config m; sandboxes := f (sandboxes m); cidCounter := cidCounter m |}.

Definition set_cidCounter (v : Z) (m : Manager) : Manager :=
  {| mgr_config := mgr_config m; sandboxes := sandboxes m; cidCounter := v |}.

Definition set_available (f : chan → chan) (p : Pool) : Pool :=
  {| pool_config := pool_config p; available := f (available p); inUse := inUse p;
     stats := stats p; closed := closed p |}.

Definition set_inUse (f : gmap string loc → gmap string loc) (p : Pool) : Pool :=
  {| pool_config := pool_config p; available := available p; inUse := f (inUse p);
     stats := stats p; closed := closed p |}.

Definition set_stats (f : poolStats → poolStats) (p : Pool) : Pool :=
  {| pool_config := pool_config p; available := available p; inUse := inUse p;
     stats := f (stats p); closed := closed p |}.

Definition set_closed (v : bool) (p : Pool) : Pool :=
  {| pool_config := pool_config p; available := available p; inUse := inUse p;
     stats := stats p; closed := v |}.

Definition set_buf (f : list loc → list loc) (c : chan) : chan :=
  {| buf := f (buf c); cap := cap c; chan_closed := chan_closed c |}.

(** ** The monad of the embedding: state passing, with Go panics as the
    second outcome.  A Go [error] is an ordinary value ([res], or
    [option error] for a function that returns only an error). *)
Inductive outcome (A : Type) :=
| Ret (a : A)
| Panic (why : string).
Arguments Ret {A} a.
Arguments Panic {A} why.

Definition M (A : Type) : Type := St → outcome A * St.

Definition ret {A} (a : A) : M A := λ s, (Ret a, s).

Definition bind {A B} (m : M A) (k : A → M B) : M B :=
  λ s, match m s with
       | (Ret a, s') => k a s'
       | (Panic why, s') => (Panic why, s')
       end.

Notation "x <- m ;; k" := (bind m (λ x, k))
  (at level 100, m at next level, right associativity).
Notation "'do' m ;; k" := (bind m (λ _, k))
  (at level 100, m at next level, right associativity).

Definition gets {A} (f : St → A) : M A := λ s, (Ret (f s), s).
Definition modify (f : St → St) : M unit := λ s, (Ret tt, f s).
Definition panic {A} (why : string) : M A := λ s, (Panic why, s).
Definition emit (e : Event) : M unit := modify (set_trace (λ t, t ++ [e])).

Definition nil_deref : string := "invalid memory address or nil pointer dereference".

(** Reading and writing through a sandbox pointer. *)
Definition load (l : loc) : M Sandbox :=
  λ s, match heap s !! l with
       | Some sb => (Ret sb, s)
       | None => (Panic nil_deref, s)
       end.

Definition store (l : loc) (f : Sandbox → Sandbox) : M unit :=
  do load l ;; modify (set_heap (alter f l)).

(** [&domain.Sandbox{...}]: a location no sandbox lives at yet. *)
Definition new (sb : Sandbox) : M loc :=
  λ s, let l := fresh (dom (heap s)) in (Ret l, set_heap (<[l := sb]>) s).

(** ** pkg/vm/manager.go *)

(** What the outside world answers during [CreateVM] (and during a
    snapshot restore, which makes the same calls): the clock read by the
    id generator, the clock read by [NewSandbox], [os.MkdirAll],
    [firecracker.NewMachine], [machine.Start], [machine.PID] and the clock
    read for [StartedAt]. *)
Record CreateOracle := {
  co_nano : Z;
  co_created : time_Time;
  co_mkdir : option error;
  co_machine : res Machine;
  co_start : option error;
  co_pid : Z;
  co_started : time_Time }.

(** [machine.Shutdown], [machine.Wait] and the clock read for
    [FinishedAt]. *)
Record StopOracle := {
  so_shutdown : option error;
  so_wait : option error;
  so_finished : time_Time }.

(** The stop inside a destroy, and [os.RemoveAll]. *)
Record DestroyOracle := {
  do_stop : StopOracle;
  do_remove : option error }.

Definition generateID (nano : Z) : string := "fc-" +:+ fmt_d nano.

Definition Manager_CreateVM (o : CreateOracle) (config : VMConfig) : M (res loc) :=
  let sandboxID := generateID (co_nano o) in
  sandbox <- new (NewSandbox sandboxID (co_created o)) ;;
  m <- gets manager ;;
  do store sandbox (set_VsockCID (cidCounter m)) ;;
  do modify (set_manager (set_cidCounter (wrap_uint32 (cidCounter m + 1)))) ;;
  let sandboxDir := filepath_Join (RuntimeDir (mgr_config m)) sandboxID in
  do emit (EvMkdirAll sandboxDir) ;;
  match co_mkdir o with
  | Some err => ret (Error (Wrap "failed to create sandbox dir" err))
  | None =>
      let socketPath := filepath_Join sandboxDir "firecracker.sock" in
      let vsockPath := filepath_Join sandboxDir "vsock.sock" in
      do store sandbox (set_VsockPath vsockPath) ;;
      let config :=
        if decide (KernelPath config = "")
        then with_KernelPath config (DefaultKernelPath (mgr_config m)) else config in
      let config :=
        if decide (KernelArgs config = "")
        then with_KernelArgs config (DefaultKernelArgs (mgr_config m)) else config in
      sb <- load sandbox ;;
      let fc :=
        {| SocketPath := socketPath; KernelImagePath := KernelPath config;
           fcKernelArgs := KernelArgs config; fcVcpuCount := VcpuCount config;
           MemSizeMib := MemoryMB config; Smt := SMTEnabled config;
           VsockDevicePath := vsockPath; VsockDeviceCID := wrap_uint32 (VsockCID sb);
           Drives :=
             if decide (PathOnHost (RootDrive config) = "") then []
             else [ {| fcDriveID := DriveID (RootDrive config);
                       fcPathOnHost := PathOnHost (RootDrive config);
                       fcIsRootDevice := IsRoot (RootDrive config);
                       fcIsReadOnly := IsReadOnly (RootDrive config) |} ];
           FcSnapshot := None |} in
      do emit (EvNewMachine fc) ;;
      match co_machine o with
      | Error err => ret (Error (Wrap "failed to create machine" err))
      | OK machine =>
          do emit (EvMachineStart machine) ;;
          match co_start o with
          | Some err => ret (Error (Wrap "failed to start machine" err))
          | None =>
              do store sandbox (set_VM (Some machine)) ;;
              do store sandbox (set_VMConfig config) ;;
              do store sandbox (set_PID (co_pid o)) ;;
              do store sandbox (set_State SandboxReady) ;;
              do store sandbox (set_StartedAt (co_started o)) ;;
              do modify (set_manager (set_sandboxes (<[sandboxID := sandbox]>))) ;;
              ret (OK sandbox)
          end
      end
  end.

Definition Manager_StopVM (o : StopOracle) (sandbox : loc) : M (option error) :=
  sb <- load sandbox ;;
  match VM sb with
  | None => ret (Some (Errorf ("sandbox " +:+ ID sb +:+ " has no VM")))
  | Some machine =>
      do emit (EvShutdown machine) ;;
      do (match so_shutdown o with
          | Some _ =>
              do emit (EvWarn "Graceful shutdown failed, forcing stop") ;;
              emit (EvStopVMM machine)
          | None => ret tt
          end) ;;
      do emit (EvWait machine (10 * Second)) ;;
      do (match so_wait o with
          | Some _ => emit (EvWarn "Wait for VM exit failed")
          | None => ret tt
          end) ;;
      do store sandbox (set_State SandboxStopped) ;;
      do store sandbox (set_FinishedAt (so_finished o)) ;;
      ret None
  end.

Definition Manager_DestroyVM (o : DestroyOracle) (sandbox : loc) : M (option error) :=
  sb <- load sandbox ;;
  do (if decide (State sb = SandboxReady) then
        err <- Manager_StopVM (do_stop o) sandbox ;;
        match err with
        | Some _ => emit (EvWarn "Error stopping VM during destroy")
        | None => ret tt
        end
      else ret tt) ;;
  do (match AgentConn sb with
      | Some c => emit (EvConnClose c)
      | None => ret tt
      end) ;;
  m <- gets manager ;;
  let sandboxDir := filepath_Join (RuntimeDir (mgr_config m)) (ID sb) in
  do emit (EvRemoveAll sandboxDir) ;;
  do (match do_remove o with
      | Some _ => emit (EvWarn "Failed to clean up sandbox directory")
      | None => ret tt
      end) ;;
  do modify (set_manager (set_sandboxes (delete (ID sb)))) ;;
  ret None.

Definition Manager_GetSandbox (id : string) : M (option loc) :=
  gets (λ s, sandboxes (manager s) !! id).

(** ** pkg/vm/pool.go *)

(** [select { case x := <-c: ... default: ... }]: a queued value, the zero
    value of a closed and drained channel, or the default case. *)
Inductive recv_result :=
| Received (x : option loc)
| RecvDefault.

Definition chan_try_recv (c : chan) : recv_result * chan :=
  match buf c with
  | x :: rest => (Received (Some x), set_buf (λ _, rest) c)
  | [] => if chan_closed c then (Received None, c) else (RecvDefault, c)
  end.

(** [select { case c <- x: ... default: ... }]: sending on a closed
    channel panics; a full buffer selects the default case. *)
Inductive send_result :=
| Sent
| SendDefault
| SendPanic.

Definition chan_try_send (x : loc) (c : chan) : send_result * chan :=
  if chan_closed c then (SendPanic, c)
  else if decide (Z.of_nat (length (buf c)) < cap c)
       then (Sent, set_buf (λ b, b ++ [x]) c)
       else (SendDefault, c).

Definition NewPool (config : PoolConfig) : Pool :=
  {| pool_config := config;
     available := {| buf := []; cap := MaxSize config; chan_closed := false |};
     inUse := ∅;
     stats := {| totalServed := 0; poolHits := 0; poolMisses := 0 |};
     closed := false |}.

(** The three atomic counters. *)
Definition add_totalServed (st : poolStats) : poolStats :=
  {| totalServed := atomic_AddInt64 (totalServed st) 1;
     poolHits := poolHits st; poolMisses := poolMisses st |}.

Definition add_poolHits (st : poolStats) : poolStats :=
  {| totalServed := totalServed st;
     poolHits := atomic_AddInt64 (poolHits st) 1; poolMisses := poolMisses st |}.

Definition add_poolMisses (st : poolStats) : poolStats :=
  {| totalServed := totalServed st;
     poolHits := poolHits st; poolMisses := atomic_AddInt64 (poolMisses st) 1 |}.

Definition Pool_createFresh (o : CreateOracle) (config : VMConfig) : M (res loc) :=
  r <- Manager_CreateVM o config ;;
  match r with
  | Error err => ret (Error err)
  | OK sandbox =>
      sb <- load sandbox ;;
      do modify (set_pool (set_inUse (<[ID sb := sandbox]>))) ;;
      ret (OK sandbox)
  end.

Definition Pool_customizeVM (sandbox : loc) (config : VMConfig) : M (option error) :=
  do store sandbox (set_VMConfig config) ;;
  ret None.

Definition Pool_resetVM (sandbox : loc) : M (option error) :=
  do store sandbox (set_Containers ∅) ;;
  ret None.

(** The destroy of the customize fallback and the create of the miss (or
    of the fallback). *)
Record AcquireOracle := {
  ao_destroy : DestroyOracle;
  ao_create : CreateOracle }.

Definition Pool_Acquire (o : AcquireOracle) (config : VMConfig) : M (res loc) :=
  do modify (set_pool (set_stats add_totalServed)) ;;
  p <- gets pool ;;
  match chan_try_recv (available p) with
  | (Received x, c) =>
      do modify (set_pool (set_available (λ _, c))) ;;
      do modify (set_pool (set_stats add_poolHits)) ;;
      match x with
      | None => panic nil_deref
      | Some sandbox =>
          do store sandbox (set_FromPool true) ;;
          sb <- load sandbox ;;
          do modify (set_pool (set_inUse (<[ID sb := sandbox]>))) ;;
          err <- Pool_customizeVM sandbox config ;;
          match err with
          | Some _ =>
              do Manager_DestroyVM (ao_destroy o) sandbox ;;
              Pool_createFresh (ao_create o) config
          | None => ret (OK sandbox)
          end
      end
  | (RecvDefault, _) =>
      do modify (set_pool (set_stats add_poolMisses)) ;;
      Pool_createFresh (ao_create o) config
  end.

(** The two clock reads of [Release] and one destroy oracle for each of
    its three destroy sites. *)
Record ReleaseOracle := {
  rel_now : time_Time;
  rel_pooled : time_Time;
  rel_destroy_full : DestroyOracle;
  rel_destroy_reset : DestroyOracle;
  rel_destroy_race : DestroyOracle }.

Definition Pool_Release (o : ReleaseOracle) (sandbox : loc) : M (option error) :=
  sb <- load sandbox ;;
  do modify (set_pool (set_inUse (delete (ID sb)))) ;;
  p <- gets pool ;;
  let poolSize := Z.of_nat (length (buf (available p))) in
  let vmAge := rel_now o - CreatedAt sb in
  if decide (poolSize >= MaxSize (pool_config p) ∨ vmAge > MaxIdleTime (pool_config p))
  then Manager_DestroyVM (rel_destroy_full o) sandbox
  else
    err <- Pool_resetVM sandbox ;;
    match err with
    | Some _ =>
        do emit (EvWarn "Failed to reset VM, destroying") ;;
        Manager_DestroyVM (rel_destroy_reset o) sandbox
    | None =>
        do store sandbox (set_PooledAt (rel_pooled o)) ;;
        p <- gets pool ;;
        match chan_try_send sandbox (available p) with
        | (Sent, c) =>
            do modify (set_pool (set_available (λ _, c))) ;;
            ret None
        | (SendDefault, _) =>
            do Manager_DestroyVM (rel_destroy_race o) sandbox ;;
            ret None
        | (SendPanic, _) => panic "send on closed channel"
        end
    end.

Definition Pool_Stats : M PoolStats :=
  p <- gets pool ;;
  ret {| Available := Z.of_nat (length (buf (available p)));
         InUse := Z.of_nat (size (inUse p));
         StatsMaxSize := MaxSize (pool_config p);
         TotalServed := totalServed (stats p);
         PoolHits := poolHits (stats p);
         PoolMisses := poolMisses (stats p) |}.

(** ** pkg/vm/snapshot.go *)

(** [filepath.Dir]: the path up to its last separator. *)
Definition slash : Ascii.ascii := Ascii.Ascii true true true true false true false false.

Fixpoint drop_to_slash (cs : list Ascii.ascii) : option (list Ascii.ascii) :=
  match cs with
  | [] => None
  | c :: rest => if Ascii.eqb c slash then Some rest else drop_to_slash rest
  end.

Definition filepath_Dir (p : string) : string :=
  match drop_to_slash (rev (String.list_ascii_of_string p)) with
  | None => "."
  | Some [] => "/"
  | Some rest => String.string_of_list_ascii (rev rest)
  end.

(** A method called on a nil [*SnapshotManager] panics at its first lock. *)
Definition the_snapshotMgr : M SnapshotManager :=
  smo <- gets snapshotMgr ;;
  match smo with
  | Some sm => ret sm
  | None => panic nil_deref
  end.

Definition set_snapshots (f : gmap string Snapshot → gmap string Snapshot)
    (sm : SnapshotManager) : SnapshotManager :=
  {| sm_config := sm_config sm; snapshots := f (snapshots sm);
     goldenSnapshot := goldenSnapshot sm |}.

Definition SnapshotManager_RestoreFromSnapshot (o : CreateOracle) (snap : Snapshot)
    : M (res loc) :=
  sm <- the_snapshotMgr ;;
  if negb (Enabled (sm_config sm)) then ret (Error (Errorf "snapshots not enabled"))
  else
    let sandboxID := "fc-snap-" +:+ fmt_d (co_nano o) in
    m <- gets manager ;;
    let sandboxDir := filepath_Join (RuntimeDir (mgr_config m)) sandboxID in
    do emit (EvMkdirAll sandboxDir) ;;
    match co_mkdir o with
    | Some err => ret (Error (Wrap "failed to create sandbox dir" err))
    | None =>
        let socketPath := filepath_Join sandboxDir "firecracker.sock" in
        let vsockPath := filepath_Join sandboxDir "vsock.sock" in
        m <- gets manager ;;
        let cid := cidCounter m in
        do modify (set_manager (set_cidCounter (wrap_uint32 (cidCounter m + 1)))) ;;
        let fc :=
          {| SocketPath := socketPath; KernelImagePath := KernelPath (SnapVMConfig snap);
             fcKernelArgs := ""; fcVcpuCount := VcpuCount (SnapVMConfig snap);
             MemSizeMib := MemoryMB (SnapVMConfig snap);
             Smt := SMTEnabled (SnapVMConfig snap);
             VsockDevicePath := vsockPath; VsockDeviceCID := wrap_uint32 cid;
             Drives := [];
             FcSnapshot :=
               Some {| MemFilePath := MemoryPath snap; SnapshotPath := StatePath snap;
                       ResumeVM := true;
                       EnableDiffSnapshots :=
                         bool_decide (SnapshotType (sm_config sm) = "Diff") |} |} in
        do emit (EvNewMachine fc) ;;
        match co_machine o with
        | Error err => ret (Error (Wrap "failed to create machine for restore" err))
        | OK machine =>
            do emit (EvMachineStart machine) ;;
            match co_start o with
            | Some err => ret (Error (Wrap "failed to restore VM" err))
            | None =>
                sandbox <- new (NewSandbox sandboxID (co_created o)) ;;
                do store sandbox (set_VM (Some machine)) ;;
                do store sandbox (set_VMConfig (SnapVMConfig snap)) ;;
                do store sandbox (set_VsockPath vsockPath) ;;
                do store sandbox (set_VsockCID cid) ;;
                do store sandbox (set_PID (co_pid o)) ;;
                do store sandbox (set_State SandboxReady) ;;
                do store sandbox (set_StartedAt (co_started o)) ;;
                do store sandbox (set_FromPool true) ;;
                do modify (set_manager (set_sandboxes (<[sandboxID := sandbox]>))) ;;
                ret (OK sandbox)
            end
        end
    end.

Definition SnapshotManager_RestoreFromGolden (o : CreateOracle) : M (res loc) :=
  sm <- the_snapshotMgr ;;
  match goldenSnapshot sm with
  | None => ret (Error (Errorf "no golden snapshot available"))
  | Some golden => SnapshotManager_RestoreFromSnapshot o golden
  end.

Definition SnapshotManager_HasGoldenSnapshot : M bool :=
  sm <- the_snapshotMgr ;;
  ret (bool_decide (goldenSnapshot sm ≠ None)).

Definition SnapshotManager_DeleteSnapshot (remove : option error) (name : string)
    : M (option error) :=
  sm <- the_snapshotMgr ;;
  match snapshots sm !! name with
  | None => ret None
  | Some snap =>
      if IsGolden snap then ret (Some (Errorf "cannot delete golden snapshot"))
      else
        do emit (EvRemoveAll (filepath_Dir (MemoryPath snap))) ;;
        match remove with
        | Some err => ret (Some (Wrap "failed to remove snapshot files" err))
        | None =>
            do modify (set_snapshotMgr (fmap (set_snapshots (delete name)))) ;;
            ret None
        end
  end.

(** One step of the loop of [Cleanup] that looks for the oldest
    non-golden snapshot. *)
Definition older (oldest : option Snapshot) (snap : Snapshot) : option Snapshot :=
  if IsGolden snap then oldest
  else match oldest with
       | None => Some snap
       | Some o => if decide (SnapCreatedAt snap < SnapCreatedAt o) then Some snap else oldest
       end.

Definition find_oldest (entries : list (string * Snapshot)) : option Snapshot :=
  foldl (λ oldest e, older oldest e.2) None entries.

(** [Cleanup].  [order] is the order in which [range] walks the map, which
    Go leaves unspecified: some permutation of its entries. *)
Definition SnapshotManager_Cleanup
    (order : list (string * Snapshot) → list (string * Snapshot)) : M (option error) :=
  sm <- the_snapshotMgr ;;
  if decide (Z.of_nat (size (snapshots sm)) <= MaxCached (sm_config sm)) then ret None
  else
    do (match find_oldest (order (map_to_list (snapshots sm))) with
        | Some oldest =>
            do emit (EvRemoveAll (filepath_Dir (MemoryPath oldest))) ;;
            modify (set_snapshotMgr (fmap (set_snapshots (delete (SnapName oldest)))))
        | None => ret tt
        end) ;;
    ret None.

(** [SnapshotPool]: the embedded [*Pool] and the snapshot manager are the
    ones of the state. *)
Record SnapAcquireOracle := {
  sao_pool : AcquireOracle;
  sao_restore : CreateOracle;
  sao_fresh : CreateOracle }.

Definition SnapshotPool_Acquire (o : SnapAcquireOracle) (config : VMConfig) : M (res loc) :=
  r <- Pool_Acquire (sao_pool o) config ;;
  match r with
  | OK sandbox => ret (OK sandbox)
  | Error _ =>
      smo <- gets snapshotMgr ;;
      has <- (match smo with
              | None => ret false
              | Some _ => SnapshotManager_HasGoldenSnapshot
              end) ;;
      restored <- (if has : bool then
                     r <- SnapshotManager_RestoreFromGolden (sao_restore o) ;;
                     match r with
                     | OK sandbox =>
                         customErr <- Pool_customizeVM sandbox config ;;
                         do (match customErr with
                             | Some _ => emit (EvWarn "Failed to customize restored VM")
                             | None => ret tt
                             end) ;;
                         ret (Some sandbox)
                     | Error _ =>
                         do emit (EvWarn "Snapshot restore failed, falling back to fresh VM") ;;
                         ret None
                     end
                   else ret None) ;;
      match restored with
      | Some sandbox => ret (OK sandbox)
      | None => Pool_createFresh (sao_fresh o) config
      end
  end.

(** ** pkg/agent/client.go *)

Definition NewClient : Client := {| conn := None; requestID := 0 |}.

(** A method called on a nil [*Client] panics at its first lock. *)
Definition the_client : M Client :=
  co <- gets agentClient ;;
  match co with
  | Some c => ret c
  | None => panic nil_deref
  end.

Definition encode_request (req : Request) : frame :=
  {| frame_id := ReqID req; frame_method := Method req;
     frame_params := if decide (Params req = ∅) then None else Some (Params req) |}.

(** What the connection does during one [call]: the result of writing the
    request and the result of reading a response.  (The deadline that
    [call] copies from the context onto the connection shows only in these
    results.) *)
Record CallOracle := {
  call_encode : option error;
  call_decode : res Response }.

Definition Client_call (o : CallOracle) (req : Request) : M (res Response) :=
  c <- the_client ;;
  match conn c with
  | None => ret (Error (Errorf "not connected"))
  | Some cn =>
      let id := wrap_uint64 (requestID c + 1) in
      do modify (set_agentClient (λ _, Some {| conn := conn c; requestID := id |})) ;;
      let req := {| ReqID := id; Method := Method req; Params := Params req |} in
      do emit (EvEncode cn (encode_request req)) ;;
      match call_encode o with
      | Some err => ret (Error (Wrap "failed to send request" err))
      | None =>
          do emit (EvDecode cn) ;;
          match call_decode o with
          | Error err => ret (Error (Wrap "failed to read response" err))
          | OK resp =>
              if decide (RespID resp ≠ ReqID req)
              then ret (Error (Errorf ("response ID mismatch: expected " +:+
                                       fmt_d (ReqID req) +:+ ", got " +:+ fmt_d (RespID resp))))
              else ret (OK resp)
          end
      end
  end.

(** The loop of [waitForReady]: in round [i] the context is done with
    [wait_ctx o i] (or not), and the connection answers [wait_call o i]. *)
Record WaitOracle := {
  wait_ctx : nat → option error;
  wait_call : nat → CallOracle }.

Definition ping : Request := {| ReqID := 0; Method := "ping"; Params := ∅ |}.

Fixpoint waitForReady_loop (rounds : nat) (i : nat) (o : WaitOracle) : M (option error) :=
  match rounds with
  | O => ret (Some (Errorf "timeout waiting for agent"))
  | S rounds' =>
      match wait_ctx o i with
      | Some err => ret (Some err)
      | None =>
          r <- Client_call (wait_call o i) ping ;;
          match r with
          | OK {| RespError := None |} => ret None
          | _ =>
              do emit (EvSleep (100 * Millisecond)) ;;
              waitForReady_loop rounds' (S i) o
          end
      end
  end.

Definition Client_waitForReady (o : WaitOracle) : M (option error) :=
  waitForReady_loop 30 0 o.

Record ConnectOracle := {
  conn_vsock : res Conn;
  conn_unix : res Conn;
  conn_wait : WaitOracle }.

Definition Client_Connect (o : ConnectOracle) (vsockPath : string) (cid port : Z)
    : M (option error) :=
  do emit (EvVsockDial cid port) ;;
  dialed <- (match conn_vsock o with
             | OK vsockConn => ret (OK vsockConn)
             | Error _ =>
                 do emit (EvUnixDial vsockPath (30 * Second)) ;;
                 match conn_unix o with
                 | Error err => ret (Error (Wrap "failed to connect to vsock" err))
                 | OK cn => ret (OK cn)
                 end
             end) ;;
  match dialed with
  | Error err => ret (Some err)
  | OK cn =>
      c <- the_client ;;
      do modify (set_agentClient (λ _, Some {| conn := Some cn; requestID := requestID c |})) ;;
      err <- Client_waitForReady (conn_wait o) ;;
      match err with
      | Some err =>
          do emit (EvConnClose cn) ;;
          ret (Some (Wrap "agent not ready" err))
      | None => ret None
      end
  end.

Definition Client_CreateContainer (o : CallOracle) (spec : ContainerSpec) : M (option error) :=
  let req :=
    {| ReqID := 0; Method := "create_container";
       Params := <["id" := JStr (SpecID spec)]>
                 (<["bundle" := JStr (BundlePath spec)]>
                 (<["stdin" := JBool (Stdin spec)]>
                 (<["stdout" := JBool (Stdout spec)]>
                 (<["stderr" := JBool (Stderr spec)]>
                 (<["terminal" := JBool (Terminal spec)]> ∅))))) |} in
  r <- Client_call o req ;;
  match r with
  | Error err => ret (Some err)
  | OK resp =>
      match RespError resp with
      | Some e => ret (Some (Errorf ("create_container failed: " +:+ Message e)))
      | None => ret None
      end
  end.

Definition Client_StartContainer (o : CallOracle) (containerID : string) : M (res Z) :=
  let req :=
    {| ReqID := 0; Method := "start_container";
       Params := <["id" := JStr containerID]> ∅ |} in
  r <- Client_call o req ;;
  match r with
  | Error err => ret (Error err)
  | OK resp =>
      match RespError resp with
      | Some e => ret (Error (Errorf ("start_container failed: " +:+ Message e)))
      | None =>
          match Result resp with
          | Some (JObj result) =>
              let pid := match obj_lookup "pid" result with
                         | Some (JNum f) => f
                         | _ => inject_Z 0
                         end in
              ret (OK (int_of_float64 pid))
          | _ => ret (Error (Errorf "invalid response format"))
          end
      end
  end.

Definition Client_StopContainer (o : CallOracle) (containerID : string)
    (timeout : time_Duration) : M (option error) :=
  let req :=
    {| ReqID := 0; Method := "stop_container";
       Params := <["id" := JStr containerID]>
                 (<["timeout" := JInt (Duration_Seconds_int timeout)]> ∅) |} in
  r <- Client_call o req ;;
  match r with
  | Error err => ret (Some err)
  | OK resp =>
      match RespError resp with
      | Some e => ret (Some (Errorf ("stop_container failed: " +:+ Message e)))
      | None => ret None
      end
  end.

(** ** cmd/fc-agent/main.go *)

(** The timeout, in seconds, that the agent's [stopContainer] takes from
    the params of a request: the number under "timeout", or 10 when there
    is none or it is zero. *)
Definition Agent_stopContainer_timeout (params : gmap string json) : Q :=
  let timeout := match params !! "timeout" with
                 | Some (JNum f) => f
                 | _ => inject_Z 0
                 end in
  if Qeq_bool timeout (inject_Z 0) then inject_Z 10 else timeout.

(** ** pkg/shim/service.go *)

Definition vsockAgentPort : Z := 1024.

Record CreateTaskRequest := {
  ctr_ID : string;
  ctr_Bundle : string;
  ctr_Rootfs : list string;
  ctr_Stdin : string;
  ctr_Stdout : string;
  ctr_Stderr : string;
  ctr_Terminal : bool }.

Record TaskRequest := {
  tr_ID : string;
  tr_ExecID : string }.

Definition set_svc_sandbox (v : option loc) (sv : Service) : Service :=
  {| svc_id := svc_id sv; svc_namespace := svc_namespace sv; svc_bundle := svc_bundle sv;
     svc_sandbox := v; processes := processes sv |}.

Definition set_svc_bundle (v : string) (sv : Service) : Service :=
  {| svc_id := svc_id sv; svc_namespace := svc_namespace sv; svc_bundle := v;
     svc_sandbox := svc_sandbox sv; processes := processes sv |}.

Definition set_processes (f : gmap string processState → gmap string processState)
    (sv : Service) : Service :=
  {| svc_id := svc_id sv; svc_namespace := svc_namespace sv; svc_bundle := svc_bundle sv;
     svc_sandbox := svc_sandbox sv; processes := f (processes sv) |}.

Definition set_proc_pid (v : Z) (p : processState) : processState :=
  {| proc_id := proc_id p; containerID := containerID p; proc_pid := v;
     exitStatus := exitStatus p; exitedAt := exitedAt p; proc_stdin := proc_stdin p;
     proc_stdout := proc_stdout p; proc_stderr := proc_stderr p;
     proc_terminal := proc_terminal p |}.

Record ServiceCreateOracle := {
  sc_acquire : AcquireOracle;
  sc_connect : ConnectOracle;
  sc_container : CallOracle }.

(** [Create]; the result is the [Pid] of the response. *)
Definition Service_Create (o : ServiceCreateOracle) (r : CreateTaskRequest) : M (res Z) :=
  let vmConfig := DefaultVMConfig in
  let vmConfig :=
    match ctr_Rootfs r with
    | source :: _ =>
        with_RootDrive vmConfig
          {| DriveID := "rootfs"; PathOnHost := source; IsReadOnly := false;
             IsRoot := true; CacheType := "" |}
    | [] => vmConfig
    end in
  acquired <- Pool_Acquire (sc_acquire o) vmConfig ;;
  match acquired with
  | Error err => ret (Error (Wrap "failed to acquire VM" err))
  | OK sandbox =>
      do modify (set_service (set_svc_sandbox (Some sandbox))) ;;
      do modify (set_service (set_svc_bundle (ctr_Bundle r))) ;;
      do modify (set_agentClient (λ _, Some NewClient)) ;;
      sb <- load sandbox ;;
      err <- Client_Connect (sc_connect o) (VsockPath sb) (VsockCID sb) vsockAgentPort ;;
      match err with
      | Some err => ret (Error (Wrap "failed to connect to agent" err))
      | None =>
          let containerSpec :=
            {| SpecID := ctr_ID r; BundlePath := ctr_Bundle r;
               Stdin := bool_decide (ctr_Stdin r ≠ "");
               Stdout := bool_decide (ctr_Stdout r ≠ "");
               Stderr := bool_decide (ctr_Stderr r ≠ "");
               Terminal := ctr_Terminal r |} in
          err <- Client_CreateContainer (sc_container o) containerSpec ;;
          match err with
          | Some err => ret (Error (Wrap "failed to create container" err))
          | None =>
              let proc :=
                {| proc_id := ctr_ID r; containerID := ctr_ID r; proc_pid := 0;
                   exitStatus := 0; exitedAt := 0; proc_stdin := ctr_Stdin r;
                   proc_stdout := ctr_Stdout r; proc_stderr := ctr_Stderr r;
                   proc_terminal := ctr_Terminal r |} in
              do modify (set_service (set_processes (<[ctr_ID r := proc]>))) ;;
              sb <- load sandbox ;;
              ret (OK (wrap_uint32 (PID sb)))
          end
      end
  end.

Definition procID_of (r : TaskRequest) : string :=
  if decide (tr_ExecID r ≠ "") then tr_ExecID r else tr_ID r.

(** [Start]; the result is the [Pid] of the response. *)
Definition Service_Start (o : CallOracle) (r : TaskRequest) : M (res Z) :=
  let procID := procID_of r in
  sv <- gets service ;;
  match processes sv !! procID with
  | None => ret (Error (ToGRPC ErrNotFound ("process " +:+ procID +:+ " not found")))
  | Some proc =>
      started <- Client_StartContainer o (containerID proc) ;;
      match started with
      | Error err => ret (Error (Wrap "failed to start container" err))
      | OK pid =>
          do modify (set_service (set_processes (<[procID := set_proc_pid pid proc]>))) ;;
          ret (OK (wrap_uint32 pid))
      end
  end.

Definition Service_Kill (o : CallOracle) (r : TaskRequest) : M (option error) :=
  let procID := procID_of r in
  sv <- gets service ;;
  match processes sv !! procID with
  | None => ret (Some (ToGRPC ErrNotFound ("process " +:+ procID +:+ " not found")))
  | Some proc =>
      let timeout := 30 * Second in
      err <- Client_StopContainer o (containerID proc) timeout ;;
      match err with
      | Some err => ret (Some (Wrap "failed to kill container" err))
      | None => ret None
      end
  end.

(** [Cleanup], called after the shim exits. *)
Definition Service_Cleanup (o : DestroyOracle) : M unit :=
  sv <- gets service ;;
  match svc_sandbox sv with
  | Some sandbox =>
      err <- Manager_DestroyVM o sandbox ;;
      match err with
      | Some _ => emit (EvWarn "Error destroying sandbox during cleanup")
      | None => ret tt
      end
  | None => ret tt
  end.

(** ** Goroutines inside [Pool.Acquire]

    The statistics are updated with atomic adds outside the pool mutex, so
    calls of [Acquire] interleave between them.  A goroutine inside
    [Acquire] is at one of these points: before the add to [totalServed];
    after it and before the [select]; after a receive and before the add to
    [poolHits]; after the default case and before the add to [poolMisses];
    past its counter updates. *)
Inductive acquire_pc := Idle | Counted | Hit | Miss | Finished.

#[global] Instance acquire_pc_eq_dec : EqDecision acquire_pc.
Proof. solve_decision. Defined.

Record Conf := {
  conf_pool : Pool;
  conf_threads : list acquire_pc }.

(** One atomic step of the system.  [step_other] is any action of any
    goroutine other than the three adds: the rest of [Acquire], [Release],
    [Warm], the background loops; none of them writes the statistics. *)
Inductive step : Conf → Conf → Prop :=
| step_call p ts :
    step {| conf_pool := p; conf_threads := ts |}
         {| conf_pool := p; conf_threads := ts ++ [Idle] |}
| step_count p ts i :
    ts !! i = Some Idle →
    step {| conf_pool := p; conf_threads := ts |}
         {| conf_pool := set_stats add_totalServed p; conf_threads := <[i := Counted]> ts |}
| step_recv p ts i x c :
    ts !! i = Some Counted →
    chan_try_recv (available p) = (Received x, c) →
    step {| conf_pool := p; conf_threads := ts |}
         {| conf_pool := set_available (λ _, c) p; conf_threads := <[i := Hit]> ts |}
| step_default p ts i c :
    ts !! i = Some Counted →
    chan_try_recv (available p) = (RecvDefault, c) →
    step {| conf_pool := p; conf_threads := ts |}
         {| conf_pool := p; conf_threads := <[i := Miss]> ts |}
| step_hit p ts i :
    ts !! i = Some Hit →
    step {| conf_pool := p; conf_threads := ts |}
         {| conf_pool := set_stats add_poolHits p; conf_threads := <[i := Finished]> ts |}
| step_miss p ts i :
    ts !! i = Some Miss →
    step {| conf_pool := p; conf_threads := ts |}
         {| conf_pool := set_stats add_poolMisses p; conf_threads := <[i := Finished]> ts |}
| step_other p p' ts :
    stats p' = stats p →
    step {| conf_pool := p; conf_threads := ts |}
         {| conf_pool := p'; conf_threads := ts |}.

(** Calls of [Acquire] that have started, and calls that are past their
    counter updates. *)
Definition started (ts : list acquire_pc) : Z :=
  Z.of_nat (length (filter (λ t, t ≠ Idle) ts)).

Definition finished (ts : list acquire_pc) : Z :=
  Z.of_nat (length (filter (λ t, t = Finished) ts)).

(** ** Sequences of pool operations, one after the other *)
Inductive PoolOp :=
| OpAcquire (o : AcquireOracle) (config : VMConfig)
| OpSnapshotAcquire (o : SnapAcquireOracle) (config : VMConfig)
| OpRelease (o : ReleaseOracle) (sandbox : loc).

Definition run_op (op : PoolOp) (s : St) : St :=
  match op with
  | OpAcquire o config => (Pool_Acquire o config s).2
  | OpSnapshotAcquire o config => (SnapshotPool_Acquire o config s).2
  | OpRelease o sandbox => (Pool_Release o sandbox s).2
  end.

Definition run_ops (ops : list PoolOp) (s : St) : St := foldl (λ s op, run_op op s) s ops.

Definition is_acquire (op : PoolOp) : bool :=
  match op with
  | OpRelease _ _ => false
  | _ => true
  end.

Definition acquire_calls (ops : list PoolOp) : Z :=
  Z.of_nat (length (filter (λ op, is_acquire op = true) ops)).

(** ** pkg/vm/pool.go: [Close] and the idle cleanup *)

(** [close(c)] *)
Definition chan_close (c : chan) : chan :=
  {| buf := buf c; cap := cap c; chan_closed := true |}.

(** The destroys of [Close]: one oracle for each VM taken from the ready
    queue and one for each VM of the in-use map, in the order they are
    destroyed. *)
Record CloseOracle := {
  close_pooled : nat → DestroyOracle;
  close_inUse : nat → DestroyOracle }.

(** [for sandbox := range p.available] on the closed channel: the queued
    sandboxes, oldest first, until the buffer is empty.  [n] bounds the
    number of rounds; [Close] passes the length of the buffer. *)
Fixpoint Pool_Close_drain (n : nat) (d : nat → DestroyOracle) (i : nat) : M unit :=
  match n with
  | O => ret tt
  | S n' =>
      p <- gets pool ;;
      match buf (available p) with
      | [] => ret tt
      | sandbox :: rest =>
          do modify (set_pool (set_available (set_buf (λ _, rest)))) ;;
          err <- Manager_DestroyVM (d i) sandbox ;;
          do (match err with
              | Some _ => emit (EvWarn "Error destroying pooled VM")
              | None => ret tt
              end) ;;
          Pool_Close_drain n' d (S i)
      end
  end.

(** [for _, sandbox := range p.inUse], over the entries in the order the
    map is walked. *)
Fixpoint Pool_Close_inUse (entries : list (string * loc)) (d : nat → DestroyOracle) (i : nat)
    : M unit :=
  match entries with
  | [] => ret tt
  | (_, sandbox) :: rest =>
      err <- Manager_DestroyVM (d i) sandbox ;;
      do (match err with
          | Some _ => emit (EvWarn "Error destroying in-use VM")
          | None => ret tt
          end) ;;
      Pool_Close_inUse rest d (S i)
  end.

(** [Close].  [order] is the order in which [range] walks the in-use map.
    ([p.cancel()] stops the two background loops, which are no part of the
    state.) *)
Definition Pool_Close (order : list (string * loc) → list (string * loc)) (o : CloseOracle)
    : M (option error) :=
  p <- gets pool ;;
  if closed p then ret None
  else
    do modify (set_pool (set_closed true)) ;;
    p <- gets pool ;;
    if chan_closed (available p) then panic "close of closed channel"
    else
      do modify (set_pool (set_available chan_close)) ;;
      do Pool_Close_drain (length (buf (available p))) (close_pooled o) 0 ;;
      p <- gets pool ;;
      do Pool_Close_inUse (order (map_to_list (inUse p))) (close_inUse o) 0 ;;
      ret None.

(** The clock reads and the destroys of [cleanupIdle]: for the [i]-th
    sandbox taken from the queue the time at which its idle time is
    measured and the destroy of an expired one; for the [i]-th sandbox put
    back the destroy of one that finds the queue full. *)
Record CleanupIdleOracle := {
  ci_now : nat → time_Time;
  ci_destroy : nat → DestroyOracle;
  ci_destroy_full : nat → DestroyOracle }.

(** The first loop of [cleanupIdle]: drain the queue, destroy the expired
    sandboxes and collect the others in [keep].  [n] bounds the number of
    rounds; [cleanupIdle] passes one more than the length of the buffer. *)
Fixpoint Pool_cleanupIdle_drain (n : nat) (o : CleanupIdleOracle) (i : nat) (keep : list loc)
    : M (list loc) :=
  match n with
  | O => ret keep
  | S n' =>
      p <- gets pool ;;
      match chan_try_recv (available p) with
      | (Received x, c) =>
          do modify (set_pool (set_available (λ _, c))) ;;
          match x with
          | None => panic nil_deref
          | Some sandbox =>
              sb <- load sandbox ;;
              if decide (ci_now o i - PooledAt sb > MaxIdleTime (pool_config p)) then
                do Manager_DestroyVM (ci_destroy o i) sandbox ;;
                Pool_cleanupIdle_drain n' o (S i) keep
              else Pool_cleanupIdle_drain n' o (S i) (keep ++ [sandbox])
          end
      | (RecvDefault, _) => ret keep
      end
  end.

(** The second loop: put the kept sandboxes back. *)
Fixpoint Pool_cleanupIdle_refill (keep : list loc) (o : CleanupIdleOracle) (i : nat) : M unit :=
  match keep with
  | [] => ret tt
  | sandbox :: rest =>
      p <- gets pool ;;
      do (match chan_try_send sandbox (available p) with
          | (Sent, c) => modify (set_pool (set_available (λ _, c)))
          | (SendDefault, _) =>
              do Manager_DestroyVM (ci_destroy_full o i) sandbox ;;
              ret tt
          | (SendPanic, _) => panic "send on closed channel"
          end) ;;
      Pool_cleanupIdle_refill rest o (S i)
  end.

Definition Pool_cleanupIdle (o : CleanupIdleOracle) : M unit :=
  p <- gets pool ;;
  keep <- Pool_cleanupIdle_drain (S (length (buf (available p)))) o 0 [] ;;
  Pool_cleanupIdle_refill keep o 0.

(** ** pkg/vm/snapshot.go: lookups, statistics and warming from a snapshot *)

Definition SnapshotManager_GetSnapshot (name : string) : M (option Snapshot) :=
  sm <- the_snapshotMgr ;;
  ret (snapshots sm !! name).

Record SnapshotStats := {
  SnapshotsAvailable : Z;
  HasGoldenSnapshot : bool;
  TotalSizeBytes : Z;
  AvgRestoreTimeMs : Q;
  RestoreCount : Z }.

(** [Stats]: the sizes are added up as int64, in the order the map is
    walked. *)
Definition SnapshotManager_Stats
    (order : list (string * Snapshot) → list (string * Snapshot)) : M SnapshotStats :=
  sm <- the_snapshotMgr ;;
  let totalSize :=
    foldl (λ total e, wrap_int64 (total + SizeBytes e.2)) 0
      (order (map_to_list (snapshots sm))) in
  ret {| SnapshotsAvailable := Z.of_nat (size (snapshots sm));
         HasGoldenSnapshot := bool_decide (goldenSnapshot sm ≠ None);
         TotalSizeBytes := totalSize;
         AvgRestoreTimeMs := inject_Z 0;
         RestoreCount := 0 |}.




(** ** pkg/agent/client.go: [Close] and [RemoveContainer] *)

(** [Close]; [closed] is what [conn.Close()] answers. *)
Definition Client_Close (closed : option error) : M (option error) :=
  c <- the_client ;;
  match conn c with
  | Some cn =>
      do emit (EvConnClose cn) ;;
      ret closed
  | None => ret None
  end.

Definition Client_RemoveContainer (o : CallOracle) (containerID : string) : M (option error) :=
  let req :=
    {| ReqID := 0; Method := "remove_container";
       Params := <["id" := JStr containerID]> ∅ |} in
  r <- Client_call o req ;;
  match r with
  | Error err => ret (Some err)
  | OK resp =>
      match RespError resp with
      | Some e => ret (Some (Errorf ("remove_container failed: " +:+ Message e)))
      | None => ret None
      end
  end.

(** ** pkg/shim/service.go: [State], [Delete] and [Wait] *)

(** [task.Status] *)
Inductive task_Status := Status_CREATED | Status_RUNNING | Status_STOPPED.

#[global] Instance task_Status_eq_dec : EqDecision task_Status.
Proof. solve_decision. Defined.

(** [processStatus]; the zero [time.Time] is 0. *)
Definition Service_processStatus (proc : processState) : task_Status :=
  if decide (exitedAt proc ≠ 0) then Status_STOPPED
  else if decide (proc_pid proc > 0) then Status_RUNNING
  else Status_CREATED.

Record StateResponse := {
  st_ID : string;
  st_Bundle : string;
  st_Pid : Z;
  st_Status : task_Status;
  st_Stdin : string;
  st_Stdout : string;
  st_Stderr : string;
  st_Terminal : bool;
  st_ExitStatus : Z;
  st_ExitedAt : option time_Time }.

(** [State]: the process is looked up under the exec id of the request. *)
Definition Service_State (r : TaskRequest) : M (res StateResponse) :=
  sv <- gets service ;;
  match processes sv !! tr_ExecID r with
  | None => ret (Error (ToGRPC ErrNotFound ("process " +:+ tr_ExecID r +:+ " not found")))
  | Some proc =>
      let exitedAt := if decide (exitedAt proc ≠ 0) then Some (exitedAt proc) else None in
      ret (OK {| st_ID := proc_id proc; st_Bundle := svc_bundle sv;
                 st_Pid := wrap_uint32 (proc_pid proc);
                 st_Status := Service_processStatus proc;
                 st_Stdin := proc_stdin proc; st_Stdout := proc_stdout proc;
                 st_Stderr := proc_stderr proc; st_Terminal := proc_terminal proc;
                 st_ExitStatus := wrap_uint32 (exitStatus proc);
                 st_ExitedAt := exitedAt |})
  end.

Record DeleteResponse := {
  del_Pid : Z;
  del_ExitStatus : Z;
  del_ExitedAt : option time_Time }.

(** The call of [RemoveContainer] and the [Release] inside [Delete]. *)
Record DeleteOracle := {
  del_remove : CallOracle;
  del_release : ReleaseOracle }.

Definition Service_Delete (o : DeleteOracle) (r : TaskRequest) : M (res DeleteResponse) :=
  let procID := procID_of r in
  sv <- gets service ;;
  match processes sv !! procID with
  | None => ret (Error (ToGRPC ErrNotFound ("process " +:+ procID +:+ " not found")))
  | Some proc =>
      cl <- gets agentClient ;;
      do (match cl with
          | Some _ =>
              err <- Client_RemoveContainer (del_remove o) (containerID proc) ;;
              match err with
              | Some _ => emit (EvWarn "Error removing container")
              | None => ret tt
              end
          | None => ret tt
          end) ;;
      do modify (set_service (set_processes (delete procID))) ;;
      sv <- gets service ;;
      do (match svc_sandbox sv with
          | Some sandbox =>
              if decide (tr_ExecID r = "") then
                err <- Pool_Release (del_release o) sandbox ;;
                do (match err with
                    | Some _ => emit (EvWarn "Error releasing VM to pool")
                    | None => ret tt
                    end) ;;
                modify (set_service (set_svc_sandbox None))
              else ret tt
          | None => ret tt
          end) ;;
      let exitedAt := if decide (exitedAt proc ≠ 0) then Some (exitedAt proc) else None in
      ret (OK {| del_Pid := wrap_uint32 (proc_pid proc);
                 del_ExitStatus := wrap_uint32 (exitStatus proc);
                 del_ExitedAt := exitedAt |})
  end.

Record WaitResponse := {
  wait_ExitStatus : Z;
  wait_ExitedAt : time_Time }.

(** [Wait]: for a process that has not exited it blocks until the context
    is done and returns the context's error, [ctx_err]. *)
Definition Service_Wait (ctx_err : error) (r : TaskRequest) : M (res WaitResponse) :=
  let procID := procID_of r in
  sv <- gets service ;;
  match processes sv !! procID with
  | None => ret (Error (ToGRPC ErrNotFound ("process " +:+ procID +:+ " not found")))
  | Some proc =>
      if decide (exitedAt proc ≠ 0) then
        ret (OK {| wait_ExitStatus := wrap_uint32 (exitStatus proc);
                   wait_ExitedAt := exitedAt proc |})
      else ret (Error ctx_err)
  end.

(** ** cmd/fc-agent/main.go: the guest agent

    The agent is another process, inside the VM, with a state of its own:
    the containers it manages.  Its handlers take that state and return it;
    the commands they run and the files they touch are recorded in the
    agent's trace, and what those answer comes from an oracle argument. *)

Definition runcBinary : string := "/usr/bin/runc".
Definition containerRoot : string := "/run/fc-agent/containers".

Record AgentContainer := {
  ac_ID : string;
  ac_Bundle : string;
  ac_PID : Z;
  ac_Status : string;
  ac_Created : time_Time }.

(** [exec.Command(runcBinary, args...)] run to its end (under a context
    with a timeout for [AgRuncTimeout]), and the other calls that leave
    the agent. *)
Inductive AgentEvent :=
| AgRunc (args : list string)
| AgRuncTimeout (timeout : time_Duration) (args : list string)
| AgMkdirAll (path : string)
| AgRemoveAll (path : string)
| AgReadFile (path : string)
| AgSleep (d : time_Duration).

Record Agent := {
  agent_containers : gmap string AgentContainer;
  agent_trace : list AgentEvent }.

Definition ag_emit (e : AgentEvent) (a : Agent) : Agent :=
  {| agent_containers := agent_containers a; agent_trace := agent_trace a ++ [e] |}.

Definition ag_set_containers (f : gmap string AgentContainer → gmap string AgentContainer)
    (a : Agent) : Agent :=
  {| agent_containers := f (agent_containers a); agent_trace := agent_trace a |}.

(** [err.Error()] *)
Fixpoint error_string (e : error) : string :=
  match e with
  | Errorf msg => msg
  | Wrap msg inner => msg +:+ ": " +:+ error_string inner
  | ToGRPC kind msg =>
      "rpc error: code = " +:+
      match kind with
      | ErrNotFound => "NotFound desc = " +:+ msg +:+ ": not found"
      | ErrNotImplemented => "Unimplemented desc = " +:+ msg +:+ ": not implemented"
      | ErrUnavailable => "Unavailable desc = " +:+ msg +:+ ": unavailable"
      end
  | CtxErr true => "context deadline exceeded"
  | CtxErr false => "context canceled"
  | External what => what
  end.

(** [v, _ := params[k].(string)] and [v, _ := params[k].(float64)] *)
Definition param_string (params : gmap string json) (k : string) : string :=
  match params !! k with
  | Some (JStr v) => v
  | _ => ""
  end.

Definition param_float64 (params : gmap string json) (k : string) : Q :=
  match params !! k with
  | Some (JNum f) => f
  | _ => inject_Z 0
  end.

(** [os.MkdirAll], [runc create] (its error and combined output when it
    fails) and the clock. *)
Record AgentCreateOracle := {
  aco_mkdir : option error;
  aco_runc : option (error * string);
  aco_now : time_Time }.

Definition Agent_createContainer (o : AgentCreateOracle) (params : gmap string json)
    (a : Agent) : option error * Agent :=
  let id := param_string params "id" in
  let bundle := param_string params "bundle" in
  if decide (id = "") then (Some (Errorf "container ID required"), a)
  else
    match agent_containers a !! id with
    | Some _ => (Some (Errorf ("container " +:+ id +:+ " already exists")), a)
    | None =>
        let containerDir := filepath_Join containerRoot id in
        let a := ag_emit (AgMkdirAll containerDir) a in
        match aco_mkdir o with
        | Some err => (Some (Wrap "failed to create container dir" err), a)
        | None =>
            let a := ag_emit (AgRunc ["create"; "--bundle"; bundle; "--pid-file";
                                      filepath_Join containerDir "pid"; id]) a in
            match aco_runc o with
            | Some (err, output) =>
                (Some (Errorf ("runc create failed: " +:+ error_string err +:+ ": "
                               +:+ output)), a)
            | None =>
                (None,
                 ag_set_containers
                   (<[id := {| ac_ID := id; ac_Bundle := bundle; ac_PID := 0;
                               ac_Status := "created"; ac_Created := aco_now o |}]>) a)
            end
        end
    end.

(** [runc start], reading the pid file, and what [fmt.Sscanf] makes of
    it. *)
Record AgentStartOracle := {
  aso_runc : option (error * string);
  aso_read : option error;
  aso_scan : res Z }.

Definition ac_started (pid : Z) (c : AgentContainer) : AgentContainer :=
  {| ac_ID := ac_ID c; ac_Bundle := ac_Bundle c; ac_PID := pid; ac_Status := "running";
     ac_Created := ac_Created c |}.

Definition Agent_startContainer (o : AgentStartOracle) (params : gmap string json)
    (a : Agent) : res Z * Agent :=
  let id := param_string params "id" in
  if decide (id = "") then (Error (Errorf "container ID required"), a)
  else
    match agent_containers a !! id with
    | None => (Error (Errorf ("container " +:+ id +:+ " not found")), a)
    | Some _ =>
        let a := ag_emit (AgRunc ["start"; id]) a in
        match aso_runc o with
        | Some (err, output) =>
            (Error (Errorf ("runc start failed: " +:+ error_string err +:+ ": " +:+ output)),
             a)
        | None =>
            let pidFile := filepath_Join (filepath_Join containerRoot id) "pid" in
            let a := ag_emit (AgReadFile pidFile) a in
            match aso_read o with
            | Some err => (Error (Wrap "failed to read pid file" err), a)
            | None =>
                match aso_scan o with
                | Error err => (Error (Wrap "failed to parse pid" err), a)
                | OK pid => (OK pid, ag_set_containers (alter (ac_started pid) id) a)
                end
            end
        end
    end.

(** The polling of [stopContainer].  The clock is monotonic and a sleep
    lasts at least as long as asked: between two reads of the clock in
    the loop the time advances by the 100 ms of the sleep and by
    [asto_extra] more.  [asto_state i] is the state that [runc state]
    reports in round [i]. *)
Record AgentStopOracle := {
  asto_now : time_Time;
  asto_first : N;
  asto_extra : nat → N;
  asto_state : nat → string }.

(** [time.Duration(timeout) * time.Second] for a float64 [timeout] (whose
    integer part fits an int64). *)
Definition timeout_duration (timeout : Q) : time_Duration :=
  wrap_int64 (int_of_float64 timeout * Second).

(** The loop [for time.Now().Before(deadline) { ... }], from round [i] at
    time [now].  [n] bounds the number of rounds; [stopContainer] passes
    one round for every 100 ms to the deadline and one more, by when the
    loop has ended by itself. *)
Fixpoint Agent_stop_wait (n : nat) (o : AgentStopOracle) (id : string)
    (deadline now : time_Time) (i : nat) (a : Agent) : Agent :=
  match n with
  | O => a
  | S n' =>
      if decide (now < deadline) then
        let a := ag_emit (AgRunc ["state"; id]) a in
        if decide (asto_state o i = "stopped") then a
        else
          let a := ag_emit (AgSleep (100 * Millisecond)) a in
          Agent_stop_wait n' o id deadline
            (now + 100 * Millisecond + Z.of_N (asto_extra o i)) (S i) a
      else a
  end.

Definition ac_stopped (c : AgentContainer) : AgentContainer :=
  {| ac_ID := ac_ID c; ac_Bundle := ac_Bundle c; ac_PID := ac_PID c; ac_Status := "stopped";
     ac_Created := ac_Created c |}.

Definition Agent_stopContainer (o : AgentStopOracle) (params : gmap string json)
    (a : Agent) : option error * Agent :=
  let id := param_string params "id" in
  let timeout := Agent_stopContainer_timeout params in
  if decide (id = "") then (Some (Errorf "container ID required"), a)
  else
    let a := ag_emit (AgRunc ["kill"; id; "SIGTERM"]) a in
    let deadline := asto_now o + timeout_duration timeout in
    let first := asto_now o + Z.of_N (asto_first o) in
    let rounds := S (Z.to_nat ((deadline - first) / (100 * Millisecond))) in
    let a := Agent_stop_wait rounds o id deadline first 0 a in
    let a := ag_emit (AgRunc ["kill"; id; "SIGKILL"]) a in
    (None, ag_set_containers (alter ac_stopped id) a).

Definition Agent_removeContainer (params : gmap string json) (a : Agent)
    : option error * Agent :=
  let id := param_string params "id" in
  if decide (id = "") then (Some (Errorf "container ID required"), a)
  else
    let a := ag_emit (AgRunc ["delete"; "--force"; id]) a in
    let a := ag_emit (AgRemoveAll (filepath_Join containerRoot id)) a in
    (None, ag_set_containers (delete id) a).

(** What [cmd.Output()] hands back: the standard output, and no error, an
    [*exec.ExitError] with its exit code and standard error, or another
    error. *)
Inductive exec_error :=
| ExitError (code : Z) (stderr : string)
| OtherError (err : error).

Record AgentExecOracle := {
  aeo_stdout : string;
  aeo_err : option exec_error }.

(** [args[i], _ = arg.(string)] *)
Definition exec_arg (arg : json) : string :=
  match arg with
  | JStr v => v
  | _ => ""
  end.

(** The result maps are written with their keys in order, as
    [encoding/json] does. *)
Definition Agent_execSync (o : AgentExecOracle) (params : gmap string json) (a : Agent)
    : res json * Agent :=
  let id := param_string params "id" in
  let cmdArgs := match params !! "cmd" with
                 | Some (JArr l) => l
                 | _ => []
                 end in
  let timeout := param_float64 params "timeout" in
  let timeout := if Qeq_bool timeout (inject_Z 0) then inject_Z 30 else timeout in
  if decide (id = "" ∨ length cmdArgs = 0%nat)
  then (Error (Errorf "container ID and command required"), a)
  else
    let execArgs := ["exec"; id] ++ (exec_arg <$> cmdArgs) in
    let a := ag_emit (AgRuncTimeout (timeout_duration timeout) execArgs) a in
    let result (exitCode : Z) (stderr : string) :=
      JObj [("exit_code", JInt exitCode); ("stderr", JStr stderr);
            ("stdout", JStr (aeo_stdout o))] in
    match aeo_err o with
    | None => (OK (result 0 ""), a)
    | Some (ExitError code stderr) => (OK (result code stderr), a)
    | Some (OtherError err) => (Error (Wrap "exec failed" err), a)
    end.

(** The two values [readCgroupValue] returns (0 when the file cannot be
    read or parsed). *)
Record AgentStatsOracle := {
  ago_cpu : Z;
  ago_mem : Z }.

Definition Agent_getStats (o : AgentStatsOracle) (params : gmap string json) (a : Agent)
    : res json * Agent :=
  let id := param_string params "id" in
  if decide (id = "") then (Error (Errorf "container ID required"), a)
  else
    let cgroupPath := "/sys/fs/cgroup/system.slice/runc-" +:+ id +:+ ".scope" in
    let a := ag_emit (AgReadFile (filepath_Join cgroupPath "cpu.stat")) a in
    let a := ag_emit (AgReadFile (filepath_Join cgroupPath "memory.current")) a in
    (OK (JObj [("cpu_usage", JInt (ago_cpu o)); ("memory_usage", JInt (ago_mem o));
               ("read_bytes", JInt 0); ("write_bytes", JInt 0)]), a).

Record HandlerOracle := {
  ho_create : AgentCreateOracle;
  ho_start : AgentStartOracle;
  ho_stop : AgentStopOracle;
  ho_exec : AgentExecOracle;
  ho_stats : AgentStatsOracle }.

Definition resp_ok (id : Z) (result : json) : Response :=
  {| RespID := id; Result := Some result; RespError := None |}.

Definition resp_err (id : Z) (code : Z) (message : string) : Response :=
  {| RespID := id; Result := None;
     RespError := Some {| Code := code; Message := message |} |}.

Definition resp_status (id : Z) (status : string) (r : option error * Agent)
    : Response * Agent :=
  match r.1 with
  | Some err => (resp_err id 1 (error_string err), r.2)
  | None => (resp_ok id (JObj [("status", JStr status)]), r.2)
  end.

Definition resp_result {A} (id : Z) (result : A → json) (r : res A * Agent)
    : Response * Agent :=
  match r.1 with
  | Error err => (resp_err id 1 (error_string err), r.2)
  | OK v => (resp_ok id (result v), r.2)
  end.

Definition Agent_handleRequest (o : HandlerOracle) (req : Request) (a : Agent)
    : Response * Agent :=
  let id := ReqID req in
  let m := Method req in
  if decide (m = "ping") then (resp_ok id (JObj [("status", JStr "ok")]), a)
  else if decide (m = "create_container")
  then resp_status id "created" (Agent_createContainer (ho_create o) (Params req) a)
  else if decide (m = "start_container")
  then resp_result id (λ pid, JObj [("pid", JInt pid)])
         (Agent_startContainer (ho_start o) (Params req) a)
  else if decide (m = "stop_container")
  then resp_status id "stopped" (Agent_stopContainer (ho_stop o) (Params req) a)
  else if decide (m = "remove_container")
  then resp_status id "removed" (Agent_removeContainer (Params req) a)
  else if decide (m = "exec_sync")
  then resp_result id (λ v, v) (Agent_execSync (ho_exec o) (Params req) a)
  else if decide (m = "get_stats")
  then resp_result id (λ v, v) (Agent_getStats (ho_stats o) (Params req) a)
  else (resp_err id (-32601) "Method not found", a).

(** The request that [json.Decoder] makes of what the client wrote: a
    request without params has a nil map, which reads as an empty one. *)
Definition decode_request (f : frame) : Request :=
  {| ReqID := frame_id f; Method := frame_method f;
     Params := default ∅ (frame_params f) |}.

(** One round of [handleConnection]: a request is read and answered. *)
Definition Agent_serve_one (o : HandlerOracle) (f : frame) (a : Agent) : Response * Agent :=
  Agent_handleRequest o (decode_request f) a.

(** * Vocabulary of the statements *)

(** ** Runs *)

(** The events of one [StopVM] on machine [m]. *)
Definition stop_events (o : StopOracle) (m : Machine) : list Event :=
  [EvShutdown m] ++
  (if so_shutdown o is Some _
   then [EvWarn "Graceful shutdown failed, forcing stop"; EvStopVMM m] else []) ++
  [EvWait m (10 * Second)] ++
  (if so_wait o is Some _ then [EvWarn "Wait for VM exit failed"] else []).

(** [preserves R m]: every run of [m] takes a state to an [R]-related
    one.  For a preorder [R] this follows the structure of [m]. *)
Definition preserves {A} (R : relation St) (m : M A) : Prop := ∀ s, R s (m s).2.

(** ** Manager *)

(** The events of one [DestroyVM] of sandbox [sb]. *)
Definition destroy_events (cfg : ManagerConfig) (o : DestroyOracle) (sb : Sandbox) : list Event :=
  (if decide (State sb = SandboxReady) then
     match VM sb with
     | Some m => stop_events (do_stop o) m
     | None => [EvWarn "Error stopping VM during destroy"]
     end
   else []) ++
  (match AgentConn sb with Some c => [EvConnClose c] | None => [] end) ++
  [EvRemoveAll (filepath_Join (RuntimeDir cfg) (ID sb))] ++
  (if do_remove o is Some _ then [EvWarn "Failed to clean up sandbox directory"] else []).

(** What [DestroyVM] leaves of the sandbox object: stopped, if it was
    ready and had a VM. *)
Definition destroyed_sandbox (o : DestroyOracle) (sb : Sandbox) : Sandbox :=
  if decide (State sb = SandboxReady) then
    match VM sb with
    | Some _ => set_FinishedAt (so_finished (do_stop o)) (set_State SandboxStopped sb)
    | None => sb
    end
  else sb.

(** ** Pool *)

(** The state a pool hit on [l] leaves. *)
Definition hit_state (l : loc) (rest : list loc) (config : VMConfig) (sb : Sandbox) (s : St) : St :=
  set_heap (<[l := set_VMConfig config (set_FromPool true sb)]>)
    (set_pool (set_inUse (<[ID sb := l]>))
       (set_pool (set_stats add_poolHits)
          (set_pool (set_available (set_buf (λ _, rest)))
             (set_pool (set_stats add_totalServed) s)))).

(** The state of a miss before the fresh VM is created. *)
Definition miss_state (s : St) : St :=
  set_pool (set_stats add_poolMisses) (set_pool (set_stats add_totalServed) s).

Definition with_destroy_reset (d : DestroyOracle) (o : ReleaseOracle) : ReleaseOracle :=
  {| rel_now := rel_now o; rel_pooled := rel_pooled o;
     rel_destroy_full := rel_destroy_full o; rel_destroy_reset := d;
     rel_destroy_race := rel_destroy_race o |}.

(** The warning of the reset-failure branch of [Release]. *)
Definition reset_warning : Event := EvWarn "Failed to reset VM, destroying".

(** ** Counters *)

(** The statistics are the same in both states. *)
Definition same_stats : relation St := λ s s', stats (pool s') = stats (pool s).

(** After [n] calls the counters of a fresh pool: [totalServed] is [n]
    (wrapped) and [poolHits + poolMisses], added as int64, is the same. *)
Definition counted (n : Z) (st : poolStats) : Prop :=
  totalServed st = wrap_int64 n
  ∧ wrap_int64 (poolHits st + poolMisses st) = wrap_int64 n.

(** The invariant of the interleaving: [totalServed] counts the calls that
    have started, [poolHits + poolMisses] the calls that have finished
    their counting. *)
Definition conf_inv (c : Conf) : Prop :=
  totalServed (stats (conf_pool c)) = wrap_int64 (started (conf_threads c))
  ∧ wrap_int64 (poolHits (stats (conf_pool c)) + poolMisses (stats (conf_pool c)))
    = wrap_int64 (finished (conf_threads c)).

(** ** Creating and restoring VMs *)

(** The configuration [CreateVM] starts the machine with: the caller's,
    with the manager's kernel defaults filled in. *)
Definition effective_config (cfg : ManagerConfig) (config : VMConfig) : VMConfig :=
  let config :=
    if decide (KernelPath config = "") then with_KernelPath config (DefaultKernelPath cfg)
    else config in
  if decide (KernelArgs config = "") then with_KernelArgs config (DefaultKernelArgs cfg)
  else config.

Definition sandbox_dir (cfg : ManagerConfig) (id : string) : string :=
  filepath_Join (RuntimeDir cfg) id.

(** What [CreateVM] hands to [firecracker.NewMachine]. *)
Definition create_fcConfig (cfg : ManagerConfig) (id : string) (cid : Z) (config : VMConfig)
    : fcConfig :=
  let config := effective_config cfg config in
  {| SocketPath := filepath_Join (sandbox_dir cfg id) "firecracker.sock";
     KernelImagePath := KernelPath config;
     fcKernelArgs := KernelArgs config; fcVcpuCount := VcpuCount config;
     MemSizeMib := MemoryMB config; Smt := SMTEnabled config;
     VsockDevicePath := filepath_Join (sandbox_dir cfg id) "vsock.sock";
     VsockDeviceCID := wrap_uint32 cid;
     Drives :=
       if decide (PathOnHost (RootDrive config) = "") then []
       else [ {| fcDriveID := DriveID (RootDrive config);
                 fcPathOnHost := PathOnHost (RootDrive config);
                 fcIsRootDevice := IsRoot (RootDrive config);
                 fcIsReadOnly := IsReadOnly (RootDrive config) |} ];
     FcSnapshot := None |}.

(** The sandbox a successful [CreateVM] leaves in the store. *)
Definition created_sandbox (mgr : Manager) (o : CreateOracle) (config : VMConfig)
    (machine : Machine) : Sandbox :=
  let id := generateID (co_nano o) in
  set_StartedAt (co_started o)
    (set_State SandboxReady
       (set_PID (co_pid o)
          (set_VMConfig (effective_config (mgr_config mgr) config)
             (set_VM (Some machine)
                (set_VsockPath (filepath_Join (sandbox_dir (mgr_config mgr) id) "vsock.sock")
                   (set_VsockCID (cidCounter mgr) (NewSandbox id (co_created o)))))))).

Definition create_events (mgr : Manager) (o : CreateOracle) (config : VMConfig)
    (machine : Machine) : list Event :=
  let id := generateID (co_nano o) in
  [EvMkdirAll (sandbox_dir (mgr_config mgr) id);
   EvNewMachine (create_fcConfig (mgr_config mgr) id (cidCounter mgr) config);
   EvMachineStart machine].

(** The state after a successful [CreateVM]. *)
Definition created_state (o : CreateOracle) (config : VMConfig) (machine : Machine) (s : St) : St :=
  let l := fresh (dom (heap s)) in
  set_manager (set_sandboxes (<[generateID (co_nano o) := l]>))
    (set_heap (<[l := created_sandbox (manager s) o config machine]>)
       (set_trace (λ t, t ++ create_events (manager s) o config machine)
          (set_manager (set_cidCounter (wrap_uint32 (cidCounter (manager s) + 1))) s))).

Definition restore_fcConfig (cfg : ManagerConfig) (scfg : SnapshotConfig) (id : string)
    (cid : Z) (snap : Snapshot) : fcConfig :=
  {| SocketPath := filepath_Join (sandbox_dir cfg id) "firecracker.sock";
     KernelImagePath := KernelPath (SnapVMConfig snap);
     fcKernelArgs := ""; fcVcpuCount := VcpuCount (SnapVMConfig snap);
     MemSizeMib := MemoryMB (SnapVMConfig snap); Smt := SMTEnabled (SnapVMConfig snap);
     VsockDevicePath := filepath_Join (sandbox_dir cfg id) "vsock.sock";
     VsockDeviceCID := wrap_uint32 cid; Drives := [];
     FcSnapshot :=
       Some {| MemFilePath := MemoryPath snap; SnapshotPath := StatePath snap;
               ResumeVM := true;
               EnableDiffSnapshots := bool_decide (SnapshotType scfg = "Diff") |} |}.

Definition restored_id (o : CreateOracle) : string := "fc-snap-" +:+ fmt_d (co_nano o).

(** The sandbox a successful restore leaves in the store. *)
Definition restored_sandbox (mgr : Manager) (o : CreateOracle) (snap : Snapshot)
    (machine : Machine) : Sandbox :=
  set_FromPool true
    (set_StartedAt (co_started o)
       (set_State SandboxReady
          (set_PID (co_pid o)
             (set_VsockCID (cidCounter mgr)
                (set_VsockPath
                   (filepath_Join (sandbox_dir (mgr_config mgr) (restored_id o)) "vsock.sock")
                   (set_VMConfig (SnapVMConfig snap)
                      (set_VM (Some machine)
                         (NewSandbox (restored_id o) (co_created o))))))))).

Definition restore_events (mgr : Manager) (scfg : SnapshotConfig) (o : CreateOracle)
    (snap : Snapshot) (machine : Machine) : list Event :=
  [EvMkdirAll (sandbox_dir (mgr_config mgr) (restored_id o));
   EvNewMachine (restore_fcConfig (mgr_config mgr) scfg (restored_id o) (cidCounter mgr) snap);
   EvMachineStart machine].

Definition restored_state (scfg : SnapshotConfig) (o : CreateOracle) (snap : Snapshot)
    (machine : Machine) (s : St) : St :=
  let l := fresh (dom (heap s)) in
  set_manager (set_sandboxes (<[restored_id o := l]>))
    (set_heap (<[l := restored_sandbox (manager s) o snap machine]>)
       (set_trace (λ t, t ++ restore_events (manager s) scfg o snap machine)
          (set_manager (set_cidCounter (wrap_uint32 (cidCounter (manager s) + 1))) s))).

(** [CreateVM] fails when the directory cannot be made, the machine cannot
    be built or the machine does not start. *)
Definition create_fails (o : CreateOracle) : Prop :=
  match co_mkdir o, co_machine o, co_start o with
  | None, OK _, None => False
  | _, _, _ => True
  end.

(** A run that only adds to the store and the trace and advances the CID
    counter. *)
Definition grows : relation St := λ s s',
  dom (heap s) ⊆ dom (heap s') ∧ pool s' = pool s ∧ snapshotMgr s' = snapshotMgr s
  ∧ sandboxes (manager s') = sandboxes (manager s)
  ∧ mgr_config (manager s') = mgr_config (manager s).

(** Every pointer of the in-use map is a sandbox of the store. *)
Definition inUse_live (s : St) : Prop :=
  ∀ id l, inUse (pool s) !! id = Some l → l ∈ dom (heap s).

(** The ready queue holds each sandbox once, and only sandboxes of the
    store. *)
Definition ready_wf (s : St) : Prop :=
  NoDup (buf (available (pool s))) ∧ ∀ l, l ∈ buf (available (pool s)) → l ∈ dom (heap s).

(** ** Snapshot cleanup *)

(** The state [Cleanup] leaves: over the limit, the snapshot stored under
    the name of the oldest non-golden one is gone. *)
Definition cleaned_snapshots (order : list (string * Snapshot) → list (string * Snapshot))
    (sm : SnapshotManager) : gmap string Snapshot :=
  if decide (Z.of_nat (size (snapshots sm)) <= MaxCached (sm_config sm)) then snapshots sm
  else match find_oldest (order (map_to_list (snapshots sm))) with
       | Some oldest => delete (SnapName oldest) (snapshots sm)
       | None => snapshots sm
       end.

(** ** Agent client *)

(** The events, the result and the state of one [call] on connection [cn]
    that gets request id [id]. *)
Definition call_events (cn : Conn) (o : CallOracle) (req : Request) (id : Z) : list Event :=
  EvEncode cn (encode_request {| ReqID := id; Method := Method req; Params := Params req |})
  :: (if call_encode o is None then [EvDecode cn] else []).

Definition call_result (o : CallOracle) (id : Z) : res Response :=
  match call_encode o with
  | Some err => Error (Wrap "failed to send request" err)
  | None =>
      match call_decode o with
      | Error err => Error (Wrap "failed to read response" err)
      | OK resp =>
          if decide (RespID resp ≠ id)
          then Error (Errorf ("response ID mismatch: expected " +:+
                              fmt_d id +:+ ", got " +:+ fmt_d (RespID resp)))
          else OK resp
      end
  end.

Definition called_state (cn : Conn) (o : CallOracle) (req : Request) (id : Z) (s : St) : St :=
  set_trace (λ t, t ++ call_events cn o req id)
    (set_agentClient (λ _, Some {| conn := Some cn; requestID := id |}) s).

(** The request [StopContainer] builds for container [c] and timeout [t]. *)
Definition stop_container_params (c : string) (t : time_Duration) : gmap string json :=
  <["id" := JStr c]> (<["timeout" := JInt (Duration_Seconds_int t)]> ∅).

Definition stop_container_frame (id : Z) (c : string) (t : time_Duration) : frame :=
  {| frame_id := id; frame_method := "stop_container";
     frame_params := Some (stop_container_params c t) |}.




(** The request id after [n] calls. *)
Fixpoint id_after (rid : Z) (n : nat) : Z :=
  match n with
  | O => rid
  | S n' => id_after (wrap_uint64 (rid + 1)) n'
  end.

Definition is_ping (e : Event) : bool :=
  match e with
  | EvEncode _ f => bool_decide (frame_method f = "ping")
  | _ => false
  end.

Definition pings (t : list Event) : nat := length (filter (λ e, is_ping e = true) t).

(** The dial succeeds, directly or through the unix socket. *)
Definition dials (o : ConnectOracle) (cn : Conn) : Prop :=
  conn_vsock o = OK cn ∨ ((∃ e, conn_vsock o = Error e) ∧ conn_unix o = OK cn).

Definition dial_events (o : ConnectOracle) (vsockPath : string) (cid port : Z) : list Event :=
  EvVsockDial cid port
  :: (if conn_vsock o is Error _ then [EvUnixDial vsockPath (30 * Second)] else []).



(** The VM configuration [Create] asks the pool for. *)
Definition task_vmConfig (r : CreateTaskRequest) : VMConfig :=
  match ctr_Rootfs r with
  | source :: _ =>
      with_RootDrive DefaultVMConfig
        {| DriveID := "rootfs"; PathOnHost := source; IsReadOnly := false;
           IsRoot := true; CacheType := "" |}
  | [] => DefaultVMConfig
  end.


(** ** Sample states and oracles *)

Definition sample_service : Service :=
  {| svc_id := "shim"; svc_namespace := "k8s.io"; svc_bundle := "";
     svc_sandbox := None; processes := ∅ |}.

Definition sample_state : St :=
  {| heap := ∅; manager := NewManager DefaultManagerConfig;
     pool := NewPool DefaultPoolConfig; snapshotMgr := None; agentClient := None;
     service := sample_service; trace := [] |}.

Definition create_ok (nano : Z) (m : Machine) : CreateOracle :=
  {| co_nano := nano; co_created := nano; co_mkdir := None; co_machine := OK m;
     co_start := None; co_pid := 4242; co_started := nano + 5 |}.

Definition stop_ok (now : time_Time) : StopOracle :=
  {| so_shutdown := None; so_wait := None; so_finished := now |}.

Definition destroy_ok (now : time_Time) : DestroyOracle :=
  {| do_stop := stop_ok now; do_remove := None |}.

(** A manager with one running VM, created at time 100. *)
Definition one_vm_state : St :=
  (Manager_CreateVM (create_ok 100 7%positive) DefaultVMConfig sample_state).2.


Definition golden_config : SnapshotConfig :=
  {| Enabled := true; CacheDir := "/var/lib/fc-cri/snapshots"; MaxCached := 10;
     GoldenSnapshotName := "golden-base"; GoldenVMConfig := DefaultVMConfig;
     SnapshotType := "Full"; MemoryBackend := "File"; CompressMemory := false |}.

Definition sample_snapshot (name : string) (created : time_Time) (golden : bool) : Snapshot :=
  {| SnapName := name;
     MemoryPath := "/var/lib/fc-cri/snapshots/" +:+ name +:+ "/memory";
     StatePath := "/var/lib/fc-cri/snapshots/" +:+ name +:+ "/state";
     SnapVMConfig := DefaultVMConfig; Version := "1.0"; SnapCreatedAt := created;
     SizeBytes := 4096; Metadata := ∅; IsGolden := golden |}.

Definition golden_snapshot : Snapshot := sample_snapshot "golden-base" 50 true.

(** A snapshot manager that holds a golden snapshot. *)
Definition golden_manager : SnapshotManager :=
  {| sm_config := golden_config;
     snapshots := {[ "golden-base" := golden_snapshot ]};
     goldenSnapshot := Some golden_snapshot |}.

(** An empty pool next to a snapshot manager with a golden snapshot. *)
Definition golden_state : St :=
  {| heap := ∅; manager := NewManager DefaultManagerConfig;
     pool := NewPool DefaultPoolConfig; snapshotMgr := Some golden_manager;
     agentClient := None; service := sample_service; trace := [] |}.

Definition create_broken (nano : Z) : CreateOracle :=
  {| co_nano := nano; co_created := nano; co_mkdir := None; co_machine := OK 7%positive;
     co_start := Some (External "firecracker did not start"); co_pid := 0;
     co_started := nano |}.

Definition acquire_ok (nano : Z) : AcquireOracle :=
  {| ao_destroy := destroy_ok nano; ao_create := create_ok nano 7%positive |}.

(** The fresh create works: the miss of C1. *)
Definition snap_acquire_ok : SnapAcquireOracle :=
  {| sao_pool := acquire_ok 100; sao_restore := create_ok 101 8%positive;
     sao_fresh := create_ok 102 9%positive |}.

Definition snap_acquire_later : SnapAcquireOracle :=
  {| sao_pool := acquire_ok 400; sao_restore := create_ok 401 8%positive;
     sao_fresh := create_ok 402 9%positive |}.

(** The fresh create fails and the restore works: the miss of C2. *)
Definition snap_acquire_restore : SnapAcquireOracle :=
  {| sao_pool := {| ao_destroy := destroy_ok 100; ao_create := create_broken 100 |};
     sao_restore := create_ok 101 8%positive;
     sao_fresh := create_ok 102 9%positive |}.

Definition release_ok (now : time_Time) : ReleaseOracle :=
  {| rel_now := now; rel_pooled := now; rel_destroy_full := destroy_ok now;
     rel_destroy_reset := destroy_ok now; rel_destroy_race := destroy_ok now |}.

(** Three snapshots, none golden, in a store limited to one. *)
Definition crowded_manager : SnapshotManager :=
  {| sm_config :=
       {| Enabled := true; CacheDir := "/var/lib/fc-cri/snapshots"; MaxCached := 1;
          GoldenSnapshotName := "golden-base"; GoldenVMConfig := DefaultVMConfig;
          SnapshotType := "Full"; MemoryBackend := "File"; CompressMemory := false |};
     snapshots :=
       <["a" := sample_snapshot "a" 1 false]>
         (<["b" := sample_snapshot "b" 2 false]>
            (<["c" := sample_snapshot "c" 3 false]> ∅));
     goldenSnapshot := None |}.

Definition crowded_state : St :=
  {| heap := ∅; manager := NewManager DefaultManagerConfig;
     pool := NewPool DefaultPoolConfig; snapshotMgr := Some crowded_manager;
     agentClient := None; service := sample_service; trace := [] |}.

(** A connection on which nothing is ever read. *)
Definition call_unanswered : CallOracle :=
  {| call_encode := None; call_decode := Error (External "i/o timeout") |}.

Definition wait_unanswered : WaitOracle :=
  {| wait_ctx := λ _, None; wait_call := λ _, call_unanswered |}.

Definition connect_unanswered : ConnectOracle :=
  {| conn_vsock := OK 9%positive; conn_unix := Error (External "unused");
     conn_wait := wait_unanswered |}.

Definition service_create_unanswered : ServiceCreateOracle :=
  {| sc_acquire := acquire_ok 100; sc_connect := connect_unanswered;
     sc_container := call_unanswered |}.

Definition sample_task : CreateTaskRequest :=
  {| ctr_ID := "task-1"; ctr_Bundle := "/run/containerd/task-1";
     ctr_Rootfs := ["/img/a.ext4"]; ctr_Stdin := ""; ctr_Stdout := ""; ctr_Stderr := "";
     ctr_Terminal := false |}.

(** A service with a connected agent client and the init process of
    "task-1" created. *)
Definition sample_proc : processState :=
  {| proc_id := "task-1"; containerID := "task-1"; proc_pid := 0; exitStatus := 0;
     exitedAt := 0; proc_stdin := ""; proc_stdout := ""; proc_stderr := "";
     proc_terminal := false |}.

Definition connected_client : Client := {| conn := Some 9%positive; requestID := 1 |}.

Definition connected_state : St :=
  {| heap := ∅; manager := NewManager DefaultManagerConfig;
     pool := NewPool DefaultPoolConfig; snapshotMgr := None;
     agentClient := Some connected_client;
     service := set_processes (<["task-1" := sample_proc]>) sample_service;
     trace := [] |}.

(** The agent answers request 2 with [{"status": "started"}]: no pid. *)
Definition answer_without_pid : CallOracle :=
  {| call_encode := None;
     call_decode :=
       OK {| RespID := 2; Result := Some (JObj [("status", JStr "started")]);
             RespError := None |} |}.

Definition answer_ok : CallOracle :=
  {| call_encode := None;
     call_decode :=
       OK {| RespID := 2; Result := Some (JObj [("status", JStr "stopped")]);
             RespError := None |} |}.

Definition start_task : TaskRequest := {| tr_ID := "task-1"; tr_ExecID := "" |}.

(** The state in which [Create] of [sample_task] connects to the agent,
    and the sandbox it has acquired. *)
Definition acquired_state : St :=
  (Pool_Acquire (acquire_ok 100) (task_vmConfig sample_task) sample_state).2.

Definition acquired_sandbox : Sandbox :=
  default (NewSandbox "" 0) (heap acquired_state !! 1%positive).


(** ** Pool: release, close and idle cleanup *)

(** What a destroy keeps of a sandbox object: its id, its machine and its
    pooled-at time; and a sandbox that is not ready does not become ready. *)
Definition same_identity (sb sb' : Sandbox) : Prop :=
  ID sb' = ID sb ∧ VM sb' = VM sb ∧ PooledAt sb' = PooledAt sb
  ∧ (State sb ≠ SandboxReady → State sb' ≠ SandboxReady).

(** A run that only destroys: it leaves the pool and the snapshot manager
    alone, keeps every sandbox of the store with its identity, and only
    removes entries from the manager's index. *)
Definition destroys_only : relation St := λ s s',
  pool s' = pool s ∧ snapshotMgr s' = snapshotMgr s
  ∧ mgr_config (manager s') = mgr_config (manager s)
  ∧ (∀ l sb, heap s !! l = Some sb → ∃ sb', heap s' !! l = Some sb' ∧ same_identity sb sb')
  ∧ dom (sandboxes (manager s')) ⊆ dom (sandboxes (manager s)).

(** The sandbox [Release] puts back into the queue. *)
Definition pooled_sandbox (o : ReleaseOracle) (sb : Sandbox) : Sandbox :=
  set_PooledAt (rel_pooled o) (set_Containers ∅ sb).

(** [Release] destroys the sandbox instead of queueing it. *)
Definition release_destroys (o : ReleaseOracle) (sb : Sandbox) (s : St) : Prop :=
  Z.of_nat (length (buf (available (pool s)))) >= MaxSize (pool_config (pool s))
  ∨ rel_now o - CreatedAt sb > MaxIdleTime (pool_config (pool s)).

(** The pool was made by [NewPool]: the queue has the capacity [MaxSize]. *)
Definition pool_sized (s : St) : Prop :=
  cap (available (pool s)) = MaxSize (pool_config (pool s)).

(** Every sandbox of the queue and of the in-use map is in the store. *)
Definition pool_live (s : St) : Prop :=
  (∀ l, l ∈ buf (available (pool s)) → l ∈ dom (heap s)) ∧ inUse_live s.

(** The [i]-th sandbox that [cleanupIdle] takes from the queue has been
    idle for too long. *)
Definition idle_expired (o : CleanupIdleOracle) (s : St) (i : nat) (l : loc) : Prop :=
  match heap s !! l with
  | Some sb => ci_now o i - PooledAt sb > MaxIdleTime (pool_config (pool s))
  | None => False
  end.

#[global] Instance idle_expired_dec o s i l : Decision (idle_expired o s i l).
Proof. unfold idle_expired. destruct (heap s !! l); apply _. Defined.

(** The sandboxes of the queue [q] that [cleanupIdle] keeps, the first of
    them being the [i]-th it looks at. *)
Fixpoint idle_kept (o : CleanupIdleOracle) (s : St) (i : nat) (q : list loc) : list loc :=
  match q with
  | [] => []
  | l :: rest =>
      if decide (idle_expired o s i l) then idle_kept o s (S i) rest
      else l :: idle_kept o s (S i) rest
  end.

(** Sandbox [sb], which was at [l], has been destroyed: the manager's
    index has no entry for its id, and if it had a machine it is not ready
    any more. *)
Definition destroyed_from (sb : Sandbox) (l : loc) (s' : St) : Prop :=
  sandboxes (manager s') !! ID sb = None
  ∧ ∃ sb', heap s' !! l = Some sb' ∧ ID sb' = ID sb
           ∧ (is_Some (VM sb) → State sb' ≠ SandboxReady).

(** The sandboxes a pool holds: those of the ready queue and those of the
    in-use map. *)
Definition pool_holds (s : St) (l : loc) : Prop :=
  l ∈ buf (available (pool s)) ∨ ∃ id, inUse (pool s) !! id = Some l.

(** ** Manager: the index, the CIDs and the ids *)

(** The events of a [CreateVM] that fails. *)
Definition create_fail_events (mgr : Manager) (o : CreateOracle) (config : VMConfig)
    : list Event :=
  let id := generateID (co_nano o) in
  EvMkdirAll (sandbox_dir (mgr_config mgr) id)
  :: match co_mkdir o with
     | Some _ => []
     | None =>
         EvNewMachine (create_fcConfig (mgr_config mgr) id (cidCounter mgr) config)
         :: match co_machine o with
            | OK machine => [EvMachineStart machine]
            | Error _ => []
            end
     end.

(** The error of a [CreateVM] that fails, if it does. *)
Definition create_error (o : CreateOracle) : option error :=
  match co_mkdir o, co_machine o, co_start o with
  | Some err, _, _ => Some (Wrap "failed to create sandbox dir" err)
  | None, Error err, _ => Some (Wrap "failed to create machine" err)
  | None, OK _, Some err => Some (Wrap "failed to start machine" err)
  | None, OK _, None => None
  end.

(** [CreateVM] works: the directory is made, the machine is built and
    starts. *)
Definition create_works (o : CreateOracle) (machine : Machine) : Prop :=
  co_mkdir o = None ∧ co_machine o = OK machine ∧ co_start o = None.

(** Calls of [CreateVM] one after the other, each with its own oracle. *)
Definition create_all (os : list CreateOracle) (config : VMConfig) (s : St) : St :=
  foldl (λ s o, (Manager_CreateVM o config s).2) s os.

(** An event that undoes something: a removal of a directory, a shutdown
    or a stop of a machine. *)
Definition is_teardown (e : Event) : bool :=
  match e with
  | EvRemoveAll _ | EvShutdown _ | EvStopVMM _ => true
  | _ => false
  end.

(** ** Snapshots: what is deleted and what is kept *)

(** Every snapshot is stored under its own name, as [CreateSnapshot] and
    [loadSnapshots] store them. *)
Definition names_wf (sm : SnapshotManager) : Prop :=
  ∀ k snap, snapshots sm !! k = Some snap → SnapName snap = k.

(** Calls that delete snapshots, one after the other. *)
Inductive SnapOp :=
| OpDeleteSnapshot (remove : option error) (name : string)
| OpCleanup (order : list (string * Snapshot) → list (string * Snapshot)).

Definition run_snap_op (op : SnapOp) (s : St) : St :=
  match op with
  | OpDeleteSnapshot remove name => (SnapshotManager_DeleteSnapshot remove name s).2
  | OpCleanup order => (SnapshotManager_Cleanup order s).2
  end.

Definition run_snap_ops (ops : list SnapOp) (s : St) : St :=
  foldl (λ s op, run_snap_op op s) s ops.

(** The order in which a map is walked is a permutation of its entries. *)
Definition walks_all {A} (order : list A → list A) : Prop := ∀ es, order es ≡ₚ es.

Definition snap_op_ok (op : SnapOp) : Prop :=
  match op with
  | OpDeleteSnapshot _ _ => True
  | OpCleanup order => walks_all order
  end.

(** From [sm] to [sm'] snapshots were only deleted, and no golden one. *)
Definition keeps_golden (sm sm' : SnapshotManager) : Prop :=
  sm_config sm' = sm_config sm ∧ goldenSnapshot sm' = goldenSnapshot sm
  ∧ snapshots sm' ⊆ snapshots sm
  ∧ ∀ k snap, snapshots sm !! k = Some snap → IsGolden snap = true →
      snapshots sm' !! k = Some snap.

(** The sum of the sizes of a list of snapshots. *)
Definition total_size (snaps : list Snapshot) : Z := foldr Z.add 0 (SizeBytes <$> snaps).

(** ** Agent client: request ids and the readiness probe *)

(** Calls on the client, one after the other. *)
Definition call_all (calls : list (CallOracle * Request)) (s : St) : St :=
  foldl (λ s c, (Client_call c.1 c.2 s).2) s calls.

(** The ids of the requests written to a connection, in order. *)
Definition sent_ids (t : list Event) : list Z :=
  omap (λ e, match e with EvEncode _ f => Some (frame_id f) | _ => None end) t.

(** The ids [rid + 1, ..., rid + n], as uint64. *)
Definition ids_from (rid : Z) (n : nat) : list Z :=
  (λ i, wrap_uint64 (rid + Z.of_nat i)) <$> seq 1 n.

(** A probe of [waitForReady] is answered: the ping is written, and the
    response read has the id of the request and no error. *)
Definition probe_answered (o : CallOracle) (id : Z) : Prop :=
  call_encode o = None
  ∧ ∃ resp, call_decode o = OK resp ∧ RespID resp = id ∧ RespError resp = None.

#[global] Instance probe_answered_dec o id : Decision (probe_answered o id).
Proof.
  unfold probe_answered. destruct (call_encode o) as [e|]; [right; by intros [? _]|].
  destruct (call_decode o) as [resp|e].
  - destruct (decide (RespID resp = id)) as [Hid|Hid].
    + destruct (RespError resp) as [re|] eqn:He.
      * right. intros (_ & resp' & Hr & _ & He'). congruence.
      * left. split; [done|]. by exists resp.
    + right. intros (_ & resp' & Hr & Hid' & _). congruence.
  - right. intros (_ & resp' & Hr & _). discriminate.
Defined.

(** The first [k] rounds of [waitForReady] go on: the context is not done
    and the probe is not answered.  The request id before round [i] is
    [rid + i]. *)
Definition probes_go_on (w : WaitOracle) (rid : Z) (k : nat) : Prop :=
  ∀ i, (i < k)%nat →
    wait_ctx w i = None
    ∧ ¬ probe_answered (wait_call w i) (wrap_uint64 (id_after rid i + 1)).

(** The events of the rounds [i, ..., i + n - 1] that go on: a ping, a
    read unless the write failed, a sleep of 100 ms. *)
Fixpoint waiting_events (cn : Conn) (w : WaitOracle) (rid : Z) (i n : nat) : list Event :=
  match n with
  | O => []
  | S n' =>
      let id := wrap_uint64 (rid + 1) in
      call_events cn (wait_call w i) ping id ++ [EvSleep (100 * Millisecond)]
      ++ waiting_events cn w id (S i) n'
  end.

Definition is_sleep (e : Event) : bool :=
  match e with
  | EvSleep _ => true
  | _ => false
  end.

Definition sleeps (t : list Event) : nat := length (filter (λ e, is_sleep e = true) t).

Definition is_conn_close (e : Event) : bool :=
  match e with
  | EvConnClose _ => true
  | _ => false
  end.

(** ** Shim service: the processes *)

(** No process of the service has an exit recorded. *)
Definition no_exit_recorded (s : St) : Prop :=
  ∀ id proc, processes (service s) !! id = Some proc →
    exitedAt proc = 0 ∧ exitStatus proc = 0.

(** Calls of the task service, one after the other. *)
Inductive ServiceOp :=
| OpCreate (o : ServiceCreateOracle) (r : CreateTaskRequest)
| OpStart (o : CallOracle) (r : TaskRequest)
| OpKill (o : CallOracle) (r : TaskRequest)
| OpDelete (o : DeleteOracle) (r : TaskRequest)
| OpState (r : TaskRequest)
| OpWait (ctx_err : error) (r : TaskRequest)
| OpServiceCleanup (o : DestroyOracle).

Definition run_service_op (op : ServiceOp) (s : St) : St :=
  match op with
  | OpCreate o r => (Service_Create o r s).2
  | OpStart o r => (Service_Start o r s).2
  | OpKill o r => (Service_Kill o r s).2
  | OpDelete o r => (Service_Delete o r s).2
  | OpState r => (Service_State r s).2
  | OpWait ctx_err r => (Service_Wait ctx_err r s).2
  | OpServiceCleanup o => (Service_Cleanup o s).2
  end.

Definition run_service_ops (ops : list ServiceOp) (s : St) : St :=
  foldl (λ s op, run_service_op op s) s ops.

(** A run that leaves the service alone. *)
Definition same_service : relation St := λ s s', service s' = service s.

(** A run that records no exit if none was recorded. *)
Definition keeps_no_exit : relation St := λ s s', no_exit_recorded s → no_exit_recorded s'.

(** ** Guest agent *)

Definition create_params (id bundle : string) : gmap string json :=
  <["id" := JStr id]> (<["bundle" := JStr bundle]> ∅).

Definition agent_create_works (o : AgentCreateOracle) : Prop :=
  aco_mkdir o = None ∧ aco_runc o = None.

(** A poll of [stopContainer]: [runc state]. *)
Definition is_poll (e : AgentEvent) : bool :=
  match e with
  | AgRunc ("state" :: _) => true
  | _ => false
  end.

Definition polls (t : list AgentEvent) : nat := length (filter (λ e, is_poll e = true) t).

(** What the loop of [stopContainer] does: polls and sleeps of 100 ms. *)
Definition is_waiting (id : string) (e : AgentEvent) : Prop :=
  e = AgRunc ["state"; id] ∨ e = AgSleep (100 * Millisecond).

(** The methods that [handleRequest] knows. *)
Definition known_methods : list string :=
  ["ping"; "create_container"; "start_container"; "stop_container"; "remove_container";
   "exec_sync"; "get_stats"].

(** The connection of a client to an agent, for one call: the request is
    written, and the response read is the one the agent gives to it. *)
Definition answered_by (o : HandlerOracle) (a : Agent) (f : frame) : CallOracle :=
  {| call_encode := None; call_decode := OK (Agent_serve_one o f a).1 |}.

(** The requests of the client, with the id they are sent under. *)
Definition ping_request (id : Z) : Request :=
  {| ReqID := id; Method := "ping"; Params := ∅ |}.

Definition create_container_request (id : Z) (spec : ContainerSpec) : Request :=
  {| ReqID := id; Method := "create_container";
     Params := <["id" := JStr (SpecID spec)]>
               (<["bundle" := JStr (BundlePath spec)]>
               (<["stdin" := JBool (Stdin spec)]>
               (<["stdout" := JBool (Stdout spec)]>
               (<["stderr" := JBool (Stderr spec)]>
               (<["terminal" := JBool (Terminal spec)]> ∅))))) |}.

Definition start_container_request (id : Z) (c : string) : Request :=
  {| ReqID := id; Method := "start_container"; Params := <["id" := JStr c]> ∅ |}.

(** ** More sample states and oracles *)

(** The pool after the VM of [acquired_state] was released at time 200:
    one VM in the ready queue, none in use. *)
Definition pooled_state : St :=
  (Pool_Release (release_ok 200) 1%positive acquired_state).2.

(** A snapshot manager whose golden snapshot is stored without the golden
    flag. *)
Definition unflagged_manager : SnapshotManager :=
  {| sm_config := golden_config;
     snapshots := {[ "golden-base" := sample_snapshot "golden-base" 50 false ]};
     goldenSnapshot := Some (sample_snapshot "golden-base" 50 false) |}.

Definition unflagged_state : St :=
  {| heap := ∅; manager := NewManager DefaultManagerConfig;
     pool := NewPool DefaultPoolConfig; snapshotMgr := Some unflagged_manager;
     agentClient := None; service := sample_service; trace := [] |}.

Definition close_ok : CloseOracle :=
  {| close_pooled := λ _, destroy_ok 300; close_inUse := λ _, destroy_ok 300 |}.

(** A cleanup ten minutes after the VM was pooled. *)
Definition cleanup_idle_late : CleanupIdleOracle :=
  {| ci_now := λ _, 200 + 10 * 60 * Second; ci_destroy := λ _, destroy_ok 300;
     ci_destroy_full := λ _, destroy_ok 300 |}.


(** The first probe is not answered, the second is: request 3. *)
Definition connect_second_probe : ConnectOracle :=
  {| conn_vsock := OK 9%positive; conn_unix := Error (External "unused");
     conn_wait :=
       {| wait_ctx := λ _, None;
          wait_call := λ i,
            match i with
            | O => call_unanswered
            | S _ => {| call_encode := None;
                        call_decode :=
                          OK {| RespID := 3; Result := Some (JObj [("status", JStr "ok")]);
                                RespError := None |} |}
            end |} |}.

(** The context is done before the first probe. *)
Definition connect_cancelled : ConnectOracle :=
  {| conn_vsock := OK 9%positive; conn_unix := Error (External "unused");
     conn_wait := {| wait_ctx := λ _, Some (CtxErr false);
                     wait_call := λ _, call_unanswered |} |}.

(** The service with the init process of "task-1" on the sandbox of
    [acquired_state]. *)
Definition task_state : St :=
  set_service
    (λ _, set_svc_sandbox (Some 1%positive)
            (set_processes (<["task-1" := sample_proc]>) sample_service))
    acquired_state.

Definition delete_ok : DeleteOracle :=
  {| del_remove := answer_ok; del_release := release_ok 200 |}.

Definition empty_agent : Agent := {| agent_containers := ∅; agent_trace := [] |}.

Definition agent_create_ok : AgentCreateOracle :=
  {| aco_mkdir := None; aco_runc := None; aco_now := 100 |}.

Definition agent_create_broken : AgentCreateOracle :=
  {| aco_mkdir := None;
     aco_runc := Some (External "exit status 1", "bundle does not exist");
     aco_now := 100 |}.

(** The container stops after the third poll; the pid file holds 4321. *)
Definition handler_ok : HandlerOracle :=
  {| ho_create := agent_create_ok;
     ho_start := {| aso_runc := None; aso_read := None; aso_scan := OK 4321 |};
     ho_stop := {| asto_now := 1000; asto_first := 0; asto_extra := λ _, 0%N;
                   asto_state := λ i, if decide (i < 2)%nat then "running" else "stopped" |};
     ho_exec := {| aeo_stdout := ""; aeo_err := None |};
     ho_stats := {| ago_cpu := 0; ago_mem := 0 |} |}.

(** An agent that has the container "task-1". *)
Definition task_agent : Agent :=
  (Agent_createContainer agent_create_ok
     (create_params "task-1" "/run/containerd/task-1") empty_agent).2.

(** A connection to [task_agent]: the first ping of [connected_client],
    request 2, reaches it. *)
Definition connect_task_agent : ConnectOracle :=
  {| conn_vsock := OK 9%positive; conn_unix := Error (External "unused");
     conn_wait :=
       {| wait_ctx := λ _, None;
          wait_call := λ _, answered_by handler_ok task_agent
                              (encode_request (ping_request 2)) |} |}.

Definition sample_spec : ContainerSpec :=
  {| SpecID := "task-2"; BundlePath := "/run/containerd/task-2"; Stdin := false;
     Stdout := true; Stderr := true; Terminal := false |}.

(** * Properties *)

(** ** float64 and [Duration.Seconds] *)

Lemma round_half_even_error n d :
  0 < d → - d ≤ 2 * (round_half_even n d * d - n) ≤ d.
Proof.
  intros Hd. unfold round_half_even.
  pose proof (Z.div_mod n d ltac:(lia)) as Hdm.
  pose proof (Z.mod_pos_bound n d Hd) as Hr.
  destruct (Z.compare_spec (2 * (n mod d)) d) as [He|Hl|Hg]; [destruct (Z.even _)|..]; nia.
Qed.

Lemma round_half_even_ge n d k : 0 < d → k * d ≤ n → k ≤ round_half_even n d.
Proof.
  intros Hd Hk. assert (k ≤ n / d) by (apply Z.div_le_lower_bound; lia).
  unfold round_half_even.
  destruct (2 * (n mod d) ?= d); [destruct (Z.even _)|..]; lia.
Qed.

Lemma round_half_even_le n d k : 0 < d → n ≤ k * d → round_half_even n d ≤ k.
Proof.
  intros Hd Hk. unfold round_half_even.
  pose proof (Z.div_mod n d ltac:(lia)) as Hdm.
  pose proof (Z.mod_pos_bound n d Hd) as Hr.
  destruct (Z.compare_spec (2 * (n mod d)) d) as [He|Hl|Hg]; [destruct (Z.even _)|..]; nia.
Qed.

(** The parts of [float64_round q], for [q = n / d] other than zero. *)
Lemma float64_round_parts (q : Q) :
  Qnum q ≠ 0 →
  let n := Qnum q in
  let d := Z.pos (Qden q) in
  ∃ s l m,
    0 ≤ s ∧ 0 ≤ l
    ∧ 2 ^ l * d ≤ Z.abs n * 2 ^ s < 2 ^ (l + 1) * d
    ∧ - (d * 2 ^ l) ≤ 2 * (m * (d * 2 ^ l) - n * 2 ^ (s + 52)) ≤ d * 2 ^ l
    ∧ (∀ k, k * (d * 2 ^ l) ≤ n * 2 ^ (s + 52) → k ≤ m)
    ∧ (∀ k, n * 2 ^ (s + 52) ≤ k * (d * 2 ^ l) → m ≤ k)
    ∧ Qnum (float64_round q) = m * 2 ^ l
    ∧ Z.pos (Qden (float64_round q)) = 2 ^ (s + 52).
Proof.
  intros Hn n d. unfold float64_round. rewrite decide_False by done. fold n d.
  set (s := Z.log2 d + 1). set (l := Z.log2 (Z.abs n * 2 ^ s / d)).
  set (m := round_half_even _ _).
  assert (Hd : 0 < d) by (subst d; lia).
  assert (Hs : 0 ≤ s) by (pose proof (Z.log2_nonneg d); lia).
  assert (Hl : 0 ≤ l) by apply Z.log2_nonneg.
  assert (Hps : d < 2 ^ s).
  { subst s. pose proof (Z.log2_spec d Hd). replace (Z.log2 d + 1) with (Z.succ (Z.log2 d)); lia. }
  assert (Hv : 1 ≤ Z.abs n * 2 ^ s / d).
  { apply Z.div_le_lower_bound; [lia|]. nia. }
  assert (Hv' : 0 < Z.abs n * 2 ^ s / d) by lia.
  pose proof (Z.log2_spec _ Hv') as [Hl1 Hl2]. fold l in Hl1, Hl2.
  pose proof (Z.div_mod (Z.abs n * 2 ^ s) d ltac:(lia)) as Hdm.
  pose proof (Z.mod_pos_bound (Z.abs n * 2 ^ s) d Hd) as Hr.
  assert (Hpl : 0 < 2 ^ l) by (apply Z.pow_pos_nonneg; lia).
  assert (Hdl : 0 < d * 2 ^ l) by nia.
  exists s, l, m. split; [done|]. split; [done|]. split.
  { replace (l + 1) with (Z.succ l) by lia. split; nia. }
  split; [apply round_half_even_error; lia|].
  split; [intros k Hk; by apply round_half_even_ge|].
  split; [intros k Hk; by apply round_half_even_le|].
  cbn [Qnum Qden]. split; [done|]. rewrite Z2Pos.id; [done|]. apply Z.pow_pos_nonneg; lia.
Qed.

Lemma pow2_lt_inv a b : 0 ≤ b → 2 ^ a < 2 ^ b → a < b.
Proof. intros Hb H. by apply Z.pow_lt_mono_r_iff in H; [|lia..]. Qed.

(** Integers are float64s, as long as they are below 2^53: rounding does
    not cross them. *)
Lemma float64_round_ge (q : Q) (k : Z) :
  (inject_Z (- 2 ^ 53) < q)%Q → (q < inject_Z (2 ^ 53))%Q → (inject_Z k <= q)%Q → (inject_Z k <= float64_round q)%Q.
Proof.
  intros Hb Hb' Hk. destruct (decide (Qnum q = 0)) as [Hz|Hnz].
  { unfold float64_round. rewrite decide_True by done.
    unfold Qle in *. cbn in *. rewrite Hz in Hk. lia. }
  destruct (float64_round_parts q Hnz) as (s & l & m & Hs & Hl & [Hl1 Hl2] & _ & Hge & _ & Hn & Hd).
  unfold Qle, Qlt in *. cbn [Qnum Qden inject_Z] in *. rewrite Hn, Hd.
  set (n := Qnum q) in *. set (d := Z.pos (Qden q)) in *.
  assert (0 < d) by (subst d; lia).
  assert (Hpl : 0 < 2 ^ l) by (apply Z.pow_pos_nonneg; lia).
  assert (Hps : 0 < 2 ^ s) by (apply Z.pow_pos_nonneg; lia).
  assert (Hlt : l < s + 53).
  { apply pow2_lt_inv; [lia|]. rewrite Z.pow_add_r by lia. nia. }
  assert (Hsplit : 2 ^ (s + 52) = 2 ^ (s + 52 - l) * 2 ^ l).
  { rewrite <- Z.pow_add_r by lia. f_equal. lia. }
  assert (0 < 2 ^ (s + 52 - l)) by (apply Z.pow_pos_nonneg; lia).
  specialize (Hge (k * 2 ^ (s + 52 - l))).
  rewrite Hsplit in *. nia.
Qed.

Lemma float64_round_le (q : Q) (k : Z) :
  (inject_Z (- 2 ^ 53) < q)%Q → (q < inject_Z (2 ^ 53))%Q → (q <= inject_Z k)%Q → (float64_round q <= inject_Z k)%Q.
Proof.
  intros Hb Hb' Hk. destruct (decide (Qnum q = 0)) as [Hz|Hnz].
  { unfold float64_round. rewrite decide_True by done.
    unfold Qle in *. cbn in *. rewrite Hz in Hk. lia. }
  destruct (float64_round_parts q Hnz) as (s & l & m & Hs & Hl & [Hl1 Hl2] & _ & _ & Hle & Hn & Hd).
  unfold Qle, Qlt in *. cbn [Qnum Qden inject_Z] in *. rewrite Hn, Hd.
  set (n := Qnum q) in *. set (d := Z.pos (Qden q)) in *.
  assert (0 < d) by (subst d; lia).
  assert (Hpl : 0 < 2 ^ l) by (apply Z.pow_pos_nonneg; lia).
  assert (Hps : 0 < 2 ^ s) by (apply Z.pow_pos_nonneg; lia).
  assert (Hlt : l < s + 53).
  { apply pow2_lt_inv; [lia|]. rewrite Z.pow_add_r by lia. nia. }
  assert (Hsplit : 2 ^ (s + 52) = 2 ^ (s + 52 - l) * 2 ^ l).
  { rewrite <- Z.pow_add_r by lia. f_equal. lia. }
  assert (0 < 2 ^ (s + 52 - l)) by (apply Z.pow_pos_nonneg; lia).
  specialize (Hle (k * 2 ^ (s + 52 - l))).
  rewrite Hsplit in *. nia.
Qed.

(** The rounding error: half a unit in the last place, which is [2^(K-54)]
    below [2^K]. *)
Lemma float64_round_error (q : Q) (K : Z) :
  0 ≤ K → (inject_Z (- 2 ^ K) < q)%Q → (q < inject_Z (2 ^ K))%Q →
  (inject_Z (2 ^ 54) * (float64_round q - q) <= inject_Z (2 ^ K))%Q
  ∧ (inject_Z (2 ^ 54) * (q - float64_round q) <= inject_Z (2 ^ K))%Q.
Proof.
  intros HK Hb Hb'.
  assert (HpK : 0 < 2 ^ K) by (apply Z.pow_pos_nonneg; lia).
  destruct (decide (Qnum q = 0)) as [Hz|Hnz].
  { unfold float64_round. rewrite decide_True by done.
    unfold Qle, Qminus, Qplus, Qmult, Qopp. cbn [Qnum Qden inject_Z].
    rewrite Hz. split; nia. }
  destruct (float64_round_parts q Hnz)
    as (s & l & m & Hs & Hl & [Hl1 Hl2] & [He1 He2] & _ & _ & Hn & Hd).
  unfold Qle, Qlt, Qminus, Qplus, Qmult, Qopp in *. cbn [Qnum Qden inject_Z] in *.
  rewrite !Pos2Z.inj_mul, ?Hn, ?Hd.
  set (n := Qnum q) in *. set (d := Z.pos (Qden q)) in *.
  assert (0 < d) by (subst d; lia).
  assert (Hpl : 0 < 2 ^ l) by (apply Z.pow_pos_nonneg; lia).
  assert (Hps : 0 < 2 ^ s) by (apply Z.pow_pos_nonneg; lia).
  assert (Hlt : l < K + s).
  { apply pow2_lt_inv; [lia|]. rewrite Z.pow_add_r by lia. nia. }
  assert (Hle : 2 * 2 ^ l ≤ 2 ^ K * 2 ^ s).
  { rewrite <- Z.pow_add_r by lia. rewrite <- Z.pow_succ_r by lia.
    apply Z.pow_le_mono_r; lia. }
  rewrite (Z.pow_add_r 2 s 52) in * by lia.
  set (P := 2 ^ l) in *. set (S' := 2 ^ s) in *. set (T := 2 ^ K) in *.
  change (2 ^ 54) with 18014398509481984. change (2 ^ 52) with 4503599627370496 in *.
  split; nia.
Qed.

(** [int] of a float between two integers. *)
Lemma int_of_float64_nonneg (q : Q) (k : Z) :
  0 ≤ k → (inject_Z k <= q)%Q → (q < inject_Z (k + 1))%Q → int_of_float64 q = k.
Proof.
  unfold Qle, Qlt, int_of_float64. cbn [Qnum Qden inject_Z]. intros Hk H1 H2.
  rewrite Z.quot_div_nonneg by lia.
  symmetry. apply Z.div_unique with (Qnum q - k * Z.pos (Qden q)); lia.
Qed.

Lemma int_of_float64_nonpos (q : Q) (k : Z) :
  k ≤ 0 → (inject_Z (k - 1) < q)%Q → (q <= inject_Z k)%Q → int_of_float64 q = k.
Proof.
  unfold Qle, Qlt, int_of_float64. cbn [Qnum Qden inject_Z]. intros Hk H1 H2.
  rewrite <- (Z.opp_involutive (Qnum q)). rewrite Z.quot_opp_l by lia.
  rewrite Z.quot_div_nonneg by lia.
  assert (- Qnum q / Z.pos (Qden q) = - k); [|lia].
  symmetry. apply Z.div_unique with (- Qnum q + k * Z.pos (Qden q)); lia.
Qed.

Lemma inject_Z_le' (a b : Z) : a ≤ b → (inject_Z a <= inject_Z b)%Q.
Proof. intros H. by rewrite <- Zle_Qle. Qed.

(** For a duration of less than 2^24 seconds the float sum of
    [Duration.Seconds] stays on the side of the next whole second where
    the exact sum is, and [int] gives the whole seconds. *)
Lemma Duration_Seconds_int_nonneg (t : time_Duration) :
  0 ≤ t < 2 ^ 24 * Second → Duration_Seconds_int t = Z.quot t Second.
Proof.
  intros Ht. unfold Duration_Seconds_int, Duration_Seconds. cbv zeta.
  pose proof (Z.quot_rem' t Second) as Hqr.
  pose proof (Z.rem_bound_pos t Second ltac:(lia) ltac:(done)) as Hr.
  assert (Hq : 0 ≤ Z.quot t Second < 2 ^ 24).
  { split; [apply Z.quot_pos; unfold Second; lia|].
    apply Z.quot_lt_upper_bound; unfold Second in *; lia. }
  set (sec := Z.quot t Second) in *. set (nsec := Z.rem t Second) in *.
  unfold Second in Hr.
  set (qy := Qmake nsec 1000000000). set (y := float64_round qy).
  assert (Hqy0 : (0 <= qy)%Q) by (unfold Qle; cbn; lia).
  assert (Hqy1 : (qy <= 999999999 # 1000000000)%Q) by (unfold Qle; cbn; lia).
  assert (Hy0 : (inject_Z 0 <= y)%Q).
  { apply float64_round_ge; [| |exact Hqy0]; unfold Qlt; cbn; lia. }
  destruct (float64_round_error qy 0 ltac:(lia)) as [Hye _];
    [unfold Qlt; cbn; lia..|]. fold y in Hye.
  change (inject_Z (2 ^ 54)) with (18014398509481984 # 1)%Q in Hye.
  change (inject_Z (2 ^ 0)) with (1 # 1)%Q in Hye. change (inject_Z 0) with (0 # 1)%Q in Hy0.
  assert (Hs0 : (0 <= inject_Z sec)%Q) by (apply (inject_Z_le' 0); lia).
  assert (Hs1 : (inject_Z sec <= 16777215 # 1)%Q) by (apply (inject_Z_le' _ 16777215); lia).
  set (x := (inject_Z sec + y)%Q).
  assert (Hx0 : (inject_Z sec <= x)%Q) by (subst x; lra).
  assert (Hx1 : (x < 16777216 # 1)%Q) by (subst x; lra).
  destruct (float64_round_error x 24 ltac:(lia)) as [Hze _].
  { change (inject_Z (- 2 ^ 24)) with (- 16777216 # 1)%Q. lra. }
  { exact Hx1. }
  change (inject_Z (2 ^ 54)) with (18014398509481984 # 1)%Q in Hze.
  change (inject_Z (2 ^ 24)) with (16777216 # 1)%Q in Hze.
  apply int_of_float64_nonneg; [lia| |].
  - apply float64_round_ge; [| |exact Hx0].
    + change (inject_Z (- 2 ^ 53)) with (- 9007199254740992 # 1)%Q. lra.
    + change (inject_Z (2 ^ 53)) with (9007199254740992 # 1)%Q. lra.
  - rewrite inject_Z_plus. change (inject_Z 1) with (1 # 1)%Q. subst x. lra.
Qed.

Lemma Duration_Seconds_int_nonpos (t : time_Duration) :
  - (2 ^ 24 * Second) < t ≤ 0 → Duration_Seconds_int t = Z.quot t Second.
Proof.
  intros Ht. unfold Duration_Seconds_int, Duration_Seconds. cbv zeta.
  pose proof (Z.quot_rem' t Second) as Hqr.
  assert (Hr : - Second < Z.rem t Second ≤ 0).
  { pose proof (Z.rem_bound_abs t Second ltac:(done)).
    pose proof (Z.rem_nonpos t Second ltac:(done) ltac:(lia)). unfold Second in *. lia. }
  assert (Hq : - 2 ^ 24 < Z.quot t Second ≤ 0).
  { rewrite <- (Z.opp_involutive t), Z.quot_opp_l by done.
    assert (0 ≤ Z.quot (- t) Second < 2 ^ 24); [|lia].
    split; [apply Z.quot_pos; unfold Second; lia|].
    apply Z.quot_lt_upper_bound; unfold Second in *; lia. }
  set (sec := Z.quot t Second) in *. set (nsec := Z.rem t Second) in *.
  unfold Second in Hr.
  set (qy := Qmake nsec 1000000000). set (y := float64_round qy).
  assert (Hqy0 : (qy <= 0)%Q) by (unfold Qle; cbn; lia).
  assert (Hqy1 : (- (999999999 # 1000000000) <= qy)%Q) by (unfold Qle; cbn; lia).
  assert (Hy0 : (y <= inject_Z 0)%Q).
  { apply float64_round_le; [| |exact Hqy0]; unfold Qlt; cbn; lia. }
  destruct (float64_round_error qy 0 ltac:(lia)) as [_ Hye];
    [unfold Qlt; cbn; lia..|]. fold y in Hye.
  change (inject_Z (2 ^ 54)) with (18014398509481984 # 1)%Q in Hye.
  change (inject_Z (2 ^ 0)) with (1 # 1)%Q in Hye. change (inject_Z 0) with (0 # 1)%Q in Hy0.
  assert (Hs0 : (inject_Z sec <= 0)%Q) by (apply (inject_Z_le' _ 0); lia).
  assert (Hs1 : (- 16777215 # 1 <= inject_Z sec)%Q)
    by (apply (inject_Z_le' (- 16777215)); lia).
  set (x := (inject_Z sec + y)%Q).
  assert (Hx0 : (x <= inject_Z sec)%Q) by (subst x; lra).
  assert (Hx1 : (- 16777216 # 1 < x)%Q) by (subst x; lra).
  destruct (float64_round_error x 24 ltac:(lia)) as [_ Hze].
  { exact Hx1. }
  { change (inject_Z (2 ^ 24)) with (16777216 # 1)%Q. lra. }
  change (inject_Z (2 ^ 54)) with (18014398509481984 # 1)%Q in Hze.
  change (inject_Z (2 ^ 24)) with (16777216 # 1)%Q in Hze.
  apply int_of_float64_nonpos; [lia| |].
  - replace (sec - 1) with (sec + -1) by lia.
    rewrite inject_Z_plus. change (inject_Z (-1)) with (-1 # 1)%Q. subst x. lra.
  - apply float64_round_le; [| |exact Hx0].
    + change (inject_Z (- 2 ^ 53)) with (- 9007199254740992 # 1)%Q. lra.
    + change (inject_Z (2 ^ 53)) with (9007199254740992 # 1)%Q. lra.
Qed.

Lemma Duration_Seconds_int_small (t : time_Duration) :
  Z.abs t < 2 ^ 24 * Second → Duration_Seconds_int t = Z.quot t Second.
Proof.
  intros Ht. destruct (decide (0 ≤ t)).
  - apply Duration_Seconds_int_nonneg. lia.
  - apply Duration_Seconds_int_nonpos. lia.
Qed.

Lemma int_of_float64_between (q : Q) (k : Z) :
  0 ≤ k → (inject_Z k <= q)%Q → (q <= inject_Z (k + 1))%Q →
  int_of_float64 q = k ∨ int_of_float64 q = k + 1.
Proof.
  intros Hk H1 H2. destruct (Qlt_le_dec q (inject_Z (k + 1))) as [Hlt|Hge].
  - left. by apply int_of_float64_nonneg.
  - right. unfold Qle, int_of_float64 in *. cbn [Qnum Qden inject_Z] in *.
    assert (Qnum q = (k + 1) * Z.pos (Qden q)) as -> by lia.
    rewrite Z.quot_mul; lia.
Qed.

Lemma int_of_float64_between_neg (q : Q) (k : Z) :
  k ≤ 0 → (inject_Z (k - 1) <= q)%Q → (q <= inject_Z k)%Q →
  int_of_float64 q = k ∨ int_of_float64 q = k - 1.
Proof.
  intros Hk H1 H2. destruct (Qlt_le_dec (inject_Z (k - 1)) q) as [Hlt|Hge].
  - left. by apply int_of_float64_nonpos.
  - right. unfold Qle, int_of_float64 in *. cbn [Qnum Qden inject_Z] in *.
    assert (Qnum q = (k - 1) * Z.pos (Qden q)) as -> by lia.
    rewrite Z.quot_mul; lia.
Qed.

(** For every duration, [int(d.Seconds())] is the whole seconds of the
    duration or one second further from zero. *)
Lemma Duration_Seconds_int_near (t : time_Duration) :
  - 2 ^ 63 ≤ t < 2 ^ 63 →
  Duration_Seconds_int t = Z.quot t Second
  ∨ Duration_Seconds_int t = Z.quot t Second + Z.sgn t.
Proof.
  intros Ht. destruct (decide (Z.abs t < 2 ^ 24 * Second)) as [Hs|Hs].
  { left. by apply Duration_Seconds_int_small. }
  unfold Duration_Seconds_int, Duration_Seconds. cbv zeta.
  pose proof (Z.quot_rem' t Second) as Hqr.
  pose proof (Z.rem_bound_abs t Second ltac:(done)) as Hra.
  set (sec := Z.quot t Second) in *. set (nsec := Z.rem t Second) in *.
  set (qy := Qmake nsec 1000000000). set (y := float64_round qy).
  set (x := (inject_Z sec + y)%Q).
  destruct (decide (0 ≤ t)) as [Hpos|Hneg].
  - pose proof (Z.rem_bound_pos t Second ltac:(lia) ltac:(done)) as Hr. fold nsec in Hr.
    assert (Hq : 0 ≤ sec < 2 ^ 34).
    { split; [apply Z.quot_pos; unfold Second; lia|].
      apply Z.quot_lt_upper_bound; unfold Second in *; lia. }
    unfold Second in Hr.
    assert (Hy0 : (inject_Z 0 <= y)%Q)
      by (apply float64_round_ge; unfold Qlt, Qle; cbn; lia).
    assert (Hy1 : (y <= inject_Z 1)%Q)
      by (apply float64_round_le; unfold Qlt, Qle; cbn; lia).
    change (inject_Z 0) with (0 # 1)%Q in Hy0. change (inject_Z 1) with (1 # 1)%Q in Hy1.
    assert (Hs0 : (0 <= inject_Z sec)%Q) by (apply (inject_Z_le' 0); lia).
    assert (Hs1 : (inject_Z sec <= 17179869183 # 1)%Q)
      by (apply (inject_Z_le' _ 17179869183); lia).
    assert (Hx0 : (inject_Z sec <= x)%Q) by (subst x; lra).
    assert (Hx1 : (x <= inject_Z (sec + 1))%Q).
    { rewrite inject_Z_plus. change (inject_Z 1) with (1 # 1)%Q. subst x. lra. }
    rewrite inject_Z_plus in Hx1. change (inject_Z 1) with (1 # 1)%Q in Hx1.
    replace (Z.sgn t) with 1 by (unfold Second in *; lia).
    apply int_of_float64_between; [lia| |].
    + apply float64_round_ge; [| |exact Hx0].
      * change (inject_Z (- 2 ^ 53)) with (- 9007199254740992 # 1)%Q. lra.
      * change (inject_Z (2 ^ 53)) with (9007199254740992 # 1)%Q. lra.
    + apply float64_round_le.
      * change (inject_Z (- 2 ^ 53)) with (- 9007199254740992 # 1)%Q. lra.
      * change (inject_Z (2 ^ 53)) with (9007199254740992 # 1)%Q. lra.
      * rewrite inject_Z_plus. change (inject_Z 1) with (1 # 1)%Q. lra.
  - pose proof (Z.rem_nonpos t Second ltac:(done) ltac:(lia)) as Hr. fold nsec in Hr.
    assert (Hq : - 2 ^ 34 < sec ≤ 0).
    { subst sec. rewrite <- (Z.opp_involutive t), Z.quot_opp_l by done.
      assert (0 ≤ Z.quot (- t) Second < 2 ^ 34); [|lia].
      split; [apply Z.quot_pos; unfold Second; lia|].
      apply Z.quot_lt_upper_bound; unfold Second in *; lia. }
    unfold Second in Hra. change (Z.abs 1000000000) with 1000000000 in Hra.
    assert (Hy0 : (y <= inject_Z 0)%Q)
      by (apply float64_round_le; unfold Qlt, Qle; cbn; lia).
    assert (Hy1 : (inject_Z (-1) <= y)%Q)
      by (apply float64_round_ge; unfold Qlt, Qle; cbn; lia).
    change (inject_Z 0) with (0 # 1)%Q in Hy0. change (inject_Z (-1)) with (-1 # 1)%Q in Hy1.
    assert (Hs0 : (inject_Z sec <= 0)%Q) by (apply (inject_Z_le' _ 0); lia).
    assert (Hs1 : (- 17179869183 # 1 <= inject_Z sec)%Q)
      by (apply (inject_Z_le' (- 17179869183)); lia).
    assert (Hx0 : (x <= inject_Z sec)%Q) by (subst x; lra).
    assert (Hx1 : (inject_Z sec + (-1 # 1) <= x)%Q) by (subst x; lra).
    replace (Z.sgn t) with (-1) by (unfold Second in *; lia).
    replace (sec + -1) with (sec - 1) by lia.
    apply int_of_float64_between_neg; [lia| |].
    + apply float64_round_ge.
      * change (inject_Z (- 2 ^ 53)) with (- 9007199254740992 # 1)%Q. lra.
      * change (inject_Z (2 ^ 53)) with (9007199254740992 # 1)%Q. lra.
      * replace (sec - 1) with (sec + -1) by lia.
        rewrite inject_Z_plus. change (inject_Z (-1)) with (-1 # 1)%Q. lra.
    + apply float64_round_le; [| |exact Hx0].
      * change (inject_Z (- 2 ^ 53)) with (- 9007199254740992 # 1)%Q. lra.
      * change (inject_Z (2 ^ 53)) with (9007199254740992 # 1)%Q. lra.
Qed.

(** ** Equations of the monad *)
Section monad_equations.
Context {A B : Type}.
Implicit Types (k : A → M B) (s : St).

Lemma bind_ret (a : A) k s : bind (ret a) k s = k a s.
Proof. reflexivity. Qed.

Lemma bind_gets (f : St → A) k s : bind (gets f) k s = k (f s) s.
Proof. reflexivity. Qed.

Lemma bind_modify (f : St → St) (k : unit → M B) s : bind (modify f) k s = k tt (f s).
Proof. reflexivity. Qed.

Lemma bind_emit (e : Event) (k : unit → M B) s :
  bind (emit e) k s = k tt (set_trace (λ t, t ++ [e]) s).
Proof. reflexivity. Qed.

Lemma bind_panic (why : string) k s : bind (panic why) k s = (Panic why, s).
Proof. reflexivity. Qed.

Lemma bind_load (l : loc) (k : Sandbox → M B) s sb :
  heap s !! l = Some sb → bind (load l) k s = k sb s.
Proof. intros H. unfold bind, load. by rewrite H. Qed.

Lemma bind_load_nil (l : loc) (k : Sandbox → M B) s :
  heap s !! l = None → bind (load l) k s = (Panic nil_deref, s).
Proof. intros H. unfold bind, load. by rewrite H. Qed.

Lemma bind_store (l : loc) (f : Sandbox → Sandbox) (k : unit → M B) s sb :
  heap s !! l = Some sb → bind (store l f) k s = k tt (set_heap (alter f l) s).
Proof. intros H. unfold store. unfold bind at 1 2. unfold load. by rewrite H. Qed.

Lemma bind_new (sb : Sandbox) (k : loc → M B) s :
  bind (new sb) k s = k (fresh (dom (heap s))) (set_heap (<[fresh (dom (heap s)) := sb]>) s).
Proof. reflexivity. Qed.

Lemma bind_Ret (m : M A) k s a s' : m s = (Ret a, s') → bind m k s = k a s'.
Proof. intros H. unfold bind. by rewrite H. Qed.

Lemma bind_Panic (m : M A) k s why s' : m s = (Panic why, s') → bind m k s = (Panic why, s').
Proof. intros H. unfold bind. by rewrite H. Qed.

End monad_equations.

Lemma bind_bind {A B C} (m : M A) (k : A → M B) (h : B → M C) s :
  bind (bind m k) h s = bind m (λ a, bind (k a) h) s.
Proof. unfold bind. destruct (m s) as [[a|why] s']; reflexivity. Qed.

Lemma load_Some s l sb : heap s !! l = Some sb → load l s = (Ret sb, s).
Proof. intros H. unfold load. by rewrite H. Qed.

Lemma store_Some s l f sb :
  heap s !! l = Some sb → store l f s = (Ret tt, set_heap (alter f l) s).
Proof. intros H. unfold store, bind. by rewrite (load_Some _ _ _ H). Qed.

Lemma fresh_loc_None (h : gmap loc Sandbox) : h !! fresh (dom h) = None.
Proof. apply not_elem_of_dom, is_fresh. Qed.

(** Lookups in the store after the updates of a run. *)
Ltac heap_lookup :=
  cbn [heap set_heap set_trace set_manager set_pool set_snapshotMgr set_agentClient set_service];
  repeat first
    [ rewrite lookup_alter_eq
    | rewrite lookup_insert_eq
    | match goal with H : _ !! _ = _ |- _ => rewrite H end ];
  cbn [fmap option_fmap option_map]; reflexivity.

(** Projections of updated states. *)
Tactic Notation "st_simpl" :=
  cbn [heap manager pool snapshotMgr agentClient service trace
       set_heap set_manager set_pool set_snapshotMgr set_agentClient set_service set_trace
       pool_config available inUse stats closed
       set_available set_inUse set_stats set_closed
       mgr_config sandboxes cidCounter set_sandboxes set_cidCounter
       buf cap chan_closed set_buf].

Tactic Notation "st_simpl" "in" hyp(H) :=
  cbn [heap manager pool snapshotMgr agentClient service trace
       set_heap set_manager set_pool set_snapshotMgr set_agentClient set_service set_trace
       pool_config available inUse stats closed
       set_available set_inUse set_stats set_closed
       mgr_config sandboxes cidCounter set_sandboxes set_cidCounter
       buf cap chan_closed set_buf] in H.

Ltac mstep :=
  first
    [ rewrite bind_ret | rewrite bind_gets | rewrite bind_modify | rewrite bind_emit
    | rewrite bind_panic | rewrite bind_new | rewrite bind_bind
    | erewrite bind_load by heap_lookup
    | erewrite bind_store by heap_lookup ];
  cbv beta iota zeta.

Ltac msteps := repeat mstep.

(** Two states with the same fields are the same state. *)
Lemma St_eq (s1 s2 : St) :
  heap s1 = heap s2 → manager s1 = manager s2 → pool s1 = pool s2 →
  snapshotMgr s1 = snapshotMgr s2 → agentClient s1 = agentClient s2 →
  service s1 = service s2 → trace s1 = trace s2 → s1 = s2.
Proof. destruct s1, s2; simpl; intros; congruence. Qed.

Ltac trace_eq := unfold stop_events; repeat (rewrite <- app_assoc; simpl); reflexivity.

(** ** What a run leaves alone *)

Section preserves_rules.
Context (R : relation St) `{!PreOrder R}.

Lemma preserves_ret {A} (a : A) : preserves R (ret a).
Proof. intros s. reflexivity. Qed.

Lemma preserves_gets {A} (f : St → A) : preserves R (gets f).
Proof. intros s. reflexivity. Qed.

Lemma preserves_panic {A} why : preserves R (@panic A why).
Proof. intros s. reflexivity. Qed.

Lemma preserves_modify (f : St → St) : (∀ s, R s (f s)) → preserves R (modify f).
Proof. intros H s. apply H. Qed.

Lemma preserves_bind {A B} (m : M A) (k : A → M B) :
  preserves R m → (∀ a, preserves R (k a)) → preserves R (bind m k).
Proof.
  intros Hm Hk s. unfold bind. specialize (Hm s).
  destruct (m s) as [[a|why] s']; simpl in *; [|done].
  etrans; [exact Hm|apply Hk].
Qed.

Lemma preserves_load l : preserves R (load l).
Proof. intros s. unfold load. destruct (heap s !! l); reflexivity. Qed.

Lemma preserves_store l f : (∀ s, R s (set_heap (alter f l) s)) → preserves R (store l f).
Proof.
  intros H. unfold store. apply preserves_bind; [apply preserves_load|].
  intros _. by apply preserves_modify.
Qed.

Lemma preserves_new sb : (∀ s l, R s (set_heap (<[l := sb]>) s)) → preserves R (new sb).
Proof. intros H s. apply H. Qed.

Lemma preserves_emit e : (∀ s, R s (set_trace (λ t, t ++ [e]) s)) → preserves R (emit e).
Proof. intros H. by apply preserves_modify. Qed.

End preserves_rules.

(** Walks through a definition with the rules above; leaves the updates
    of the state to [tac]. *)
Ltac preserves_walk tac :=
  repeat first
    [ apply preserves_ret; tc_solve
    | apply preserves_gets; tc_solve
    | apply preserves_panic; tc_solve
    | apply preserves_load; tc_solve
    | apply preserves_bind; [tc_solve | | intros ?]
    | apply preserves_modify; intros ?; tac
    | apply preserves_store; [tc_solve | intros ?; tac]
    | apply preserves_new; intros ? ?; tac
    | apply preserves_emit; intros ?; tac
    | match goal with
      | |- preserves _ (match ?x with _ => _ end) => destruct x
      | |- preserves _ (let _ := _ in _) => cbv zeta
      end ].

(** ** Manager *)

Lemma Manager_StopVM_noVM o l s sb :
  heap s !! l = Some sb → VM sb = None →
  Manager_StopVM o l s = (Ret (Some (Errorf ("sandbox " +:+ ID sb +:+ " has no VM"))), s).
Proof.
  intros H Hm. unfold Manager_StopVM. msteps. by rewrite Hm.
Qed.

Lemma Manager_StopVM_VM o l s sb m :
  heap s !! l = Some sb → VM sb = Some m →
  Manager_StopVM o l s =
    (Ret None,
     set_heap (alter (set_FinishedAt (so_finished o) ∘ set_State SandboxStopped) l)
       (set_trace (λ t, t ++ stop_events o m) s)).
Proof.
  intros H Hm. unfold Manager_StopVM. msteps. rewrite Hm. msteps.
  unfold stop_events.
  destruct (so_shutdown o), (so_wait o); msteps; unfold ret;
    (f_equal; apply St_eq; simpl; try reflexivity;
     [ by rewrite alter_alter_eq | by rewrite <- ?app_assoc ]).
Qed.

Lemma alter_const_lookup (h : gmap loc Sandbox) l sb f :
  h !! l = Some sb → alter f l h = <[l := f sb]> h.
Proof.
  intros H. apply map_eq. intros i. destruct (decide (l = i)) as [->|].
  - by rewrite lookup_alter_eq, lookup_insert_eq, H.
  - by rewrite lookup_alter_ne, lookup_insert_ne.
Qed.

Lemma Manager_DestroyVM_spec o l s sb :
  heap s !! l = Some sb →
  Manager_DestroyVM o l s =
    (Ret None,
     set_manager (set_sandboxes (delete (ID sb)))
       (set_heap (<[l := destroyed_sandbox o sb]>)
          (set_trace (λ t, t ++ destroy_events (mgr_config (manager s)) o sb) s))).
Proof.
  intros H. unfold Manager_DestroyVM, destroy_events, destroyed_sandbox. mstep.
  destruct (decide (State sb = SandboxReady)) as [Hr|Hr].
  - destruct (VM sb) as [m|] eqn:Hm.
    + rewrite bind_bind. erewrite bind_Ret by (by eapply Manager_StopVM_VM).
      msteps. destruct (AgentConn sb), (do_remove o); msteps; unfold ret;
        (f_equal; apply St_eq; cbn [heap manager pool snapshotMgr agentClient service trace
                                    set_heap set_manager set_trace]; first
         [ reflexivity | by rewrite (alter_const_lookup _ _ _ _ H) | trace_eq ]).
    + rewrite bind_bind. erewrite bind_Ret by (by eapply Manager_StopVM_noVM).
      msteps. destruct (AgentConn sb), (do_remove o); msteps; unfold ret;
        (f_equal; apply St_eq; cbn [heap manager pool snapshotMgr agentClient service trace
                                    set_heap set_manager set_trace]; first
         [ reflexivity | by rewrite insert_id | trace_eq ]).
  - msteps. destruct (AgentConn sb), (do_remove o); msteps; unfold ret;
      (f_equal; apply St_eq; cbn [heap manager pool snapshotMgr agentClient service trace
                                  set_heap set_manager set_trace]; first
       [ reflexivity | by rewrite insert_id | trace_eq ]).
Qed.


Lemma Manager_StopVM_nil_inv o l s s1 :
  Manager_StopVM o l s = (Ret None, s1) →
  ∃ sb m, heap s !! l = Some sb ∧ VM sb = Some m.
Proof.
  intros Hrun. destruct (heap s !! l) as [sb|] eqn:H.
  - destruct (VM sb) as [m|] eqn:Hm; [by eauto|].
    rewrite (Manager_StopVM_noVM _ _ _ _ H Hm) in Hrun. discriminate.
  - unfold Manager_StopVM in Hrun. rewrite bind_load_nil in Hrun by done. discriminate.
Qed.

(** C6, as the code has it.  After a [StopVM] that returned nil, a second
    [StopVM] on the same sandbox returns nil again and leaves the state
    [SandboxStopped]; it is not a no-op: it asks the VMM to shut down and
    waits for it once more, and it overwrites the finished-at timestamp with
    the time of the second call. *)
Theorem Manager_StopVM_again (o1 o2 : StopOracle) (l : loc) (s s1 : St) :
  Manager_StopVM o1 l s = (Ret None, s1) →
  ∃ sb1 m,
    heap s1 !! l = Some sb1 ∧ VM sb1 = Some m ∧ State sb1 = SandboxStopped
    ∧ FinishedAt sb1 = so_finished o1
    ∧ Manager_StopVM o2 l s1 =
        (Ret None,
         set_heap (<[l := set_FinishedAt (so_finished o2) sb1]>)
           (set_trace (λ t, t ++ stop_events o2 m) s1)).
Proof.
  intros Hrun. destruct (Manager_StopVM_nil_inv _ _ _ _ Hrun) as (sb & m & H & Hm).
  rewrite (Manager_StopVM_VM _ _ _ _ _ H Hm) in Hrun. injection Hrun as <-.
  exists (set_FinishedAt (so_finished o1) (set_State SandboxStopped sb)), m.
  assert (Hl : heap (set_heap
             (alter (set_FinishedAt (so_finished o1) ∘ set_State SandboxStopped) l)
             (set_trace (λ t, t ++ stop_events o1 m) s)) !! l
           = Some (set_FinishedAt (so_finished o1) (set_State SandboxStopped sb))).
  { simpl. by rewrite lookup_alter_eq, H. }
  split; [exact Hl|]. split; [exact Hm|]. split; [reflexivity|]. split; [reflexivity|].
  erewrite Manager_StopVM_VM; [| exact Hl | exact Hm].
  f_equal. apply St_eq; try reflexivity.
  cbn [heap set_heap set_trace]. rewrite alter_alter_eq.
  rewrite (alter_const_lookup _ _ _ _ H).
  rewrite (alter_const_lookup _ _ _ _ H). by rewrite insert_insert_eq.
Qed.

(** ** Pool *)

Lemma Pool_customizeVM_spec l config s sb :
  heap s !! l = Some sb →
  Pool_customizeVM l config s = (Ret None, set_heap (<[l := set_VMConfig config sb]>) s).
Proof.
  intros H. unfold Pool_customizeVM. msteps. unfold ret. f_equal.
  apply St_eq; try reflexivity. simpl. by apply alter_const_lookup.
Qed.

Lemma Pool_resetVM_spec l s sb :
  heap s !! l = Some sb →
  Pool_resetVM l s = (Ret None, set_heap (<[l := set_Containers ∅ sb]>) s).
Proof.
  intros H. unfold Pool_resetVM. msteps. unfold ret. f_equal.
  apply St_eq; try reflexivity. simpl. by apply alter_const_lookup.
Qed.

Lemma Pool_Acquire_hit o config s l rest sb :
  buf (available (pool s)) = l :: rest → heap s !! l = Some sb →
  Pool_Acquire o config s = (Ret (OK l), hit_state l rest config sb s).
Proof.
  intros Hb H. unfold Pool_Acquire. msteps.
  st_simpl. unfold chan_try_recv. rewrite Hb.
  msteps. cbn [ID set_FromPool].
  erewrite bind_Ret; cycle 1.
  { apply Pool_customizeVM_spec. heap_lookup. }
  unfold ret, hit_state. f_equal. apply St_eq; try reflexivity.
  cbn [heap set_heap set_pool]. rewrite (alter_const_lookup _ _ _ _ H).
  by rewrite insert_insert_eq.
Qed.

Lemma Pool_Acquire_hit_dangling o config s l rest :
  buf (available (pool s)) = l :: rest → heap s !! l = None →
  ∃ s', Pool_Acquire o config s = (Panic nil_deref, s').
Proof.
  intros Hb H. unfold Pool_Acquire. msteps.
  st_simpl. unfold chan_try_recv. rewrite Hb.
  msteps. unfold store. rewrite bind_bind. rewrite bind_load_nil by heap_lookup. eauto.
Qed.

Lemma Pool_Acquire_miss o config s :
  buf (available (pool s)) = [] → chan_closed (available (pool s)) = false →
  Pool_Acquire o config s = Pool_createFresh (ao_create o) config (miss_state s).
Proof.
  intros Hb Hc. unfold Pool_Acquire. msteps.
  st_simpl. unfold chan_try_recv. rewrite Hb, Hc.
  by msteps.
Qed.

Lemma Pool_Acquire_closed o config s :
  buf (available (pool s)) = [] → chan_closed (available (pool s)) = true →
  ∃ s', Pool_Acquire o config s = (Panic nil_deref, s').
Proof.
  intros Hb Hc. unfold Pool_Acquire. msteps.
  st_simpl. unfold chan_try_recv. rewrite Hb, Hc.
  msteps. eauto.
Qed.

Lemma Pool_Acquire_destroy_oracle o d config s :
  Pool_Acquire o config s =
  Pool_Acquire {| ao_destroy := d; ao_create := ao_create o |} config s.
Proof.
  destruct (buf (available (pool s))) as [|l rest] eqn:Hb.
  - destruct (chan_closed (available (pool s))) eqn:Hc.
    + unfold Pool_Acquire. msteps.
      st_simpl. unfold chan_try_recv. rewrite Hb, Hc.
      by msteps.
    + by rewrite !Pool_Acquire_miss.
  - destruct (heap s !! l) as [sb|] eqn:H.
    + by rewrite !(Pool_Acquire_hit _ _ _ _ _ _ Hb H).
    + unfold Pool_Acquire. msteps.
      st_simpl. unfold chan_try_recv. rewrite Hb.
      msteps. unfold store. rewrite !bind_bind. by rewrite !bind_load_nil by heap_lookup.
Qed.

Lemma Pool_Release_reset_oracle o d l s :
  Pool_Release o l s = Pool_Release (with_destroy_reset d o) l s.
Proof.
  destruct (heap s !! l) as [sb|] eqn:H.
  - unfold Pool_Release. msteps. st_simpl.
    cbn [with_destroy_reset rel_now rel_pooled rel_destroy_full rel_destroy_race].
    case_decide; [reflexivity|].
    erewrite !bind_Ret; cycle 1.
    { apply Pool_resetVM_spec. heap_lookup. }
    { apply Pool_resetVM_spec. heap_lookup. }
    reflexivity.
  - unfold Pool_Release. by rewrite !bind_load_nil.
Qed.

Lemma destroy_events_no_reset_warning cfg o sb : reset_warning ∉ destroy_events cfg o sb.
Proof.
  unfold destroy_events, stop_events, reset_warning.
  rewrite !not_elem_of_app. repeat split.
  - case_decide; [|by apply not_elem_of_nil]. destruct (VM sb).
    + rewrite !not_elem_of_app. repeat split;
        repeat case_match; rewrite ?not_elem_of_cons; repeat split;
        try discriminate; apply not_elem_of_nil.
    + rewrite not_elem_of_cons. split; [discriminate|apply not_elem_of_nil].
  - destruct (AgentConn sb); rewrite ?not_elem_of_cons; repeat split;
      try discriminate; apply not_elem_of_nil.
  - rewrite not_elem_of_cons. split; [discriminate|apply not_elem_of_nil].
  - case_match; rewrite ?not_elem_of_cons; repeat split;
      try discriminate; apply not_elem_of_nil.
Qed.

Lemma Pool_Release_trace o l s sb :
  heap s !! l = Some sb →
  ∃ evs, trace (Pool_Release o l s).2 = trace s ++ evs ∧ reset_warning ∉ evs.
Proof.
  intros H. unfold Pool_Release. msteps. st_simpl.
  case_decide.
  - erewrite Manager_DestroyVM_spec by heap_lookup. simpl.
    eexists. split; [reflexivity|]. apply destroy_events_no_reset_warning.
  - erewrite bind_Ret; cycle 1.
    { apply Pool_resetVM_spec. heap_lookup. }
    cbv beta iota. msteps. unfold chan_try_send. st_simpl.
    destruct (chan_closed (available (pool s))).
    + unfold panic. simpl. exists []. split; [by rewrite app_nil_r|apply not_elem_of_nil].
    + case_decide.
      * msteps. simpl. exists []. split; [by rewrite app_nil_r|apply not_elem_of_nil].
      * erewrite bind_Ret; cycle 1.
        { apply Manager_DestroyVM_spec. heap_lookup. }
        simpl. eexists. split; [reflexivity|]. apply destroy_events_no_reset_warning.
Qed.

(** C8.  [customizeVM] and [resetVM] return nil for every sandbox:
    [customizeVM] only overwrites the stored VMConfig and [resetVM] only
    empties the container map.  Hence the customize-failure fallback of
    [Acquire] never runs: a hit returns the dequeued sandbox without any
    call to the manager (its index and the trace are as before), and the
    result of [Acquire] does not depend on what the fallback's destroy
    would answer.  Likewise the result of [Release] does not depend on what
    the destroy of its reset-failure branch would answer, and [Release]
    never logs that branch's warning. *)
Theorem customizeVM_resetVM_never_fail :
  (∀ l config s sb, heap s !! l = Some sb →
     Pool_customizeVM l config s = (Ret None, set_heap (<[l := set_VMConfig config sb]>) s))
  ∧ (∀ l s sb, heap s !! l = Some sb →
       Pool_resetVM l s = (Ret None, set_heap (<[l := set_Containers ∅ sb]>) s))
  ∧ (∀ o config s l rest sb,
       buf (available (pool s)) = l :: rest → heap s !! l = Some sb →
       ∃ s', Pool_Acquire o config s = (Ret (OK l), s')
             ∧ manager s' = manager s ∧ trace s' = trace s)
  ∧ (∀ o d config s,
       Pool_Acquire o config s =
       Pool_Acquire {| ao_destroy := d; ao_create := ao_create o |} config s)
  ∧ (∀ o d l s, Pool_Release o l s = Pool_Release (with_destroy_reset d o) l s)
  ∧ (∀ o l s sb, heap s !! l = Some sb →
       ∃ evs, trace (Pool_Release o l s).2 = trace s ++ evs ∧ reset_warning ∉ evs).
Proof.
  split; [exact Pool_customizeVM_spec|].
  split; [exact Pool_resetVM_spec|].
  split.
  { intros o config s l rest sb Hb H. eexists. split; [by apply Pool_Acquire_hit|done]. }
  split; [exact Pool_Acquire_destroy_oracle|].
  split; [exact Pool_Release_reset_oracle|exact Pool_Release_trace].
Qed.

(** ** The statistics of the pool *)

#[local] Instance same_stats_preorder : PreOrder same_stats.
Proof. split; [by intros s|]. intros s1 s2 s3 H1 H2. unfold same_stats in *. congruence. Qed.

Ltac stats_walk := preserves_walk ltac:(reflexivity).

Lemma Manager_CreateVM_stats o config : preserves same_stats (Manager_CreateVM o config).
Proof. unfold Manager_CreateVM. stats_walk. Qed.

Lemma Manager_StopVM_stats o l : preserves same_stats (Manager_StopVM o l).
Proof. unfold Manager_StopVM. stats_walk. Qed.

Lemma Manager_DestroyVM_stats o l : preserves same_stats (Manager_DestroyVM o l).
Proof.
  unfold Manager_DestroyVM. stats_walk; try apply Manager_StopVM_stats; stats_walk.
Qed.

Lemma Pool_createFresh_stats o config : preserves same_stats (Pool_createFresh o config).
Proof. unfold Pool_createFresh. stats_walk; try apply Manager_CreateVM_stats; stats_walk. Qed.

Lemma Pool_customizeVM_stats l config : preserves same_stats (Pool_customizeVM l config).
Proof. unfold Pool_customizeVM. stats_walk. Qed.

Lemma Pool_resetVM_stats l : preserves same_stats (Pool_resetVM l).
Proof. unfold Pool_resetVM. stats_walk. Qed.

Lemma Pool_Release_stats o l : preserves same_stats (Pool_Release o l).
Proof.
  unfold Pool_Release. stats_walk;
    try apply Manager_DestroyVM_stats; try apply Pool_resetVM_stats; stats_walk.
Qed.

Lemma SnapshotManager_RestoreFromSnapshot_stats o snap :
  preserves same_stats (SnapshotManager_RestoreFromSnapshot o snap).
Proof. unfold SnapshotManager_RestoreFromSnapshot, the_snapshotMgr. stats_walk. Qed.

Lemma SnapshotManager_RestoreFromGolden_stats o :
  preserves same_stats (SnapshotManager_RestoreFromGolden o).
Proof.
  unfold SnapshotManager_RestoreFromGolden, the_snapshotMgr.
  stats_walk; try apply SnapshotManager_RestoreFromSnapshot_stats.
Qed.

(** One [Pool.Acquire] adds one to [totalServed] and one to either
    [poolHits] or [poolMisses]. *)
Lemma Pool_Acquire_stats o config s :
  let st := stats (pool s) in
  let st' := stats (pool (Pool_Acquire o config s).2) in
  st' = add_poolHits (add_totalServed st) ∨ st' = add_poolMisses (add_totalServed st).
Proof.
  cbv zeta. unfold Pool_Acquire. msteps. st_simpl.
  destruct (chan_try_recv (available (pool s))) as [[x|] c].
  - left. msteps.
    match goal with
    | |- stats (pool (?k ?s1).2) = _ => apply (λ H : preserves same_stats k, H s1)
    end.
    stats_walk; try apply Pool_customizeVM_stats; try apply Manager_DestroyVM_stats;
      try apply Pool_createFresh_stats; stats_walk.
  - right. msteps.
    match goal with
    | |- stats (pool (?k ?s1).2) = _ => apply (λ H : preserves same_stats k, H s1)
    end.
    apply Pool_createFresh_stats.
Qed.

Lemma SnapshotPool_Acquire_stats o config s :
  let st := stats (pool s) in
  let st' := stats (pool (SnapshotPool_Acquire o config s).2) in
  st' = add_poolHits (add_totalServed st) ∨ st' = add_poolMisses (add_totalServed st).
Proof.
  cbv zeta. unfold SnapshotPool_Acquire.
  pose proof (Pool_Acquire_stats (sao_pool o) config s) as Hacq. cbv zeta in Hacq.
  destruct (Pool_Acquire (sao_pool o) config s) as [[r|why] s1] eqn:Hrun;
    [|by rewrite (bind_Panic _ _ _ _ _ Hrun)].
  rewrite (bind_Ret _ _ _ _ _ Hrun). cbv beta. simpl in Hacq.
  match goal with
  | |- stats (pool (?k ?s1).2) = _ ∨ _ =>
      assert (Hrest : preserves same_stats k)
  end.
  { unfold SnapshotManager_HasGoldenSnapshot, the_snapshotMgr.
    stats_walk; try apply SnapshotManager_RestoreFromGolden_stats;
      try apply Pool_customizeVM_stats; try apply Pool_createFresh_stats; stats_walk. }
  specialize (Hrest s1). unfold same_stats in Hrest. rewrite Hrest. exact Hacq.
Qed.

(** *** Arithmetic of the wrapped counters *)

Lemma wrap_int64_idemp_l a b : wrap_int64 (wrap_int64 a + b) = wrap_int64 (a + b).
Proof.
  unfold wrap_int64. f_equal.
  replace ((a + 2 ^ 63) mod 2 ^ 64 - 2 ^ 63 + b + 2 ^ 63)
    with ((a + 2 ^ 63) mod 2 ^ 64 + b) by lia.
  rewrite Zplus_mod_idemp_l. f_equal. lia.
Qed.

Lemma wrap_int64_add_l a b c :
  wrap_int64 a = wrap_int64 b → wrap_int64 (a + c) = wrap_int64 (b + c).
Proof. intros H. by rewrite <- (wrap_int64_idemp_l a), H, wrap_int64_idemp_l. Qed.

Lemma counted_hit n st : counted n st → counted (n + 1) (add_poolHits (add_totalServed st)).
Proof.
  intros [Ht Hs]. split; simpl; unfold atomic_AddInt64.
  - by rewrite Ht, wrap_int64_idemp_l.
  - rewrite wrap_int64_idemp_l.
    replace (poolHits st + 1 + poolMisses st) with (poolHits st + poolMisses st + 1) by lia.
    by apply wrap_int64_add_l.
Qed.

Lemma counted_miss n st : counted n st → counted (n + 1) (add_poolMisses (add_totalServed st)).
Proof.
  intros [Ht Hs]. split; simpl; unfold atomic_AddInt64.
  - by rewrite Ht, wrap_int64_idemp_l.
  - rewrite (Z.add_comm (poolHits st)). rewrite wrap_int64_idemp_l.
    replace (poolMisses st + 1 + poolHits st) with (poolHits st + poolMisses st + 1) by lia.
    by apply wrap_int64_add_l.
Qed.

Lemma counted_sum n st :
  counted n st → wrap_int64 (poolHits st + poolMisses st) = totalServed st.
Proof. intros [Ht Hs]. congruence. Qed.

Lemma run_op_counted op n s :
  counted n (stats (pool s)) →
  counted (n + (if is_acquire op then 1 else 0)) (stats (pool (run_op op s))).
Proof.
  intros H. destruct op as [o c|o c|o l]; simpl.
  - destruct (Pool_Acquire_stats o c s) as [-> | ->];
      [by apply counted_hit|by apply counted_miss].
  - destruct (SnapshotPool_Acquire_stats o c s) as [-> | ->];
      [by apply counted_hit|by apply counted_miss].
  - rewrite (Pool_Release_stats o l s). by rewrite Z.add_0_r.
Qed.

Lemma run_ops_counted ops n s :
  counted n (stats (pool s)) →
  counted (n + acquire_calls ops) (stats (pool (run_ops ops s))).
Proof.
  revert n s. induction ops as [|op ops IH]; intros n s H.
  - unfold acquire_calls. simpl. by rewrite Z.add_0_r.
  - unfold run_ops. simpl. fold (run_ops ops (run_op op s)).
    apply (run_op_counted op) in H. apply IH in H.
    replace (n + acquire_calls (op :: ops))
      with (n + (if is_acquire op then 1 else 0) + acquire_calls ops); [exact H|].
    unfold acquire_calls. rewrite filter_cons.
    destruct (is_acquire op); simpl; lia.
Qed.

(** *** Interleaved calls *)

Lemma filter_length_insert {A} (P : A → Prop) `{!∀ x, Decision (P x)} (l : list A) i x y :
  l !! i = Some x →
  Z.of_nat (length (filter P (<[i := y]> l))) =
  Z.of_nat (length (filter P l)) - (if decide (P x) then 1 else 0)
  + (if decide (P y) then 1 else 0).
Proof.
  revert i. induction l as [|a l IH]; intros i Hi; [done|].
  destruct i as [|i]; simpl in *.
  - injection Hi as ->. rewrite !filter_cons.
    destruct (decide (P x)), (decide (P y)); simpl; lia.
  - rewrite !filter_cons. specialize (IH i Hi).
    destruct (decide (P a)); simpl; lia.
Qed.

Lemma started_snoc_Idle ts : started (ts ++ [Idle]) = started ts.
Proof.
  unfold started. rewrite filter_app, length_app. rewrite filter_cons.
  rewrite decide_False by (by intros H; apply H). simpl. lia.
Qed.

Lemma finished_snoc_Idle ts : finished (ts ++ [Idle]) = finished ts.
Proof.
  unfold finished. rewrite filter_app, length_app. rewrite filter_cons.
  rewrite decide_False by done. simpl. lia.
Qed.

Lemma started_insert ts i x y :
  ts !! i = Some x →
  started (<[i := y]> ts) =
  started ts - (if decide (x ≠ Idle) then 1 else 0) + (if decide (y ≠ Idle) then 1 else 0).
Proof.
  intros H. unfold started. by rewrite (filter_length_insert (λ t, t ≠ Idle) _ _ _ y H).
Qed.

Lemma finished_insert ts i x y :
  ts !! i = Some x →
  finished (<[i := y]> ts) =
  finished ts - (if decide (x = Finished) then 1 else 0)
  + (if decide (y = Finished) then 1 else 0).
Proof.
  intros H. unfold finished. by rewrite (filter_length_insert (λ t, t = Finished) _ _ _ y H).
Qed.

Lemma step_conf_inv c c' : step c c' → conf_inv c → conf_inv c'.
Proof.
  intros Hstep [Ht Hs]. destruct Hstep as
    [p ts|p ts i Hi|p ts i x c Hi Hr|p ts i c Hi Hr|p ts i Hi|p ts i Hi|p p' ts Hp];
    unfold conf_inv in *; simpl in *.
  - by rewrite started_snoc_Idle, finished_snoc_Idle.
  - rewrite (started_insert _ _ _ _ Hi), (finished_insert _ _ _ _ Hi). simpl.
    split; [|by rewrite Z.sub_0_r, Z.add_0_r].
    unfold atomic_AddInt64. rewrite Ht, wrap_int64_idemp_l. f_equal. lia.
  - rewrite (started_insert _ _ _ _ Hi), (finished_insert _ _ _ _ Hi). simpl.
    split; [rewrite Ht|rewrite Hs]; f_equal; lia.
  - rewrite (started_insert _ _ _ _ Hi), (finished_insert _ _ _ _ Hi). simpl.
    split; [rewrite Ht|rewrite Hs]; f_equal; lia.
  - rewrite (started_insert _ _ _ _ Hi), (finished_insert _ _ _ _ Hi). simpl.
    split; [rewrite Ht; f_equal; lia|].
    unfold atomic_AddInt64. rewrite wrap_int64_idemp_l.
    replace (poolHits (stats p) + 1 + poolMisses (stats p))
      with (poolHits (stats p) + poolMisses (stats p) + 1) by lia.
    rewrite (wrap_int64_add_l _ _ 1 Hs). f_equal. lia.
  - rewrite (started_insert _ _ _ _ Hi), (finished_insert _ _ _ _ Hi). simpl.
    split; [rewrite Ht; f_equal; lia|].
    unfold atomic_AddInt64. rewrite (Z.add_comm (poolHits (stats p))), wrap_int64_idemp_l.
    replace (poolMisses (stats p) + 1 + poolHits (stats p))
      with (poolHits (stats p) + poolMisses (stats p) + 1) by lia.
    rewrite (wrap_int64_add_l _ _ 1 Hs). f_equal. lia.
  - by rewrite Hp.
Qed.

Lemma rtc_step_conf_inv c c' : rtc step c c' → conf_inv c → conf_inv c'.
Proof. induction 1; eauto using step_conf_inv. Qed.

Lemma started_all_Finished ts :
  Forall (λ t, t = Finished) ts →
  started ts = Z.of_nat (length ts) ∧ finished ts = Z.of_nat (length ts).
Proof.
  induction 1 as [|t ts -> _ [IH1 IH2]]; [done|].
  unfold started, finished in *. rewrite !filter_cons. simpl. lia.
Qed.

(** C4.  The counters of a pool made by [NewPool].
    (1) After any sequence of pool operations run one after the other
        (acquires through the pool or through the snapshot pool, on their
        hit, miss, restore and fallback paths, and releases in between),
        [Stats] reports [PoolHits + PoolMisses == TotalServed], and
        [TotalServed] is the number of [Acquire] calls (all as int64).
    (2) Each call of [Acquire], from any state, adds exactly one to
        [totalServed].
    (3) When calls interleave between their atomic adds, [totalServed]
        counts the calls that have passed their first add and
        [poolHits + poolMisses] those that have passed their second; once
        every call has done both, [poolHits + poolMisses == totalServed ==]
        the number of calls. *)
Theorem Acquire_counters :
  (∀ config s ops,
     pool s = NewPool config →
     ∃ st, Pool_Stats (run_ops ops s) = (Ret st, run_ops ops s)
           ∧ wrap_int64 (PoolHits st + PoolMisses st) = TotalServed st
           ∧ TotalServed st = wrap_int64 (acquire_calls ops))
  ∧ (∀ o config s,
       totalServed (stats (pool (Pool_Acquire o config s).2))
       = atomic_AddInt64 (totalServed (stats (pool s))) 1)
  ∧ (∀ o config s,
       totalServed (stats (pool (SnapshotPool_Acquire o config s).2))
       = atomic_AddInt64 (totalServed (stats (pool s))) 1)
  ∧ (∀ config c,
       rtc step {| conf_pool := NewPool config; conf_threads := [] |} c →
       let st := stats (conf_pool c) in
       totalServed st = wrap_int64 (started (conf_threads c))
       ∧ wrap_int64 (poolHits st + poolMisses st) = wrap_int64 (finished (conf_threads c))
       ∧ (Forall (λ t, t = Finished) (conf_threads c) →
          wrap_int64 (poolHits st + poolMisses st) = totalServed st
          ∧ totalServed st = wrap_int64 (Z.of_nat (length (conf_threads c))))).
Proof.
  split; [|split; [|split]].
  - intros config s ops Hp.
    assert (H0 : counted 0 (stats (pool s))) by (by rewrite Hp).
    apply (run_ops_counted ops) in H0. rewrite Z.add_0_l in H0.
    eexists. split; [reflexivity|]. simpl.
    split; [by eapply counted_sum|apply H0].
  - intros o config s. by destruct (Pool_Acquire_stats o config s) as [-> | ->].
  - intros o config s. by destruct (SnapshotPool_Acquire_stats o config s) as [-> | ->].
  - intros config c Hrtc. cbv zeta.
    apply rtc_step_conf_inv in Hrtc; [|by split].
    destruct Hrtc as [Ht Hs]. split; [exact Ht|]. split; [exact Hs|].
    intros Hall. destruct (started_all_Finished _ Hall) as [H1 H2].
    rewrite Hs, Ht, H1, H2. done.
Qed.

(** ** Creating and restoring VMs *)

Lemma Manager_CreateVM_ok o config s machine :
  co_mkdir o = None → co_machine o = OK machine → co_start o = None →
  Manager_CreateVM o config s = (Ret (OK (fresh (dom (heap s)))), created_state o config machine s).
Proof.
  intros Hmk Hma Hst. unfold Manager_CreateVM. msteps. st_simpl. rewrite Hmk. msteps.
  rewrite Hma. msteps. rewrite Hst. msteps.
  unfold ret, created_state. f_equal. apply St_eq; st_simpl; try reflexivity.
  - rewrite !alter_insert_eq. reflexivity.
  - unfold create_events. rewrite <- !app_assoc. simpl. do 3 f_equal.
Qed.

Lemma Pool_createFresh_ok o config s machine :
  co_mkdir o = None → co_machine o = OK machine → co_start o = None →
  Pool_createFresh o config s =
    (Ret (OK (fresh (dom (heap s)))),
     set_pool (set_inUse (<[generateID (co_nano o) := fresh (dom (heap s))]>))
       (created_state o config machine s)).
Proof.
  intros Hmk Hma Hst. unfold Pool_createFresh.
  erewrite bind_Ret by (by apply Manager_CreateVM_ok). cbv beta iota.
  unfold created_state. by msteps.
Qed.

(** C1, as the code has it.  [SnapshotPool.Acquire] first calls the
    embedded [Pool.Acquire], which on a miss already creates a fresh VM
    through the lifecycle manager.  So whenever the ready queue is empty and
    that creation succeeds, the sandbox returned is the freshly booted one,
    whether or not a snapshot manager is configured and a golden snapshot
    exists: the machine is started without snapshot parameters, the sandbox
    is not marked [FromPool], and the snapshot manager is not consulted. *)
Theorem SnapshotPool_Acquire_miss_creates_fresh
    (o : SnapAcquireOracle) (config : VMConfig) (s : St) (machine : Machine) :
  let c := ao_create (sao_pool o) in
  let l := fresh (dom (heap s)) in
  buf (available (pool s)) = [] → chan_closed (available (pool s)) = false →
  co_mkdir c = None → co_machine c = OK machine → co_start c = None →
  ∃ s' sb fc,
    SnapshotPool_Acquire o config s = (Ret (OK l), s')
    ∧ heap s' !! l = Some sb ∧ ID sb = generateID (co_nano c) ∧ FromPool sb = false
    ∧ trace s' = trace s ++ [EvMkdirAll (sandbox_dir (mgr_config (manager s))
                                           (generateID (co_nano c)));
                             EvNewMachine fc; EvMachineStart machine]
    ∧ FcSnapshot fc = None
    ∧ snapshotMgr s' = snapshotMgr s
    ∧ poolMisses (stats (pool s')) = atomic_AddInt64 (poolMisses (stats (pool s))) 1.
Proof.
  intros c l Hb Hc Hmk Hma Hst. unfold SnapshotPool_Acquire.
  erewrite bind_Ret; cycle 1.
  { rewrite Pool_Acquire_miss by done. by apply Pool_createFresh_ok. }
  cbv beta iota. unfold ret. eexists _, _, _. split; [reflexivity|].
  unfold created_state. st_simpl. rewrite lookup_insert_eq.
  split; [reflexivity|]. split; [reflexivity|]. split; [reflexivity|].
  split; [reflexivity|]. split; [reflexivity|]. split; reflexivity.
Qed.

(** ** Restoring from a snapshot *)

Lemma SnapshotManager_RestoreFromSnapshot_ok o snap s sm machine :
  snapshotMgr s = Some sm → Enabled (sm_config sm) = true →
  co_mkdir o = None → co_machine o = OK machine → co_start o = None →
  SnapshotManager_RestoreFromSnapshot o snap s =
    (Ret (OK (fresh (dom (heap s)))), restored_state (sm_config sm) o snap machine s).
Proof.
  intros Hsm Hen Hmk Hma Hst. unfold SnapshotManager_RestoreFromSnapshot, the_snapshotMgr.
  msteps. rewrite Hsm. msteps. rewrite Hen. cbn [negb]. msteps. rewrite Hmk. msteps.
  rewrite Hma. msteps. rewrite Hst. msteps.
  unfold ret, restored_state. st_simpl. f_equal. apply St_eq; st_simpl; try reflexivity.
  - rewrite !alter_insert_eq. reflexivity.
  - unfold restore_events. rewrite <- !app_assoc. reflexivity.
Qed.

Lemma SnapshotManager_RestoreFromGolden_ok o golden s sm machine :
  snapshotMgr s = Some sm → Enabled (sm_config sm) = true → goldenSnapshot sm = Some golden →
  co_mkdir o = None → co_machine o = OK machine → co_start o = None →
  SnapshotManager_RestoreFromGolden o s =
    (Ret (OK (fresh (dom (heap s)))), restored_state (sm_config sm) o golden machine s).
Proof.
  intros Hsm Hen Hg Hmk Hma Hst. unfold SnapshotManager_RestoreFromGolden, the_snapshotMgr.
  msteps. rewrite Hsm. msteps. rewrite Hg.
  by eapply SnapshotManager_RestoreFromSnapshot_ok.
Qed.

#[local] Instance grows_preorder : PreOrder grows.
Proof.
  split; [by intros s|].
  intros s1 s2 s3 (H1 & H2 & H3 & H4 & H5) (H1' & H2' & H3' & H4' & H5').
  unfold grows. repeat split; try congruence. set_solver.
Qed.

Lemma Manager_CreateVM_fail o config s :
  create_fails o →
  ∃ e s1, Manager_CreateVM o config s = (Ret (Error e), s1) ∧ grows s s1.
Proof.
  unfold create_fails. intros Hf. unfold Manager_CreateVM. msteps. st_simpl.
  destruct (co_mkdir o) as [e1|].
  { eexists _, _. split; [reflexivity|]. unfold grows. st_simpl.
    rewrite dom_alter_L, dom_insert_L. repeat split. set_solver. }
  msteps. destruct (co_machine o) as [m|e2].
  2:{ eexists _, _. split; [reflexivity|]. unfold grows. st_simpl.
      rewrite !dom_alter_L, dom_insert_L. repeat split. set_solver. }
  msteps. destruct (co_start o) as [e3|]; [|done].
  eexists _, _. split; [reflexivity|]. unfold grows. st_simpl.
  rewrite !dom_alter_L, dom_insert_L. repeat split. set_solver.
Qed.

Lemma Pool_Acquire_miss_fail o config s :
  buf (available (pool s)) = [] → chan_closed (available (pool s)) = false →
  create_fails (ao_create o) →
  ∃ e s1, Pool_Acquire o config s = (Ret (Error e), s1) ∧ grows (miss_state s) s1.
Proof.
  intros Hb Hc Hf. rewrite Pool_Acquire_miss by done. unfold Pool_createFresh.
  destruct (Manager_CreateVM_fail _ config (miss_state s) Hf) as (e & s1 & Hrun & Hg).
  rewrite (bind_Ret _ _ _ _ _ Hrun). by eauto.
Qed.

(** C2, on the restore path.  When the ready queue is empty, the fresh
    create of the embedded [Pool.Acquire] fails and the restore from the
    golden snapshot succeeds, [SnapshotPool.Acquire] returns the restored
    sandbox without recording it: the in-use map is the one from before the
    call, and no entry of it is the returned sandbox. *)
Theorem SnapshotPool_Acquire_restore_not_in_use
    (o : SnapAcquireOracle) (config : VMConfig) (s : St) (sm : SnapshotManager)
    (golden : Snapshot) (machine : Machine) :
  buf (available (pool s)) = [] → chan_closed (available (pool s)) = false →
  create_fails (ao_create (sao_pool o)) →
  snapshotMgr s = Some sm → Enabled (sm_config sm) = true →
  goldenSnapshot sm = Some golden →
  co_mkdir (sao_restore o) = None → co_machine (sao_restore o) = OK machine →
  co_start (sao_restore o) = None →
  inUse_live s →
  ∃ l s' sb,
    SnapshotPool_Acquire o config s = (Ret (OK l), s')
    ∧ heap s' !! l = Some sb ∧ ID sb = restored_id (sao_restore o) ∧ FromPool sb = true
    ∧ (l ∉ buf (available (pool s')))
    ∧ inUse (pool s') = inUse (pool s)
    ∧ (∀ id, ¬ (inUse (pool s') !! id = Some l)).
Proof.
  intros Hb Hc Hf Hsm Hen Hg Hmk Hma Hst Hlive. unfold SnapshotPool_Acquire.
  destruct (Pool_Acquire_miss_fail (sao_pool o) config s Hb Hc Hf)
    as (e & s1 & Hrun & Hd & Hp & Hs & Hx1 & Hx2).
  rewrite (bind_Ret _ _ _ _ _ Hrun). cbv beta iota.
  unfold miss_state in *. st_simpl in Hd. st_simpl in Hp. st_simpl in Hs.
  rewrite Hsm in Hs.
  msteps. rewrite Hs. unfold SnapshotManager_HasGoldenSnapshot, the_snapshotMgr.
  msteps. rewrite Hs. msteps. rewrite Hg.
  rewrite bool_decide_true by done. cbv iota. rewrite bind_bind.
  erewrite bind_Ret by (by eapply SnapshotManager_RestoreFromGolden_ok).
  cbv beta iota. rewrite bind_bind.
  erewrite bind_Ret; cycle 1.
  { apply Pool_customizeVM_spec. unfold restored_state. heap_lookup. }
  msteps. unfold ret.
  eexists _, _, _. split; [reflexivity|].
  unfold restored_state. st_simpl. rewrite lookup_insert_eq.
  split; [reflexivity|]. split; [reflexivity|]. split; [reflexivity|].
  rewrite Hp. st_simpl. rewrite Hb.
  split; [apply not_elem_of_nil|]. split; [reflexivity|].
  intros id Hin. apply Hlive in Hin. apply Hd in Hin. by apply is_fresh in Hin.
Qed.

(** On the paths of [Pool.Acquire] itself, the hit and the fresh create,
    the returned sandbox is in the in-use map under its id and not in the
    ready queue. *)
Lemma Pool_Acquire_in_use o config s l s' :
  ready_wf s → Pool_Acquire o config s = (Ret (OK l), s') →
  ∃ sb, heap s' !! l = Some sb ∧ inUse (pool s') !! ID sb = Some l
        ∧ l ∉ buf (available (pool s')).
Proof.
  intros [Hnd Hlive] Hrun. destruct (buf (available (pool s))) as [|l0 rest] eqn:Hb.
  - destruct (chan_closed (available (pool s))) eqn:Hc.
    { destruct (Pool_Acquire_closed o config s Hb Hc) as [s0 Hp]. congruence. }
    rewrite Pool_Acquire_miss in Hrun by done.
    destruct (co_mkdir (ao_create o)) as [e1|] eqn:Hmk;
      [|destruct (co_machine (ao_create o)) as [m|e2] eqn:Hma;
        [destruct (co_start (ao_create o)) as [e3|] eqn:Hst|]].
    3:{ rewrite (Pool_createFresh_ok _ _ _ _ Hmk Hma Hst) in Hrun.
        injection Hrun as <- <-. unfold created_state, miss_state. st_simpl.
        rewrite lookup_insert_eq. eexists. split; [reflexivity|].
        split; [apply lookup_insert_eq|]. rewrite Hb. apply not_elem_of_nil. }
    all: unfold Pool_createFresh in Hrun;
      destruct (Manager_CreateVM_fail (ao_create o) config (miss_state s))
        as (e & s1 & Hf & Hg);
      [unfold create_fails; by rewrite ?Hmk, ?Hma, ?Hst|];
      rewrite (bind_Ret _ _ _ _ _ Hf) in Hrun; discriminate.
  - assert (Hl0 : l0 ∈ dom (heap s)) by (apply Hlive; by left).
    apply elem_of_dom in Hl0 as [sb Hl0].
    rewrite (Pool_Acquire_hit _ _ _ _ _ _ Hb Hl0) in Hrun. injection Hrun as <- <-.
    unfold hit_state. st_simpl. rewrite lookup_insert_eq.
    eexists. split; [reflexivity|]. split; [apply lookup_insert_eq|].
    simpl. by apply NoDup_cons_1_1 in Hnd.
Qed.

(** ** Snapshot cleanup *)

Lemma SnapshotManager_Cleanup_spec order s sm :
  snapshotMgr s = Some sm →
  ∃ s', SnapshotManager_Cleanup order s = (Ret None, s')
        ∧ snapshotMgr s' = Some (set_snapshots (λ _, cleaned_snapshots order sm) sm).
Proof.
  intros Hsm. unfold SnapshotManager_Cleanup, the_snapshotMgr, cleaned_snapshots.
  msteps. rewrite Hsm. msteps. case_decide.
  - eexists. split; [reflexivity|]. rewrite Hsm. by destruct sm.
  - destruct (find_oldest _) as [oldest|]; msteps.
    + eexists. split; [reflexivity|]. st_simpl. by rewrite Hsm.
    + eexists. split; [reflexivity|]. rewrite Hsm. by destruct sm.
Qed.

Lemma cleaned_snapshots_size order sm :
  (size (snapshots sm) ≤ S (size (cleaned_snapshots order sm)))%nat.
Proof.
  unfold cleaned_snapshots. case_decide; [lia|].
  destruct (find_oldest _) as [oldest|]; [|lia].
  rewrite map_size_delete. destruct (snapshots sm !! SnapName oldest); simpl; lia.
Qed.

(** C5, what the code does.  One call of [Cleanup] deletes at most one
    snapshot, whatever the order in which the map is walked.  So when the
    store holds more than [MaxCached + 1] snapshots, it still holds more
    than [MaxCached] after the call. *)
Theorem SnapshotManager_Cleanup_removes_at_most_one
    (order : list (string * Snapshot) → list (string * Snapshot)) (s : St)
    (sm : SnapshotManager) :
  snapshotMgr s = Some sm →
  ∃ s' sm',
    SnapshotManager_Cleanup order s = (Ret None, s')
    ∧ snapshotMgr s' = Some sm' ∧ sm_config sm' = sm_config sm
    ∧ (size (snapshots sm) ≤ S (size (snapshots sm')))%nat
    ∧ (Z.of_nat (size (snapshots sm)) > MaxCached (sm_config sm) + 1 →
       Z.of_nat (size (snapshots sm')) > MaxCached (sm_config sm')).
Proof.
  intros Hsm. destruct (SnapshotManager_Cleanup_spec order s sm Hsm) as (s' & Hrun & Hs').
  eexists _, _. split; [exact Hrun|]. split; [exact Hs'|]. split; [reflexivity|].
  pose proof (cleaned_snapshots_size order sm) as Hsize.
  split; [exact Hsize|]. simpl. lia.
Qed.

Ltac in_snoc :=
  apply elem_of_app; first [left; assumption | right; by apply list_elem_of_singleton].

(** The snapshot the loop of [Cleanup] settles on is a non-golden one of
    the entries it walked, and none of the non-golden ones is older. *)
Lemma find_oldest_spec entries oldest :
  find_oldest entries = Some oldest →
  oldest ∈ entries.*2 ∧ IsGolden oldest = false
  ∧ ∀ snap, snap ∈ entries.*2 → IsGolden snap = false →
      SnapCreatedAt oldest <= SnapCreatedAt snap.
Proof.
  unfold find_oldest.
  assert (Hgen : ∀ (acc : option Snapshot) (seen : list Snapshot),
            (∀ a, acc = Some a → a ∈ seen ∧ IsGolden a = false
               ∧ ∀ snap, snap ∈ seen → IsGolden snap = false →
                   SnapCreatedAt a <= SnapCreatedAt snap) →
            (acc = None → ∀ snap, snap ∈ seen → IsGolden snap = true) →
            foldl (λ oldest e, older oldest e.2) acc entries = Some oldest →
            oldest ∈ seen ++ entries.*2 ∧ IsGolden oldest = false
            ∧ ∀ snap, snap ∈ seen ++ entries.*2 → IsGolden snap = false →
                SnapCreatedAt oldest <= SnapCreatedAt snap).
  { induction entries as [|[k v] entries IH]; intros acc seen Hacc Hnone Hfold.
    - simpl in *. rewrite app_nil_r. by apply Hacc.
    - simpl in Hfold. cbn [fmap list_fmap snd].
      replace (seen ++ v :: entries.*2) with ((seen ++ [v]) ++ entries.*2)
        by (by rewrite <- app_assoc).
      apply (IH _ (seen ++ [v])) in Hfold; [exact Hfold| |].
      + intros a Ha. unfold older in Ha. destruct (IsGolden v) eqn:Hg.
        * destruct (Hacc a Ha) as (H1 & H2 & H3). split; [in_snoc|]. split; [done|].
          intros snap Hin Hng. apply elem_of_app in Hin as [Hin|Hin]; [by apply H3|].
          apply list_elem_of_singleton in Hin as ->. congruence.
        * destruct acc as [o|].
          -- destruct (Hacc o eq_refl) as (H1 & H2 & H3). case_decide.
             ++ injection Ha as <-. split; [in_snoc|]. split; [done|].
                intros snap Hin Hng. apply elem_of_app in Hin as [Hin|Hin].
                ** specialize (H3 snap Hin Hng). lia.
                ** apply list_elem_of_singleton in Hin as ->. lia.
             ++ injection Ha as <-. split; [in_snoc|]. split; [done|].
                intros snap Hin Hng. apply elem_of_app in Hin as [Hin|Hin].
                ** by apply H3.
                ** apply list_elem_of_singleton in Hin as ->. lia.
          -- injection Ha as <-. split; [in_snoc|]. split; [done|].
             intros snap Hin Hng. apply elem_of_app in Hin as [Hin|Hin].
             ++ rewrite (Hnone eq_refl snap Hin) in Hng. discriminate.
             ++ apply list_elem_of_singleton in Hin as ->. lia.
      + intros Ha snap Hin. unfold older in Ha. destruct (IsGolden v) eqn:Hg.
        * apply elem_of_app in Hin as [Hin|Hin]; [by apply Hnone|].
          by apply list_elem_of_singleton in Hin as ->.
        * destruct acc; [case_decide|]; discriminate. }
  intros Hfold. apply (Hgen None []) in Hfold; [exact Hfold|discriminate|].
  intros _ snap Hin. by apply elem_of_nil in Hin.
Qed.

(** ** Agent client *)

Lemma Client_call_spec o req s cl cn :
  agentClient s = Some cl → conn cl = Some cn →
  Client_call o req s =
    (Ret (call_result o (wrap_uint64 (requestID cl + 1))),
     called_state cn o req (wrap_uint64 (requestID cl + 1)) s).
Proof.
  intros Hcl Hcn. unfold Client_call, the_client. msteps. rewrite Hcl. msteps.
  rewrite Hcn. msteps. unfold call_result, called_state, call_events.
  destruct (call_encode o) as [e|]; [reflexivity|]. msteps.
  destruct (call_decode o) as [resp|e].
  - cbn [ReqID]. case_decide; unfold ret; f_equal; apply St_eq; st_simpl;
      first [reflexivity | by rewrite <- app_assoc].
  - unfold ret; f_equal; apply St_eq; st_simpl; first [reflexivity | by rewrite <- app_assoc].
Qed.

Lemma Client_call_trace o req s cl cn :
  agentClient s = Some cl → conn cl = Some cn →
  trace (Client_call o req s).2 =
  trace s ++ call_events cn o req (wrap_uint64 (requestID cl + 1)).
Proof. intros Hcl Hcn. by rewrite (Client_call_spec _ _ _ _ _ Hcl Hcn). Qed.

Lemma Client_StopContainer_trace o c t s cl cn :
  agentClient s = Some cl → conn cl = Some cn →
  trace (Client_StopContainer o c t s).2 =
  trace s ++ EvEncode cn (stop_container_frame (wrap_uint64 (requestID cl + 1)) c t)
          :: (if call_encode o is None then [EvDecode cn] else []).
Proof.
  intros Hcl Hcn. unfold Client_StopContainer.
  erewrite bind_Ret by (by apply Client_call_spec).
  cbv beta.
  match goal with
  | |- trace (match ?r with _ => _ end ?s1).2 = _ => transitivity (trace s1)
  end.
  { destruct (call_result o _) as [resp|e]; [destruct (RespError resp)|]; reflexivity. }
  unfold called_state, call_events. st_simpl. do 3 f_equal.
Qed.

(** Both ends of the connection use the key "timeout": the agent reads
    back what the client wrote, and would fall back to its default of 10 s
    on a request that carried "timeout_seconds" instead. *)
Lemma Agent_stopContainer_reads_timeout c t :
  Duration_Seconds_int t ≠ 0 →
  Agent_stopContainer_timeout (stop_container_params c t)
  = inject_Z (Duration_Seconds_int t).
Proof.
  intros Hne. unfold Agent_stopContainer_timeout, stop_container_params.
  rewrite lookup_insert_ne by done. rewrite lookup_insert_eq. cbv zeta.
  unfold JInt, Qeq_bool. cbn [Qnum Qden inject_Z].
  destruct (Z.eqb_spec (Duration_Seconds_int t * 1) (0 * 1)); [lia|done].
Qed.

Lemma Agent_stopContainer_ignores_timeout_seconds c (secs : Z) :
  Agent_stopContainer_timeout (<["id" := JStr c]> (<["timeout_seconds" := JInt secs]> ∅))
  = inject_Z 10.
Proof. unfold Agent_stopContainer_timeout. by rewrite !lookup_insert_ne. Qed.

(** C7, as the code has it.  For every [StopContainer] call on a connected
    client, with container id [c] and timeout [t], exactly one request is
    written to the connection; its method is "stop_container" and its
    params object has the two keys "id", equal to [c], and "timeout" (not
    "timeout_seconds"), equal to [int(t.Seconds())].  That number is [t]
    in whole seconds for every timeout shorter than 2^24 seconds; for a
    longer one the float sum inside [Seconds] can round up to the next
    second, so that it is [t] in whole seconds or one second further from
    zero. *)
Theorem Client_StopContainer_request
    (o : CallOracle) (c : string) (t : time_Duration) (s : St) (cl : Client) (cn : Conn) :
  agentClient s = Some cl → conn cl = Some cn → - 2 ^ 63 ≤ t < 2 ^ 63 →
  ∃ f rest,
    trace (Client_StopContainer o c t s).2 = trace s ++ EvEncode cn f :: rest
    ∧ (∀ cn' f', EvEncode cn' f' ∉ rest)
    ∧ frame_id f = wrap_uint64 (requestID cl + 1)
    ∧ frame_method f = "stop_container"
    ∧ ∃ params,
        frame_params f = Some params
        ∧ dom params = {["id"; "timeout"]}
        ∧ params !! "id" = Some (JStr c)
        ∧ params !! "timeout" = Some (JInt (Duration_Seconds_int t))
        ∧ params !! "timeout_seconds" = None
        ∧ (Z.abs t < 2 ^ 24 * Second → Duration_Seconds_int t = Z.quot t Second)
        ∧ (Duration_Seconds_int t = Z.quot t Second
           ∨ Duration_Seconds_int t = Z.quot t Second + Z.sgn t).
Proof.
  intros Hcl Hcn Ht. eexists _, _. split; [by apply Client_StopContainer_trace|].
  split.
  { intros cn' f'. destruct (call_encode o); rewrite ?not_elem_of_cons;
      repeat split; try discriminate; apply not_elem_of_nil. }
  split; [reflexivity|]. split; [reflexivity|].
  eexists. split; [reflexivity|]. unfold stop_container_params.
  split; [rewrite !dom_insert_L; set_solver|].
  split; [by rewrite lookup_insert_eq|].
  split; [by rewrite lookup_insert_ne, lookup_insert_eq|].
  split; [by rewrite !lookup_insert_ne|].
  split; [apply Duration_Seconds_int_small|by apply Duration_Seconds_int_near].
Qed.

(** C10.  When the agent answers [start_container] with the id of the
    request, no error and a result object without a numeric "pid",
    [StartContainer] returns pid 0 and a nil error, and [Service.Start]
    records pid 0 for the process and returns it. *)
Theorem StartContainer_missing_pid
    (o : CallOracle) (r : TaskRequest) (s : St) (cl : Client) (cn : Conn)
    (proc : processState) (resp : Response) (fields : list (string * json)) :
  agentClient s = Some cl → conn cl = Some cn →
  processes (service s) !! procID_of r = Some proc →
  call_encode o = None → call_decode o = OK resp →
  RespID resp = wrap_uint64 (requestID cl + 1) →
  RespError resp = None → Result resp = Some (JObj fields) →
  (∀ f, obj_lookup "pid" fields ≠ Some (JNum f)) →
  (Client_StartContainer o (containerID proc) s).1 = Ret (OK 0)
  ∧ ∃ s', Service_Start o r s = (Ret (OK 0), s')
          ∧ processes (service s') !! procID_of r = Some (set_proc_pid 0 proc).
Proof.
  intros Hcl Hcn Hproc Henc Hdec Hid Herr Hres Hpid.
  assert (Hstart : ∃ s1, Client_StartContainer o (containerID proc) s = (Ret (OK 0), s1)
                         ∧ service s1 = service s).
  { unfold Client_StartContainer.
    erewrite bind_Ret by (by apply Client_call_spec). cbv beta.
    unfold call_result. rewrite Henc, Hdec.
    rewrite decide_False by (by intros H; apply H).
    rewrite Herr, Hres.
    destruct (obj_lookup "pid" fields) as [[| | f | | |]|] eqn:Hl;
      try (eexists; split; reflexivity).
    by destruct (Hpid f). }
  destruct Hstart as (s1 & Hstart & Hsvc). split; [by rewrite Hstart|].
  unfold Service_Start. msteps. rewrite Hproc.
  rewrite (bind_Ret _ _ _ _ _ Hstart). msteps. unfold ret.
  eexists. split; [reflexivity|]. st_simpl. cbn [processes set_processes].
  by rewrite lookup_insert_eq.
Qed.

(** ** Connecting to the agent *)







(** ** The theorems at sample inputs *)

Example filepath_Dir_memory :
  filepath_Dir "/var/lib/fc-cri/snapshots/a/memory" = "/var/lib/fc-cri/snapshots/a"
  ∧ filepath_Dir "memory" = "." ∧ filepath_Dir "/memory" = "/".
Proof. repeat split. Qed.

(** [int(d.Seconds())] at 2^24 seconds less one nanosecond, and one second
    later. *)
Example Duration_Seconds_int_rounds_up :
  Duration_Seconds_int (16777215 * Second + 999999999) = 16777215
  ∧ Duration_Seconds_int (16777216 * Second + 999999999) = 16777217
  ∧ Duration_Seconds_int (- (16777216 * Second + 999999999)) = -16777217.
Proof. vm_compute. repeat split. Qed.

Example generateID_100 :
  generateID 100 = "fc-100" ∧ restored_id (create_ok 101 8%positive) = "fc-snap-101".
Proof. split; reflexivity. Qed.

(** C1 at the failing input: the ready queue is empty and a golden
    snapshot exists, yet the sandbox returned is "fc-100", booted fresh. *)
Lemma SnapshotPool_Acquire_miss_creates_fresh_witness :
  SnapshotManager_HasGoldenSnapshot golden_state = (Ret true, golden_state)
  ∧ ∃ s' sb fc,
      SnapshotPool_Acquire snap_acquire_ok DefaultVMConfig golden_state
        = (Ret (OK 1%positive), s')
      ∧ heap s' !! 1%positive = Some sb ∧ ID sb = "fc-100" ∧ FromPool sb = false
      ∧ trace s' = [EvMkdirAll "/run/fc-cri/fc-100"; EvNewMachine fc;
                    EvMachineStart 7%positive]
      ∧ FcSnapshot fc = None
      ∧ snapshotMgr s' = Some golden_manager
      ∧ poolMisses (stats (pool s')) = 1.
Proof.
  split; [reflexivity|].
  exact (SnapshotPool_Acquire_miss_creates_fresh snap_acquire_ok DefaultVMConfig
           golden_state 7%positive eq_refl eq_refl eq_refl eq_refl eq_refl).
Defined.

(** C2 at the failing input: the fresh create fails, the golden snapshot
    is restored, and the restored sandbox "fc-snap-101" is returned with
    the in-use map still empty. *)
Lemma SnapshotPool_Acquire_restore_not_in_use_witness :
  ∃ l s' sb,
    SnapshotPool_Acquire snap_acquire_restore DefaultVMConfig golden_state
      = (Ret (OK l), s')
    ∧ heap s' !! l = Some sb ∧ ID sb = "fc-snap-101" ∧ FromPool sb = true
    ∧ (l ∉ buf (available (pool s')))
    ∧ inUse (pool s') = ∅
    ∧ (∀ id, ¬ (inUse (pool s') !! id = Some l)).
Proof.
  apply (SnapshotPool_Acquire_restore_not_in_use snap_acquire_restore DefaultVMConfig
           golden_state golden_manager golden_snapshot 8%positive);
    try reflexivity.
  intros id l Hin. vm_compute in Hin. discriminate.
Defined.



(** C4 at a sample input: an acquire (miss), a release, an acquire (hit)
    and an acquire through the snapshot pool, on a fresh pool. *)
Lemma Acquire_counters_witness :
  let ops := [OpAcquire (acquire_ok 100) DefaultVMConfig;
              OpRelease (release_ok 200) 1%positive;
              OpAcquire (acquire_ok 300) DefaultVMConfig;
              OpSnapshotAcquire snap_acquire_later DefaultVMConfig] in
  ∃ st, Pool_Stats (run_ops ops sample_state) = (Ret st, run_ops ops sample_state)
        ∧ wrap_int64 (PoolHits st + PoolMisses st) = TotalServed st
        ∧ TotalServed st = wrap_int64 (acquire_calls ops).
Proof.
  apply (proj1 Acquire_counters DefaultPoolConfig sample_state). reflexivity.
Defined.

Example counters_sample :
  (Pool_Stats (run_ops [OpAcquire (acquire_ok 100) DefaultVMConfig;
                        OpRelease (release_ok 200) 1%positive;
                        OpAcquire (acquire_ok 300) DefaultVMConfig;
                        OpSnapshotAcquire snap_acquire_later DefaultVMConfig] sample_state)).1
  = Ret {| Available := 0; InUse := 2; StatsMaxSize := 10;
           TotalServed := 3; PoolHits := 1; PoolMisses := 2 |}.
Proof. vm_compute. reflexivity. Qed.

(** C5 at the failing input: three non-golden snapshots and
    [MaxCached = 1]; after [Cleanup] two are left. *)
Lemma SnapshotManager_Cleanup_removes_at_most_one_witness :
  ∃ s' sm',
    SnapshotManager_Cleanup id crowded_state = (Ret None, s')
    ∧ snapshotMgr s' = Some sm' ∧ sm_config sm' = sm_config crowded_manager
    ∧ (size (snapshots crowded_manager) ≤ S (size (snapshots sm')))%nat
    ∧ (Z.of_nat (size (snapshots crowded_manager)) > MaxCached (sm_config crowded_manager) + 1 →
       Z.of_nat (size (snapshots sm')) > MaxCached (sm_config sm')).
Proof.
  apply (SnapshotManager_Cleanup_removes_at_most_one id crowded_state crowded_manager).
  reflexivity.
Defined.

Example Cleanup_crowded :
  (size <$> (snapshots <$> snapshotMgr (SnapshotManager_Cleanup id crowded_state).2))
  = Some 2%nat
  ∧ (snapshots <$> snapshotMgr (SnapshotManager_Cleanup id crowded_state).2)
    = Some (<["b" := sample_snapshot "b" 2 false]>
              (<["c" := sample_snapshot "c" 3 false]> ∅))
  ∧ Z.of_nat (size (snapshots crowded_manager)) > MaxCached (sm_config crowded_manager) + 1.
Proof. vm_compute. repeat split. Qed.

(** C6 at a sample input: the VM of [one_vm_state] stopped at time 200
    and again at time 300. *)
Lemma Manager_StopVM_again_witness :
  ∃ sb1 m,
    heap (Manager_StopVM (stop_ok 200) 1%positive one_vm_state).2 !! 1%positive = Some sb1
    ∧ VM sb1 = Some m ∧ State sb1 = SandboxStopped ∧ FinishedAt sb1 = 200
    ∧ Manager_StopVM (stop_ok 300) 1%positive
        (Manager_StopVM (stop_ok 200) 1%positive one_vm_state).2 =
        (Ret None,
         set_heap (<[1%positive := set_FinishedAt 300 sb1]>)
           (set_trace (λ t, t ++ stop_events (stop_ok 300) m)
              (Manager_StopVM (stop_ok 200) 1%positive one_vm_state).2)).
Proof.
  apply (Manager_StopVM_again (stop_ok 200) (stop_ok 300) 1%positive one_vm_state).
  vm_compute. reflexivity.
Defined.

(** C6 as the specification states it fails there: the second [StopVM]
    moves the finished-at timestamp from 200 to 300. *)
Lemma Manager_StopVM_not_idempotent :
  ¬ (∀ (o1 o2 : StopOracle) (l : loc) (s s1 s2 : St) (r : outcome (option error))
       (sb1 sb2 : Sandbox),
       Manager_StopVM o1 l s = (Ret None, s1) →
       Manager_StopVM o2 l s1 = (r, s2) →
       heap s1 !! l = Some sb1 → heap s2 !! l = Some sb2 →
       r = Ret None ∧ State sb2 = State sb1 ∧ FinishedAt sb2 = FinishedAt sb1).
Proof.
  intros Hspec.
  destruct (Manager_StopVM (stop_ok 200) 1%positive one_vm_state) as [r1 s1] eqn:H1.
  destruct (Manager_StopVM (stop_ok 300) 1%positive s1) as [r2 s2] eqn:H2.
  vm_compute in H1. injection H1 as <- <-.
  vm_compute in H2. injection H2 as <- <-.
  edestruct (Hspec (stop_ok 200) (stop_ok 300) 1%positive one_vm_state) as (_ & _ & Hfin).
  - vm_compute. reflexivity.
  - vm_compute. reflexivity.
  - vm_compute. reflexivity.
  - vm_compute. reflexivity.
  - vm_compute in Hfin. discriminate.
Qed.

(** C7 at a sample input: container "task-1", timeout 30 s. *)
Lemma Client_StopContainer_request_witness :
  ∃ f rest,
    trace (Client_StopContainer answer_ok "task-1" (30 * Second) connected_state).2
      = trace connected_state ++ EvEncode 9%positive f :: rest
    ∧ (∀ cn' f', EvEncode cn' f' ∉ rest)
    ∧ frame_id f = 2
    ∧ frame_method f = "stop_container"
    ∧ ∃ params,
        frame_params f = Some params
        ∧ dom params = {["id"; "timeout"]}
        ∧ params !! "id" = Some (JStr "task-1")
        ∧ params !! "timeout" = Some (JInt 30)
        ∧ params !! "timeout_seconds" = None.
Proof.
  destruct (Client_StopContainer_request answer_ok "task-1" (30 * Second) connected_state
              connected_client 9%positive eq_refl eq_refl)
    as (f & rest & Ht & Hrest & Hid & Hm & params & Hp & Hdom & Hc & Hto & Hts & _).
  { unfold Second. lia. }
  exists f, rest. split; [exact Ht|]. split; [exact Hrest|]. split; [exact Hid|].
  split; [exact Hm|]. exists params. split; [exact Hp|]. split; [exact Hdom|].
  split; [exact Hc|]. split; [exact Hto|exact Hts].
Defined.

(** C7 as the specification states it fails: the request for "task-1" with a
    timeout of 30 s has no "timeout_seconds". *)
Lemma Client_StopContainer_no_timeout_seconds :
  ¬ (∀ o c t s cl cn f,
       agentClient s = Some cl → conn cl = Some cn →
       EvEncode cn f ∈ trace (Client_StopContainer o c t s).2 →
       frame_method f = "stop_container"
       ∧ ∃ params,
           frame_params f = Some params
           ∧ params !! "id" = Some (JStr c)
           ∧ params !! "timeout_seconds" = Some (JInt (Z.quot t Second))).
Proof.
  intros Hspec.
  destruct (Hspec answer_ok "task-1" (30 * Second) connected_state connected_client
              9%positive (stop_container_frame 2 "task-1" (30 * Second)))
    as (_ & params & Hp & _ & Hts); [reflexivity|reflexivity| |].
  - vm_compute. apply list_elem_of_here.
  - injection Hp as <-. vm_compute in Hts. discriminate.
Qed.

(** C8 at a sample input: the VM of [one_vm_state]. *)
Lemma customizeVM_resetVM_never_fail_witness :
  ∃ sb,
    heap one_vm_state !! 1%positive = Some sb
    ∧ Pool_customizeVM 1%positive DefaultVMConfig one_vm_state
      = (Ret None, set_heap (<[1%positive := set_VMConfig DefaultVMConfig sb]>) one_vm_state)
    ∧ Pool_resetVM 1%positive one_vm_state
      = (Ret None, set_heap (<[1%positive := set_Containers ∅ sb]>) one_vm_state).
Proof.
  destruct customizeVM_resetVM_never_fail as (Hc & Hr & _).
  eexists. split; [vm_compute; reflexivity|].
  split; [apply Hc|apply Hr]; vm_compute; reflexivity.
Defined.



(** C10 at a sample input: the agent answers [{"status": "started"}]. *)
Lemma StartContainer_missing_pid_witness :
  (Client_StartContainer answer_without_pid "task-1" connected_state).1 = Ret (OK 0)
  ∧ ∃ s', Service_Start answer_without_pid start_task connected_state = (Ret (OK 0), s')
          ∧ processes (service s') !! "task-1" = Some (set_proc_pid 0 sample_proc).
Proof.
  apply (StartContainer_missing_pid answer_without_pid start_task connected_state
           connected_client 9%positive sample_proc
           {| RespID := 2; Result := Some (JObj [("status", JStr "started")]);
              RespError := None |}
           [("status", JStr "started")]); try reflexivity.
  intros f Hf. vm_compute in Hf. discriminate.
Defined.

(** * Further properties of the code *)

(** ** Pool: release, close and idle cleanup *)

#[local] Instance same_identity_preorder : PreOrder same_identity.
Proof.
  split; [by intros sb|].
  intros a b c (H1 & H2 & H3 & H4) (H1' & H2' & H3' & H4').
  unfold same_identity. repeat split; try congruence. auto.
Qed.

#[local] Instance destroys_only_preorder : PreOrder destroys_only.
Proof.
  split.
  { intros s. unfold destroys_only. repeat split; try reflexivity.
    intros l sb Hl. exists sb. split; [done|reflexivity]. }
  intros s1 s2 s3 (H1 & H2 & H3 & H4 & H5) (H1' & H2' & H3' & H4' & H5').
  unfold destroys_only. repeat split; try congruence; [|by etrans].
  intros l sb Hl. destruct (H4 l sb Hl) as (sb2 & Hl2 & Hi).
  destruct (H4' l sb2 Hl2) as (sb3 & Hl3 & Hi'). exists sb3. split; [done|by etrans].
Qed.

Lemma destroys_only_alter f l s :
  (∀ sb, same_identity sb (f sb)) → destroys_only s (set_heap (alter f l) s).
Proof.
  intros Hf. unfold destroys_only. st_simpl. repeat split; try reflexivity.
  intros l0 sb Hl0. destruct (decide (l = l0)) as [->|Hne].
  - exists (f sb). split; [by rewrite lookup_alter_eq, Hl0|apply Hf].
  - exists sb. split; [by rewrite lookup_alter_ne|reflexivity].
Qed.

Ltac destroys_leaf :=
  solve [ apply destroys_only_alter; intros ?; unfold same_identity; repeat split; done
        | unfold destroys_only; st_simpl; repeat split; try reflexivity;
          first [ by intros ? sb0 ?; exists sb0; split; [|reflexivity]
                | rewrite dom_delete_L; apply subseteq_difference_l; reflexivity ] ].

Lemma Manager_StopVM_destroys_only o l : preserves destroys_only (Manager_StopVM o l).
Proof. unfold Manager_StopVM. preserves_walk destroys_leaf. Qed.

Lemma Manager_DestroyVM_destroys_only o l : preserves destroys_only (Manager_DestroyVM o l).
Proof.
  unfold Manager_DestroyVM.
  preserves_walk destroys_leaf; try apply Manager_StopVM_destroys_only;
    preserves_walk destroys_leaf.
Qed.


Lemma Pool_Release_destroyed o l s sb :
  heap s !! l = Some sb → release_destroys o sb s →
  Pool_Release o l s =
    (Ret None,
     set_manager (set_sandboxes (delete (ID sb)))
       (set_heap (<[l := destroyed_sandbox (rel_destroy_full o) sb]>)
          (set_trace (λ t, t ++ destroy_events (mgr_config (manager s)) (rel_destroy_full o) sb)
             (set_pool (set_inUse (delete (ID sb))) s)))).
Proof.
  intros H Hd. unfold Pool_Release. msteps. st_simpl.
  rewrite decide_True by exact Hd.
  by erewrite Manager_DestroyVM_spec by heap_lookup.
Qed.

Lemma Pool_Release_queued o l s sb :
  heap s !! l = Some sb → ¬ release_destroys o sb s →
  chan_closed (available (pool s)) = false →
  Z.of_nat (length (buf (available (pool s)))) < cap (available (pool s)) →
  Pool_Release o l s =
    (Ret None,
     set_pool (set_available (set_buf (λ b, b ++ [l])))
       (set_heap (<[l := pooled_sandbox o sb]>)
          (set_pool (set_inUse (delete (ID sb))) s))).
Proof.
  intros H Hd Hc Hlen. unfold Pool_Release. msteps. st_simpl.
  rewrite decide_False by exact Hd.
  erewrite bind_Ret; cycle 1.
  { apply Pool_resetVM_spec. heap_lookup. }
  cbv beta iota. msteps. unfold chan_try_send. st_simpl. rewrite Hc.
  rewrite decide_True by exact Hlen. msteps.
  unfold ret. f_equal. apply St_eq; st_simpl; try reflexivity.
  unfold pooled_sandbox. rewrite (alter_const_lookup _ l (set_Containers ∅ sb)).
  - by rewrite insert_insert_eq.
  - by rewrite lookup_insert_eq.
Qed.

(** X1.  [Pool.Release] on a pool made by [NewPool] whose queue is open
    returns nil for every sandbox of the store and forgets it in the in-use
    map.  When the queue already holds [MaxSize] sandboxes or the VM is older
    than [MaxIdleTime], the sandbox is destroyed: its id leaves the
    manager's index and the queue is as before.  Otherwise the sandbox goes
    to the back of the queue with its container map emptied and its
    pooled-at time set, and neither the manager nor the outside world is
    touched. *)
Theorem Pool_Release_queues_or_destroys (o : ReleaseOracle) (l : loc) (s : St) (sb : Sandbox) :
  heap s !! l = Some sb → pool_sized s → chan_closed (available (pool s)) = false →
  ∃ s',
    Pool_Release o l s = (Ret None, s')
    ∧ inUse (pool s') = delete (ID sb) (inUse (pool s))
    ∧ (release_destroys o sb s →
       buf (available (pool s')) = buf (available (pool s))
       ∧ sandboxes (manager s') = delete (ID sb) (sandboxes (manager s))
       ∧ heap s' !! l = Some (destroyed_sandbox (rel_destroy_full o) sb)
       ∧ trace s' = trace s ++ destroy_events (mgr_config (manager s)) (rel_destroy_full o) sb)
    ∧ (¬ release_destroys o sb s →
       buf (available (pool s')) = buf (available (pool s)) ++ [l]
       ∧ heap s' !! l = Some (pooled_sandbox o sb)
       ∧ manager s' = manager s ∧ trace s' = trace s).
Proof.
  intros H Hsz Hc. destruct (decide (release_destroys o sb s)) as [Hd|Hd].
  - eexists. split; [by apply Pool_Release_destroyed|]. st_simpl.
    split; [reflexivity|]. split; [|done]. intros _.
    split; [reflexivity|]. split; [reflexivity|]. split; [apply lookup_insert_eq|reflexivity].
  - assert (Hlen : Z.of_nat (length (buf (available (pool s)))) < cap (available (pool s))).
    { unfold release_destroys in Hd. rewrite Hsz. lia. }
    eexists. split; [by apply Pool_Release_queued|]. st_simpl.
    split; [reflexivity|]. split; [done|]. intros _.
    split; [reflexivity|]. split; [apply lookup_insert_eq|done].
Qed.

(** X2.  A released VM is handed out again.  When the queue is empty and
    open, has room ([MaxSize > 0]) and the VM is not older than
    [MaxIdleTime], [Release] followed by [Acquire] returns the same sandbox:
    no VM is created or destroyed (the manager and the trace are as before),
    the sandbox comes back with an empty container map, the configuration of
    the new request and [FromPool] set, it is in the in-use map again, and
    the acquire counts as a pool hit. *)
Theorem Pool_Release_then_Acquire_reuses
    (o : ReleaseOracle) (oa : AcquireOracle) (config : VMConfig) (l : loc) (s : St)
    (sb : Sandbox) :
  heap s !! l = Some sb → pool_sized s →
  buf (available (pool s)) = [] → chan_closed (available (pool s)) = false →
  0 < MaxSize (pool_config (pool s)) →
  rel_now o - CreatedAt sb <= MaxIdleTime (pool_config (pool s)) →
  ∃ s1 s2,
    Pool_Release o l s = (Ret None, s1)
    ∧ Pool_Acquire oa config s1 = (Ret (OK l), s2)
    ∧ heap s2 !! l
      = Some (set_VMConfig config (set_FromPool true (pooled_sandbox o sb)))
    ∧ Containers (set_VMConfig config (set_FromPool true (pooled_sandbox o sb))) = ∅
    ∧ inUse (pool s2) !! ID sb = Some l
    ∧ buf (available (pool s2)) = []
    ∧ manager s2 = manager s ∧ trace s2 = trace s
    ∧ poolHits (stats (pool s2)) = atomic_AddInt64 (poolHits (stats (pool s))) 1.
Proof.
  intros H Hsz Hb Hc Hmax Hage.
  assert (Hd : ¬ release_destroys o sb s).
  { unfold release_destroys. rewrite Hb. simpl. lia. }
  assert (Hlen : Z.of_nat (length (buf (available (pool s)))) < cap (available (pool s))).
  { rewrite Hsz, Hb. simpl. lia. }
  eexists _, _. split; [by apply Pool_Release_queued|].
  split.
  { eapply Pool_Acquire_hit.
    - st_simpl. rewrite Hb. reflexivity.
    - st_simpl. apply lookup_insert_eq. }
  unfold hit_state. st_simpl.
  split; [apply lookup_insert_eq|]. split; [reflexivity|].
  split; [apply lookup_insert_eq|]. split; [reflexivity|]. done.
Qed.


Lemma Manager_DestroyVM_destroyed o l s sb :
  heap s !! l = Some sb →
  ∃ s', Manager_DestroyVM o l s = (Ret None, s') ∧ destroys_only s s'
        ∧ destroyed_from sb l s'.
Proof.
  intros H. eexists. split; [by apply Manager_DestroyVM_spec|].
  split.
  { pose proof (Manager_DestroyVM_destroys_only o l s) as Hp.
    by rewrite (Manager_DestroyVM_spec _ _ _ _ H) in Hp. }
  unfold destroyed_from. st_simpl. split; [apply lookup_delete_eq|].
  eexists. split; [apply lookup_insert_eq|]. unfold destroyed_sandbox.
  case_decide as Hr; [destruct (VM sb) as [m|] eqn:Hm|].
  - split; [reflexivity|]. intros _. simpl. discriminate.
  - split; [reflexivity|]. intros [m' Hm']. discriminate.
  - split; [reflexivity|]. done.
Qed.

Lemma destroyed_from_mono sb l s1 s2 :
  destroyed_from sb l s1 → destroys_only s1 s2 → destroyed_from sb l s2.
Proof.
  intros (Hidx & sb1 & Hl1 & Hid & Hst) (_ & _ & _ & Hheap & Hdom).
  split.
  { apply not_elem_of_dom. intros Hin. apply Hdom in Hin. by apply not_elem_of_dom in Hidx. }
  destruct (Hheap l sb1 Hl1) as (sb2 & Hl2 & Hid2 & _ & _ & Hst2).
  exists sb2. split; [done|]. split; [congruence|]. auto.
Qed.

(** A state with another pool is as far from a later state as the state
    itself, up to the pool. *)
Lemma destroys_only_set_pool g s1 s2 :
  destroys_only s1 s2 → destroys_only (set_pool g s1) (set_pool g s2).
Proof.
  intros (H1 & H2 & H3 & H4 & H5). unfold destroys_only. st_simpl.
  repeat split; try done. by rewrite H1.
Qed.

Lemma Pool_Close_drain_spec n d i s :
  n = length (buf (available (pool s))) →
  (∀ l, l ∈ buf (available (pool s)) → l ∈ dom (heap s)) →
  ∃ s', Pool_Close_drain n d i s = (Ret tt, s')
        ∧ destroys_only (set_pool (set_available (set_buf (λ _, []))) s) s'
        ∧ ∀ l sb, l ∈ buf (available (pool s)) → heap s !! l = Some sb →
            destroyed_from sb l s'.
Proof.
  revert i s. induction n as [|n IH]; intros i s Hn Hlive.
  - symmetry in Hn. apply length_zero_iff_nil in Hn.
    exists s. split; [reflexivity|]. split.
    + replace (set_pool (set_available (set_buf (λ _, []))) s) with s; [reflexivity|].
      destruct s as [h m [cfg [b c cl] iu st clo] sm ac sv tr]. simpl in *. by subst.
    + intros l sb Hin. rewrite Hn in Hin. by apply elem_of_nil in Hin.
  - destruct (buf (available (pool s))) as [|l rest] eqn:Hb; [discriminate|].
    simpl in Hn. injection Hn as Hn.
    assert (Hl : l ∈ dom (heap s)) by (apply Hlive; by left).
    apply elem_of_dom in Hl as [sb Hl].
    set (s1 := set_pool (set_available (set_buf (λ _, rest))) s).
    destruct (Manager_DestroyVM_destroyed (d i) l s1 sb Hl) as (s2 & Hrun & Hd & Hdl).
    assert (Hp2 : pool s2 = pool s1) by apply Hd.
    destruct (IH (S i) s2) as (s' & Hrun' & Hd' & Hall).
    { rewrite Hp2. subst s1. st_simpl. exact Hn. }
    { intros l0 Hin. rewrite Hp2 in Hin. subst s1. st_simpl in Hin.
      destruct Hd as (_ & _ & _ & Hheap & _).
      assert (Hl0 : l0 ∈ dom (heap s)) by (apply Hlive; by right).
      apply elem_of_dom in Hl0 as [sb0 Hl0].
      destruct (Hheap l0 sb0 Hl0) as (sb0' & Hl0' & _). apply elem_of_dom. eauto. }
    exists s'. split.
    { simpl. msteps. rewrite Hb. msteps. fold s1. rewrite (bind_Ret _ _ _ _ _ Hrun).
      cbv beta iota. msteps. exact Hrun'. }
    assert (Hd02 : destroys_only (set_pool (set_available (set_buf (λ _, []))) s)
                     (set_pool (set_available (set_buf (λ _, []))) s2)).
    { replace (set_pool (set_available (set_buf (λ _, []))) s)
        with (set_pool (set_available (set_buf (λ _, []))) s1).
      - by apply destroys_only_set_pool.
      - subst s1. by destruct s as [h m [cfg [b c cl] iu st clo] sm ac sv tr]. }
    split; [by etrans|].
    intros l0 sb0 Hin Hl0. apply elem_of_cons in Hin as [->|Hin].
    + assert (sb0 = sb) as -> by congruence.
      eapply destroyed_from_mono; [|exact Hd']. exact Hdl.
    + destruct Hd as (_ & _ & _ & Hheap & _).
      destruct (Hheap l0 sb0 Hl0) as (sb0' & Hl0' & Hid & Hvm & _ & _).
      destruct (Hall l0 sb0') as (Hidx & sbf & Hlf & Hidf & Hstf); [|done|].
      { rewrite Hp2. subst s1. by st_simpl. }
      split; [by rewrite <- Hid|]. exists sbf. split; [done|]. split; [congruence|].
      intros Hsome. apply Hstf. by rewrite Hvm.
Qed.


Lemma destroyed_from_same_identity sb sb1 l s :
  same_identity sb sb1 → destroyed_from sb1 l s → destroyed_from sb l s.
Proof.
  intros (Hid & Hvm & _ & _) (Hidx & sb' & Hl & Hid' & Hst).
  split; [by rewrite <- Hid|]. exists sb'. split; [done|]. split; [congruence|].
  intros Hsome. apply Hst. by rewrite Hvm.
Qed.

Lemma Pool_Close_inUse_spec entries d i s :
  (∀ id l, (id, l) ∈ entries → l ∈ dom (heap s)) →
  ∃ s', Pool_Close_inUse entries d i s = (Ret tt, s') ∧ destroys_only s s'
        ∧ ∀ id l sb, (id, l) ∈ entries → heap s !! l = Some sb → destroyed_from sb l s'.
Proof.
  revert i s. induction entries as [|[id0 l0] entries IH]; intros i s Hlive.
  - exists s. split; [reflexivity|]. split; [reflexivity|].
    intros id l sb Hin. by apply elem_of_nil in Hin.
  - assert (Hl0 : l0 ∈ dom (heap s)) by (eapply Hlive; by left).
    apply elem_of_dom in Hl0 as [sb0 Hl0].
    destruct (Manager_DestroyVM_destroyed (d i) l0 s sb0 Hl0) as (s2 & Hrun & Hd & Hdl).
    destruct (IH (S i) s2) as (s' & Hrun' & Hd' & Hall).
    { intros id l Hin. destruct Hd as (_ & _ & _ & Hheap & _).
      assert (Hl : l ∈ dom (heap s)) by (eapply Hlive; by right).
      apply elem_of_dom in Hl as [sb Hl].
      destruct (Hheap l sb Hl) as (sb' & Hl' & _). apply elem_of_dom. eauto. }
    exists s'. split.
    { cbn [Pool_Close_inUse]. rewrite (bind_Ret _ _ _ _ _ Hrun). cbv beta iota. msteps.
      exact Hrun'. }
    split; [by etrans|].
    intros id l sb Hin Hl. apply elem_of_cons in Hin as [Heq|Hin].
    + injection Heq as -> ->. assert (sb = sb0) as -> by congruence.
      by eapply destroyed_from_mono.
    + destruct Hd as (_ & _ & _ & Hheap & _).
      destruct (Hheap l sb Hl) as (sb' & Hl' & Hsame).
      eapply destroyed_from_same_identity; [exact Hsame|]. by eapply Hall.
Qed.

(** What a [Close] of an open pool does. *)
Lemma Pool_Close_spec order o s :
  closed (pool s) = false → chan_closed (available (pool s)) = false →
  pool_live s → (∀ es, order es ≡ₚ es) →
  ∃ s', Pool_Close order o s = (Ret None, s')
        ∧ pool s' = set_available (set_buf (λ _, []))
                      (set_available chan_close (set_closed true (pool s)))
        ∧ ∀ l sb, pool_holds s l → heap s !! l = Some sb → destroyed_from sb l s'.
Proof.
  intros Hcl Hch [Hq Hu] Hperm.
  set (s0 := set_pool (set_available chan_close) (set_pool (set_closed true) s)).
  destruct (Pool_Close_drain_spec (length (buf (available (pool s)))) (close_pooled o) 0 s0)
    as (s1 & Hrun1 & Hd1 & Hall1).
  { reflexivity. }
  { intros l Hin. by apply Hq. }
  assert (Hp1 : pool s1 = set_available (set_buf (λ _, [])) (pool s0)) by apply Hd1.
  destruct (Pool_Close_inUse_spec (order (map_to_list (inUse (pool s1))))
              (close_inUse o) 0 s1) as (s' & Hrun2 & Hd2 & Hall2).
  { intros id l Hin. rewrite Hperm in Hin. apply elem_of_map_to_list in Hin.
    rewrite Hp1 in Hin. subst s0. st_simpl in Hin.
    destruct Hd1 as (_ & _ & _ & Hheap & _).
    assert (Hl : l ∈ dom (heap s)) by (by eapply Hu).
    apply elem_of_dom in Hl as [sb Hl].
    destruct (Hheap l sb Hl) as (sb' & Hl' & _). apply elem_of_dom. eauto. }
  exists s'. split.
  { unfold Pool_Close. msteps. rewrite Hcl. msteps. st_simpl. rewrite Hch. msteps.
    fold s0. st_simpl. rewrite (bind_Ret _ _ _ _ _ Hrun1). cbv beta. msteps.
    rewrite (bind_Ret _ _ _ _ _ Hrun2). reflexivity. }
  split.
  { destruct Hd2 as (Hp2 & _). by rewrite Hp2, Hp1. }
  intros l sb [Hin|[id Hin]] Hl.
  - eapply destroyed_from_mono; [|exact Hd2]. by apply Hall1.
  - destruct Hd1 as (_ & _ & _ & Hheap & _).
    destruct (Hheap l sb Hl) as (sb' & Hl' & Hsame).
    eapply destroyed_from_same_identity; [exact Hsame|].
    eapply (Hall2 id); [|exact Hl'].
    rewrite Hperm. apply elem_of_map_to_list. rewrite Hp1. subst s0. by st_simpl.
Qed.


(** X3.  [Pool.Close] on an open pool returns nil and destroys every VM
    the pool holds, those of the ready queue and those of the in-use map,
    in whatever order the map is walked: afterwards the manager's index has
    no entry for any of them and none that had a machine is still ready.
    The queue is closed and empty and the pool is marked closed; the in-use
    map itself is not emptied. *)
Theorem Pool_Close_destroys_all
    (order : list (string * loc) → list (string * loc)) (o : CloseOracle) (s : St) :
  closed (pool s) = false → chan_closed (available (pool s)) = false →
  pool_live s → (∀ es, order es ≡ₚ es) →
  ∃ s',
    Pool_Close order o s = (Ret None, s')
    ∧ closed (pool s') = true
    ∧ chan_closed (available (pool s')) = true ∧ buf (available (pool s')) = []
    ∧ inUse (pool s') = inUse (pool s)
    ∧ ∀ l sb, pool_holds s l → heap s !! l = Some sb → destroyed_from sb l s'.
Proof.
  intros Hcl Hch Hlive Hperm.
  destruct (Pool_Close_spec order o s Hcl Hch Hlive Hperm) as (s' & Hrun & Hp & Hall).
  exists s'. split; [exact Hrun|]. rewrite Hp. st_simpl.
  split; [done|]. split; [done|]. split; [done|]. split; [done|exact Hall].
Qed.

(** X4.  A closed pool.  After [Close] has run, a second [Close] returns
    nil and changes nothing; [Acquire] does not return an error but panics
    with a nil pointer dereference, because the receive on the closed queue
    yields a nil sandbox (and the call has been counted as a pool hit); and
    [Release] of a sandbox that would be queued panics with a send on the
    closed channel. *)
Theorem Pool_use_after_Close
    (order : list (string * loc) → list (string * loc)) (o : CloseOracle) (s : St) :
  closed (pool s) = false → chan_closed (available (pool s)) = false →
  pool_live s → (∀ es, order es ≡ₚ es) →
  ∃ s1,
    Pool_Close order o s = (Ret None, s1)
    ∧ (∀ order' o', Pool_Close order' o' s1 = (Ret None, s1))
    ∧ (∀ oa config, ∃ s2,
         Pool_Acquire oa config s1 = (Panic nil_deref, s2)
         ∧ poolHits (stats (pool s2)) = atomic_AddInt64 (poolHits (stats (pool s))) 1)
    ∧ (∀ orl l sb, heap s1 !! l = Some sb → ¬ release_destroys orl sb s1 →
         ∃ s2, Pool_Release orl l s1 = (Panic "send on closed channel", s2)).
Proof.
  intros Hcl Hch Hlive Hperm.
  destruct (Pool_Close_spec order o s Hcl Hch Hlive Hperm) as (s1 & Hrun & Hp & Hall).
  exists s1. split; [exact Hrun|]. split; [|split].
  - intros order' o'. unfold Pool_Close. msteps. rewrite Hp. by st_simpl.
  - intros oa config. unfold Pool_Acquire. msteps. st_simpl. rewrite Hp. st_simpl.
    unfold chan_try_recv. st_simpl. cbn [chan_close chan_closed buf].
    msteps. unfold panic. eexists. split; [reflexivity|]. st_simpl. by rewrite Hp.
  - intros orl l sb Hl Hd. unfold Pool_Release. msteps. st_simpl.
    rewrite decide_False by exact Hd.
    erewrite bind_Ret; cycle 1.
    { apply Pool_resetVM_spec. heap_lookup. }
    cbv beta iota. msteps. unfold chan_try_send. st_simpl. rewrite Hp. st_simpl.
    cbn [chan_close chan_closed]. unfold panic. eauto.
Qed.


Lemma idle_kept_length o s i q : (length (idle_kept o s i q) ≤ length q)%nat.
Proof.
  revert i. induction q as [|l q IH]; intros i; simpl; [lia|].
  case_decide; simpl; specialize (IH (S i)); lia.
Qed.

Lemma idle_kept_sublist o s i q : sublist (idle_kept o s i q) q.
Proof.
  revert i. induction q as [|l q IH]; intros i; simpl; [constructor|].
  case_decide; [apply sublist_cons|apply sublist_skip]; apply IH.
Qed.

Lemma idle_expired_ext o s s' i l sb :
  heap s !! l = Some sb → destroys_only (set_pool (λ _, pool s') s) s' →
  pool_config (pool s') = pool_config (pool s) →
  idle_expired o s' i l ↔ idle_expired o s i l.
Proof.
  intros Hl (_ & _ & _ & Hheap & _) Hcfg. st_simpl in Hheap.
  destruct (Hheap l sb Hl) as (sb' & Hl' & _ & _ & Hp & _).
  unfold idle_expired. by rewrite Hl, Hl', Hp, Hcfg.
Qed.

Lemma idle_kept_ext o s s' i q :
  (∀ l, l ∈ q → l ∈ dom (heap s)) → destroys_only (set_pool (λ _, pool s') s) s' →
  pool_config (pool s') = pool_config (pool s) →
  idle_kept o s' i q = idle_kept o s i q.
Proof.
  intros Hlive Hd Hcfg. revert i. induction q as [|l q IH]; intros i; [done|].
  assert (Hl : l ∈ dom (heap s)) by (apply Hlive; by left).
  apply elem_of_dom in Hl as [sb Hl].
  simpl. rewrite IH by (intros l0 Hin; apply Hlive; by right).
  destruct (decide (idle_expired o s' i l)) as [He|He];
    destruct (decide (idle_expired o s i l)) as [He'|He']; try done.
  - by apply (idle_expired_ext o s s' i l sb Hl Hd Hcfg) in He.
  - by apply (idle_expired_ext o s s' i l sb Hl Hd Hcfg) in He'.
Qed.


Lemma set_buf_nil_twice rest s :
  set_pool (set_available (set_buf (λ _, [])))
    (set_pool (set_available (set_buf (λ _, rest))) s)
  = set_pool (set_available (set_buf (λ _, []))) s.
Proof. by destruct s as [h m [cfg [b c cl] iu st clo] sm ac sv tr]. Qed.

Lemma destroys_only_modulo_pool g s s' :
  destroys_only (set_pool g s) s' → destroys_only (set_pool (λ _, pool s') s) s'.
Proof.
  intros (H1 & H2 & H3 & H4 & H5). unfold destroys_only. st_simpl. by repeat split.
Qed.

Lemma Pool_cleanupIdle_drain_spec o q : ∀ n i keep s,
  buf (available (pool s)) = q → chan_closed (available (pool s)) = false →
  (∀ l, l ∈ q → l ∈ dom (heap s)) → n = S (length q) →
  ∃ s', Pool_cleanupIdle_drain n o i keep s = (Ret (keep ++ idle_kept o s i q), s')
        ∧ destroys_only (set_pool (set_available (set_buf (λ _, []))) s) s'
        ∧ ∀ j l sb, q !! j = Some l → heap s !! l = Some sb →
            idle_expired o s (i + j) l → destroyed_from sb l s'.
Proof.
  induction q as [|l rest IH]; intros n i keep s Hb Hc Hlive ->.
  - exists s. split.
    { cbn [Pool_cleanupIdle_drain length]. msteps. unfold chan_try_recv. rewrite Hb, Hc.
      cbn [idle_kept]. by rewrite app_nil_r. }
    split.
    { replace (set_pool (set_available (set_buf (λ _, []))) s) with s; [reflexivity|].
      destruct s as [h m [cfg [b c cl] iu st clo] sm ac sv tr]. simpl in *. by subst. }
    intros j l sb Hj. by rewrite lookup_nil in Hj.
  - assert (Hl : l ∈ dom (heap s)) by (apply Hlive; by left).
    apply elem_of_dom in Hl as [sb Hl].
    set (s1 := set_pool (set_available (λ _, set_buf (λ _, rest) (available (pool s)))) s).
    assert (Hs1 : s1 = set_pool (set_available (set_buf (λ _, rest))) s).
    { subst s1. by destruct s as [h m [cfg [b c cl] iu st clo] sm ac sv tr]. }
    assert (Hstep :
              Pool_cleanupIdle_drain (S (S (length rest))) o i keep s =
              (if decide (ci_now o i - PooledAt sb > MaxIdleTime (pool_config (pool s)))
               then do Manager_DestroyVM (ci_destroy o i) l ;;
                    Pool_cleanupIdle_drain (S (length rest)) o (S i) keep
               else Pool_cleanupIdle_drain (S (length rest)) o (S i) (keep ++ [l])) s1).
    { cbn [Pool_cleanupIdle_drain]. msteps. unfold chan_try_recv. rewrite Hb.
      msteps. fold s1. reflexivity. }
    cbn [length]. rewrite Hstep. clear Hstep.
    assert (Hexp : idle_expired o s i l
                   ↔ ci_now o i - PooledAt sb > MaxIdleTime (pool_config (pool s))).
    { unfold idle_expired. by rewrite Hl. }
    cbn [idle_kept].
    destruct (decide (ci_now o i - PooledAt sb > MaxIdleTime (pool_config (pool s))))
      as [He|He].
    + rewrite decide_True by (by apply Hexp).
      destruct (Manager_DestroyVM_destroyed (ci_destroy o i) l s1 sb) as (s2 & Hrun & Hd & Hdl).
      { rewrite Hs1. exact Hl. }
      assert (Hp2 : pool s2 = pool s1) by apply Hd.
      assert (Hlive2 : ∀ l0, l0 ∈ rest → l0 ∈ dom (heap s2)).
      { intros l0 Hin. pose proof Hd as (_ & _ & _ & Hheap & _).
        assert (Hl0 : l0 ∈ dom (heap s)) by (apply Hlive; by right).
        apply elem_of_dom in Hl0 as [sb0 Hl0].
        destruct (Hheap l0 sb0) as (sb0' & Hl0' & _); [by rewrite Hs1|].
        apply elem_of_dom. eauto. }
      destruct (IH (S (length rest)) (S i) keep s2) as (s' & Hrun' & Hd' & Hall);
        [by rewrite Hp2, Hs1|by rewrite Hp2, Hs1|exact Hlive2|reflexivity|].
      assert (Hk : idle_kept o s2 (S i) rest = idle_kept o s (S i) rest).
      { apply idle_kept_ext.
        - intros l0 Hin. apply Hlive. by right.
        - apply (destroys_only_modulo_pool (set_available (set_buf (λ _, rest)))).
          by rewrite <- Hs1.
        - by rewrite Hp2, Hs1. }
      exists s'. split.
      { rewrite (bind_Ret _ _ _ _ _ Hrun). cbv beta. by rewrite Hrun', Hk. }
      assert (Hd02 : destroys_only (set_pool (set_available (set_buf (λ _, []))) s)
                       (set_pool (set_available (set_buf (λ _, []))) s2)).
      { rewrite <- (set_buf_nil_twice rest s), <- Hs1. by apply destroys_only_set_pool. }
      split; [by etrans|].
      intros j l0 sb0 Hj Hl0 Hexp0. destruct j as [|j]; simpl in Hj.
      * injection Hj as <-. assert (sb0 = sb) as -> by congruence.
        eapply destroyed_from_mono; [|exact Hd']. exact Hdl.
      * pose proof Hd as (_ & _ & _ & Hheap & _).
        destruct (Hheap l0 sb0) as (sb0' & Hl0' & Hsame); [by rewrite Hs1|].
        eapply destroyed_from_same_identity; [exact Hsame|].
        apply (Hall j l0 sb0' Hj Hl0').
        replace (S i + j)%nat with (i + S j)%nat by lia.
        apply (idle_expired_ext o s s2 (i + S j) l0 sb0 Hl0); [| |exact Hexp0].
        -- apply (destroys_only_modulo_pool (set_available (set_buf (λ _, rest)))).
           rewrite <- Hs1. exact Hd.
        -- by rewrite Hp2, Hs1.
    + rewrite decide_False by (by rewrite Hexp).
      destruct (IH (S (length rest)) (S i) (keep ++ [l]) s1) as (s' & Hrun' & Hd' & Hall);
        [by rewrite Hs1|by rewrite Hs1|by rewrite Hs1; intros l0 Hin; apply Hlive; right
        |reflexivity|].
      assert (Hk : idle_kept o s1 (S i) rest = idle_kept o s (S i) rest).
      { apply idle_kept_ext.
        - intros l0 Hin. apply Hlive. by right.
        - rewrite Hs1. unfold destroys_only. st_simpl. repeat split; try reflexivity.
          intros l0 sb0 Hl0. exists sb0. split; [done|reflexivity].
        - by rewrite Hs1. }
      exists s'. split.
      { rewrite Hrun', Hk. by rewrite <- app_assoc. }
      split.
      { rewrite <- (set_buf_nil_twice rest s), <- Hs1. exact Hd'. }
      intros j l0 sb0 Hj Hl0 Hexp0. destruct j as [|j]; simpl in Hj.
      * injection Hj as <-. rewrite Nat.add_0_r in Hexp0. by apply Hexp in Hexp0.
      * apply (Hall j l0 sb0 Hj); [by rewrite Hs1|].
        replace (S i + j)%nat with (i + S j)%nat by lia.
        apply (idle_expired_ext o s s1 (i + S j) l0 sb0 Hl0); [| |exact Hexp0].
        -- rewrite Hs1. unfold destroys_only. st_simpl. repeat split; try reflexivity.
           intros l1 sb1 Hl1. exists sb1. split; [done|reflexivity].
        -- by rewrite Hs1.
Qed.


Lemma Pool_cleanupIdle_refill_spec o keep : ∀ i s,
  chan_closed (available (pool s)) = false →
  Z.of_nat (length (buf (available (pool s))) + length keep) <= cap (available (pool s)) →
  Pool_cleanupIdle_refill keep o i s =
    (Ret tt, set_pool (set_available (set_buf (λ b, b ++ keep))) s).
Proof.
  induction keep as [|l keep IH]; intros i s Hc Hlen.
  - simpl. unfold ret. f_equal.
    destruct s as [h m [cfg [b c cl] iu st clo] sm ac sv tr].
    unfold set_pool, set_available, set_buf. simpl. by rewrite app_nil_r.
  - cbn [Pool_cleanupIdle_refill]. msteps. unfold chan_try_send. rewrite Hc.
    cbn [length] in Hlen. rewrite decide_True by lia. msteps.
    rewrite IH; [| by st_simpl | st_simpl; rewrite length_app; simpl; lia ].
    f_equal. destruct s as [h m [cfg [b c cl] iu st clo] sm ac sv tr].
    unfold set_pool, set_available, set_buf. simpl. by rewrite <- app_assoc.
Qed.

(** X5.  [cleanupIdle] on an open queue whose sandboxes are in the store
    returns with the queue holding exactly the sandboxes that have not been
    idle for longer than [MaxIdleTime], in their old order; the expired ones
    are destroyed (the manager's index has no entry for them any more).
    Nothing else of the pool changes. *)
Theorem Pool_cleanupIdle_keeps_fresh (o : CleanupIdleOracle) (s : St) :
  let q := buf (available (pool s)) in
  chan_closed (available (pool s)) = false →
  Z.of_nat (length q) <= cap (available (pool s)) →
  (∀ l, l ∈ q → l ∈ dom (heap s)) →
  ∃ s',
    Pool_cleanupIdle o s = (Ret tt, s')
    ∧ pool s' = set_available (set_buf (λ _, idle_kept o s 0 q)) (pool s)
    ∧ sublist (idle_kept o s 0 q) q
    ∧ (∀ i l, q !! i = Some l → ¬ idle_expired o s i l → l ∈ buf (available (pool s')))
    ∧ (∀ i l sb, q !! i = Some l → heap s !! l = Some sb → idle_expired o s i l →
         destroyed_from sb l s').
Proof.
  intros q Hc Hlen Hlive.
  destruct (Pool_cleanupIdle_drain_spec o q (S (length q)) 0%nat [] s)
    as (s1 & Hrun & Hd & Hall); try done.
  assert (Hp1 : pool s1 = set_available (set_buf (λ _, [])) (pool s)) by apply Hd.
  exists (set_pool (set_available (set_buf (λ b, b ++ idle_kept o s 0 q))) s1).
  split.
  { unfold Pool_cleanupIdle. msteps. fold q. rewrite (bind_Ret _ _ _ _ _ Hrun).
    cbn [app]. apply Pool_cleanupIdle_refill_spec.
    - by rewrite Hp1.
    - rewrite Hp1. st_simpl. pose proof (idle_kept_length o s 0 q). simpl. lia. }
  st_simpl. rewrite Hp1.
  split; [by destruct (pool s) as [cfg [b c cl] iu st clo]|].
  split; [apply idle_kept_sublist|].
  split.
  { intros i l Hi Hne. st_simpl.
    assert (Hgen : ∀ q0 j k, q0 !! k = Some l → ¬ idle_expired o s (j + k) l →
                     l ∈ idle_kept o s j q0).
    { induction q0 as [|l0 q0 IH]; intros j k Hk Hn; [by rewrite lookup_nil in Hk|].
      simpl. destruct k as [|k]; simpl in Hk.
      - injection Hk as ->. rewrite Nat.add_0_r in Hn. rewrite decide_False by done.
        by left.
      - assert (l ∈ idle_kept o s (S j) q0).
        { apply (IH (S j) k Hk). by replace (S j + k)%nat with (j + S k)%nat by lia. }
        case_decide; [done|by right]. }
    by apply (Hgen q 0%nat i). }
  intros i l sb Hi Hl He.
  assert (Hdf : destroyed_from sb l s1) by (by apply (Hall i l sb)).
  exact Hdf.
Qed.


(** ** Manager: the index, the CIDs and the ids *)

Lemma Manager_CreateVM_fails o config s e :
  create_error o = Some e →
  ∃ s1, Manager_CreateVM o config s = (Ret (Error e), s1)
        ∧ manager s1 = set_cidCounter (wrap_uint32 (cidCounter (manager s) + 1)) (manager s)
        ∧ pool s1 = pool s
        ∧ trace s1 = trace s ++ create_fail_events (manager s) o config.
Proof.
  unfold create_error, create_fail_events. intros Hf.
  unfold Manager_CreateVM. msteps. st_simpl.
  destruct (co_mkdir o) as [e1|].
  { injection Hf as <-. eexists. split; [reflexivity|]. st_simpl. by repeat split. }
  msteps. destruct (co_machine o) as [m|e2].
  2:{ injection Hf as <-. eexists. split; [reflexivity|]. st_simpl. repeat split.
      rewrite <- app_assoc. simpl. unfold create_fcConfig, effective_config, sandbox_dir.
      reflexivity. }
  msteps. destruct (co_start o) as [e3|]; [|done].
  injection Hf as <-. eexists. split; [reflexivity|]. st_simpl. repeat split.
  rewrite <- !app_assoc. simpl. unfold create_fcConfig, effective_config, sandbox_dir.
  reflexivity.
Qed.

(** X6.  A [CreateVM] that fails, at the directory, at the machine or at
    its start, returns the failure wrapped and leaves things behind: the
    vsock CID it took is not given back, the sandbox directory it made is
    not removed and a machine it built is not shut down; the sandbox is in
    no index. *)
Theorem Manager_CreateVM_failure_leaves_behind
    (o : CreateOracle) (config : VMConfig) (s : St) (e : error) :
  create_error o = Some e →
  ∃ s1 evs,
    Manager_CreateVM o config s = (Ret (Error e), s1)
    ∧ sandboxes (manager s1) = sandboxes (manager s)
    ∧ cidCounter (manager s1) = wrap_uint32 (cidCounter (manager s) + 1)
    ∧ pool s1 = pool s
    ∧ trace s1 = trace s ++ evs
    ∧ EvMkdirAll (sandbox_dir (mgr_config (manager s)) (generateID (co_nano o))) ∈ evs
    ∧ (∀ m, co_mkdir o = None → co_machine o = OK m → EvMachineStart m ∈ evs)
    ∧ (∀ ev, ev ∈ evs → is_teardown ev = false).
Proof.
  intros Hf. destruct (Manager_CreateVM_fails o config s e Hf) as (s1 & Hrun & Hm & Hp & Ht).
  exists s1, (create_fail_events (manager s) o config).
  split; [exact Hrun|]. rewrite Hm. st_simpl.
  split; [reflexivity|]. split; [reflexivity|]. split; [exact Hp|]. split; [exact Ht|].
  unfold create_fail_events. split; [by left|]. split.
  - intros m Hmk Hma. rewrite Hmk, Hma. right. right. by left.
  - intros ev Hin. destruct (co_mkdir o); [|destruct (co_machine o)];
      repeat (apply elem_of_cons in Hin as [->|Hin]; [reflexivity|]);
      by apply elem_of_nil in Hin.
Qed.

Lemma create_works_error o machine : create_works o machine → create_error o = None.
Proof. intros (H1 & H2 & H3). unfold create_error. by rewrite H1, H2, H3. Qed.

Lemma create_error_None o : create_error o = None → ∃ machine, create_works o machine.
Proof.
  unfold create_error, create_works.
  destruct (co_mkdir o), (co_machine o) as [m|], (co_start o); try discriminate. eauto.
Qed.

Lemma Manager_CreateVM_works o config s machine :
  create_works o machine →
  Manager_CreateVM o config s = (Ret (OK (fresh (dom (heap s)))), created_state o config machine s).
Proof. intros (H1 & H2 & H3). by apply Manager_CreateVM_ok. Qed.

Lemma destroy_events_RemoveAll cfg o sb :
  EvRemoveAll (filepath_Join (RuntimeDir cfg) (ID sb)) ∈ destroy_events cfg o sb.
Proof.
  unfold destroy_events. rewrite !elem_of_app. right. right. left. by left.
Qed.

(** X7.  The manager's index follows the life of a VM.  After a
    [CreateVM] that works, [GetSandbox] finds the new sandbox under its id;
    it is ready and has its machine.  After [DestroyVM] of that sandbox,
    [GetSandbox] finds nothing under the id, the sandbox is stopped, and the
    directory that [CreateVM] made is the one [DestroyVM] removed. *)
Theorem Manager_Create_Get_Destroy
    (o : CreateOracle) (d : DestroyOracle) (config : VMConfig) (s : St) (machine : Machine) :
  create_works o machine →
  let id := generateID (co_nano o) in
  let dir := sandbox_dir (mgr_config (manager s)) id in
  ∃ l s1 s2 sb,
    Manager_CreateVM o config s = (Ret (OK l), s1)
    ∧ Manager_GetSandbox id s1 = (Ret (Some l), s1)
    ∧ heap s1 !! l = Some sb
    ∧ ID sb = id ∧ State sb = SandboxReady ∧ VM sb = Some machine
    ∧ Manager_DestroyVM d l s1 = (Ret None, s2)
    ∧ Manager_GetSandbox id s2 = (Ret None, s2)
    ∧ State <$> heap s2 !! l = Some SandboxStopped
    ∧ EvMkdirAll dir ∈ trace s1 ∧ EvRemoveAll dir ∈ trace s2.
Proof.
  intros Hw id dir.
  eexists _, _, _, _. split; [by apply Manager_CreateVM_works|].
  unfold Manager_GetSandbox, gets, created_state. st_simpl.
  split; [by rewrite lookup_insert_eq|].
  split; [apply lookup_insert_eq|].
  split; [reflexivity|]. split; [reflexivity|]. split; [reflexivity|].
  split.
  { apply Manager_DestroyVM_spec. st_simpl. apply lookup_insert_eq. }
  st_simpl. split; [by rewrite lookup_delete_eq|].
  split; [by rewrite lookup_insert_eq|].
  split.
  - apply elem_of_app. right. by left.
  - apply elem_of_app. right.
    apply (destroy_events_RemoveAll _ d (created_sandbox (manager s) o config machine)).
Qed.

Lemma Manager_CreateVM_cid o config s :
  cidCounter (manager (Manager_CreateVM o config s).2)
  = wrap_uint32 (cidCounter (manager s) + 1).
Proof.
  destruct (create_error o) as [e|] eqn:He.
  - destruct (Manager_CreateVM_fails o config s e He) as (s1 & Hrun & Hm & _).
    rewrite Hrun. cbn [snd]. by rewrite Hm.
  - destruct (create_error_None o He) as [machine Hw].
    by rewrite (Manager_CreateVM_works o config s machine Hw).
Qed.

Lemma wrap_uint32_idemp_l a b : wrap_uint32 (wrap_uint32 a + b) = wrap_uint32 (a + b).
Proof. unfold wrap_uint32. by rewrite Zplus_mod_idemp_l. Qed.

Lemma create_all_cid os config s :
  wrap_uint32 (cidCounter (manager (create_all os config s)))
  = wrap_uint32 (cidCounter (manager s) + Z.of_nat (length os)).
Proof.
  revert s. induction os as [|o os IH]; intros s.
  - simpl. by rewrite Z.add_0_r.
  - unfold create_all in *. cbn [foldl length]. rewrite IH, Manager_CreateVM_cid.
    rewrite wrap_uint32_idemp_l. f_equal. lia.
Qed.

Lemma create_all_cid_range os config s :
  0 <= cidCounter (manager s) < 2 ^ 32 →
  0 <= cidCounter (manager (create_all os config s)) < 2 ^ 32.
Proof.
  revert s. induction os as [|o os IH]; intros s Hr; [done|].
  unfold create_all in *. cbn [foldl]. apply IH. rewrite Manager_CreateVM_cid.
  unfold wrap_uint32. apply Z.mod_pos_bound. lia.
Qed.

(** X8.  Vsock CIDs are handed out in sequence.  After [n] calls of
    [CreateVM], whatever their outcome, a call that works gives its sandbox
    the CID [(c + n) mod 2^32], where [c] is the counter the manager started
    from (3 for a new manager).  So two VMs fewer than 2^32 calls apart have
    different CIDs, and the counter wraps around to the reserved CIDs 0, 1
    and 2 after 2^32 - c calls. *)
Theorem Manager_CreateVM_CIDs_in_sequence
    (os : list CreateOracle) (config : VMConfig) (s : St) (o : CreateOracle)
    (machine : Machine) :
  0 <= cidCounter (manager s) < 2 ^ 32 → create_works o machine →
  let c := cidCounter (manager s) in
  let n := Z.of_nat (length os) in
  (∃ l s' sb,
     Manager_CreateVM o config (create_all os config s) = (Ret (OK l), s')
     ∧ heap s' !! l = Some sb ∧ VsockCID sb = wrap_uint32 (c + n)
     ∧ cidCounter (manager s') = wrap_uint32 (c + n + 1))
  ∧ (∀ n', n < n' < n + 2 ^ 32 → wrap_uint32 (c + n') ≠ wrap_uint32 (c + n))
  ∧ wrap_uint32 (c + (2 ^ 32 - c)) = 0.
Proof.
  intros Hr Hw c n. split; [|split].
  - eexists _, _, _. split; [by apply Manager_CreateVM_works|].
    unfold created_state. st_simpl. split; [apply lookup_insert_eq|].
    pose proof (create_all_cid os config s) as Hc.
    pose proof (create_all_cid_range os config s Hr) as Hr'.
    assert (Hcur : cidCounter (manager (create_all os config s)) = wrap_uint32 (c + n)).
    { subst c n. rewrite <- Hc. unfold wrap_uint32. by rewrite Z.mod_small. }
    split; [exact Hcur|]. rewrite Hcur. by rewrite wrap_uint32_idemp_l.
  - intros n' Hn' Heq. unfold wrap_uint32 in Heq.
    assert (Hd : (c + n' - (c + n)) mod 2 ^ 32 = 0).
    { rewrite Zminus_mod, Heq, Z.sub_diag. reflexivity. }
    replace (c + n' - (c + n)) with (n' - n) in Hd by lia.
    apply Z.mod_divide in Hd; [|lia]. destruct Hd as [k Hk]. nia.
  - replace (c + (2 ^ 32 - c)) with (2 ^ 32) by lia. reflexivity.
Qed.

(** X9.  Sandbox ids come from the clock.  Two calls of [CreateVM] that
    read the same nanosecond give their sandboxes the same id; the manager's
    index then knows only the second.  Destroying the first removes the
    index entry of the second, which stays ready and is found by
    [GetSandbox] no more, and removes the runtime directory the two
    share. *)
Theorem generateID_collision
    (o1 o2 : CreateOracle) (d : DestroyOracle) (config1 config2 : VMConfig) (s : St)
    (m1 m2 : Machine) :
  create_works o1 m1 → create_works o2 m2 → co_nano o1 = co_nano o2 →
  ∃ l1 l2 s1 s2 s3 sb1 sb2,
    Manager_CreateVM o1 config1 s = (Ret (OK l1), s1)
    ∧ Manager_CreateVM o2 config2 s1 = (Ret (OK l2), s2)
    ∧ l1 ≠ l2
    ∧ heap s2 !! l1 = Some sb1 ∧ heap s2 !! l2 = Some sb2
    ∧ ID sb1 = ID sb2 ∧ VsockPath sb1 = VsockPath sb2
    ∧ State sb1 = SandboxReady ∧ State sb2 = SandboxReady
    ∧ Manager_GetSandbox (ID sb1) s2 = (Ret (Some l2), s2)
    ∧ Manager_DestroyVM d l1 s2 = (Ret None, s3)
    ∧ Manager_GetSandbox (ID sb2) s3 = (Ret None, s3)
    ∧ State <$> heap s3 !! l2 = Some SandboxReady
    ∧ EvRemoveAll (sandbox_dir (mgr_config (manager s)) (ID sb2)) ∈ trace s3.
Proof.
  intros Hw1 Hw2 Hn.
  set (l1 := fresh (dom (heap s))).
  set (s1 := created_state o1 config1 m1 s).
  set (l2 := fresh (dom (heap s1))).
  assert (Hne : l1 ≠ l2).
  { subst l2 s1. unfold created_state. st_simpl. intros Heq.
    pose proof (is_fresh (dom (<[l1 := created_sandbox (manager s) o1 config1 m1]> (heap s))))
      as Hf.
    fold l1 in Heq. apply Hf. rewrite <- Heq. rewrite dom_insert_L.
    apply elem_of_union. left. by apply elem_of_singleton. }
  assert (Hl1 : heap (created_state o2 config2 m2 s1) !! l1
                = Some (created_sandbox (manager s) o1 config1 m1)).
  { unfold created_state at 1. st_simpl. fold l2. rewrite lookup_insert_ne by done.
    subst s1. unfold created_state. st_simpl. apply lookup_insert_eq. }
  eexists l1, l2, s1, _, _, _, _.
  split; [by apply Manager_CreateVM_works|].
  split; [by apply Manager_CreateVM_works|].
  split; [exact Hne|].
  split; [exact Hl1|].
  split; [unfold created_state; st_simpl; apply lookup_insert_eq|].
  split; [cbn; by rewrite Hn|].
  split; [cbn; by rewrite Hn|].
  split; [reflexivity|]. split; [reflexivity|].
  split.
  { unfold Manager_GetSandbox, gets. f_equal. f_equal. unfold created_state at 1. st_simpl.
    cbn [ID created_sandbox set_StartedAt set_State set_PID set_VMConfig set_VM set_VsockPath
         set_VsockCID NewSandbox]. rewrite Hn. apply lookup_insert_eq. }
  split; [by apply Manager_DestroyVM_spec|].
  st_simpl.
  split.
  { unfold Manager_GetSandbox, gets. f_equal. f_equal. st_simpl.
    cbn [ID created_sandbox set_StartedAt set_State set_PID set_VMConfig set_VM set_VsockPath
         set_VsockCID NewSandbox]. rewrite Hn. apply lookup_delete_eq. }
  split.
  { rewrite lookup_insert_ne by done. unfold created_state at 1. st_simpl. fold l2.
    by rewrite lookup_insert_eq. }
  apply elem_of_app. right.
  pose proof (destroy_events_RemoveAll (mgr_config (manager s)) d
                (created_sandbox (manager s) o1 config1 m1)) as Hin.
  cbn [ID created_sandbox set_StartedAt set_State set_PID set_VMConfig set_VM set_VsockPath
       set_VsockCID NewSandbox] in Hin. rewrite Hn in Hin. exact Hin.
Qed.


(** ** Snapshots: what is deleted and what is kept *)

#[local] Instance keeps_golden_preorder : PreOrder keeps_golden.
Proof.
  split; [by intros sm|].
  intros a b c (H1 & H2 & H3 & H4) (H1' & H2' & H3' & H4').
  unfold keeps_golden. repeat split; try congruence; [by etrans|].
  intros k snap Hk Hg. apply H4'; [|done]. by apply H4.
Qed.

Lemma names_wf_subseteq sm sm' :
  snapshots sm' ⊆ snapshots sm → names_wf sm → names_wf sm'.
Proof.
  intros Hsub Hwf k snap Hk. apply Hwf. by eapply lookup_weaken.
Qed.

Lemma keeps_golden_delete sm name :
  (∀ snap, snapshots sm !! name = Some snap → IsGolden snap = false) →
  keeps_golden sm (set_snapshots (delete name) sm).
Proof.
  intros Hng. unfold keeps_golden. simpl. repeat split; [apply delete_subseteq|].
  intros k snap Hk Hg. rewrite lookup_delete_ne; [done|].
  intros ->. specialize (Hng snap Hk). congruence.
Qed.

Lemma SnapshotManager_DeleteSnapshot_keeps remove name s sm :
  snapshotMgr s = Some sm →
  ∃ sm', snapshotMgr (SnapshotManager_DeleteSnapshot remove name s).2 = Some sm'
         ∧ keeps_golden sm sm'.
Proof.
  intros Hsm. unfold SnapshotManager_DeleteSnapshot, the_snapshotMgr. msteps. rewrite Hsm.
  msteps. destruct (snapshots sm !! name) as [snap|] eqn:Hn.
  2:{ exists sm. unfold ret. cbn [snd]. by rewrite Hsm. }
  destruct (IsGolden snap) eqn:Hg; [exists sm; unfold ret; cbn [snd]; st_simpl; by rewrite Hsm|].
  msteps. destruct remove as [err|]; [exists sm; unfold ret; cbn [snd]; st_simpl; by rewrite Hsm|].
  msteps. unfold ret. cbn [snd]. st_simpl. rewrite Hsm. eexists. split; [reflexivity|].
  apply keeps_golden_delete. intros snap' Hs'. congruence.
Qed.

Lemma SnapshotManager_Cleanup_keeps order s sm :
  snapshotMgr s = Some sm → names_wf sm → walks_all order →
  ∃ sm', snapshotMgr (SnapshotManager_Cleanup order s).2 = Some sm'
         ∧ keeps_golden sm sm'.
Proof.
  intros Hsm Hwf Hperm.
  destruct (SnapshotManager_Cleanup_spec order s sm Hsm) as (s' & Hrun & Hs').
  rewrite Hrun. simpl. eexists. split; [exact Hs'|].
  unfold cleaned_snapshots. case_decide; [by destruct sm|].
  destruct (find_oldest _) as [oldest|] eqn:Hf; [|by destruct sm].
  apply find_oldest_spec in Hf as (Hin & Hng & _).
  apply list_elem_of_fmap in Hin as ([k snap] & -> & Hin). simpl in *.
  rewrite Hperm in Hin. apply elem_of_map_to_list in Hin.
  rewrite (Hwf _ _ Hin).
  replace (set_snapshots (λ _, delete k (snapshots sm)) sm)
    with (set_snapshots (delete k) sm) by (by destruct sm).
  apply keeps_golden_delete. intros snap' Hs''. congruence.
Qed.

Lemma run_snap_op_keeps op s sm :
  snapshotMgr s = Some sm → names_wf sm → snap_op_ok op →
  ∃ sm', snapshotMgr (run_snap_op op s) = Some sm' ∧ keeps_golden sm sm'.
Proof.
  intros Hsm Hwf Hok. destruct op as [remove name|order]; simpl.
  - by apply SnapshotManager_DeleteSnapshot_keeps.
  - by apply SnapshotManager_Cleanup_keeps.
Qed.

(** X10.  Snapshots with the golden flag are never deleted, and the
    snapshot the manager restores from is safe only through that flag.
    Through any sequence of [DeleteSnapshot] and [Cleanup] calls, whatever
    the removal of files answers and in whatever order the map is walked,
    every snapshot of the index whose [IsGolden] flag is set stays in the
    index, and the index only shrinks.  When the snapshot the manager
    restores from is in the index without the flag, [DeleteSnapshot] of
    its name removes it from the index and removes its files, while the
    manager still holds it: [HasGoldenSnapshot] goes on answering true. *)
Theorem flagged_snapshots_are_kept (ops : list SnapOp) (s : St) (sm : SnapshotManager) :
  snapshotMgr s = Some sm → names_wf sm → Forall snap_op_ok ops →
  (∃ sm',
     snapshotMgr (run_snap_ops ops s) = Some sm'
     ∧ snapshots sm' ⊆ snapshots sm
     ∧ ∀ k snap, snapshots sm !! k = Some snap → IsGolden snap = true →
         snapshots sm' !! k = Some snap)
  ∧ (∀ g, goldenSnapshot sm = Some g → snapshots sm !! SnapName g = Some g →
       IsGolden g = false →
       ∃ s1 sm1,
         SnapshotManager_DeleteSnapshot None (SnapName g) s = (Ret None, s1)
         ∧ snapshotMgr s1 = Some sm1
         ∧ snapshots sm1 !! SnapName g = None
         ∧ trace s1 = trace s ++ [EvRemoveAll (filepath_Dir (MemoryPath g))]
         ∧ SnapshotManager_HasGoldenSnapshot s1 = (Ret true, s1)).
Proof.
  intros Hsm Hwf Hok. split.
  - assert (Hgen : ∃ sm', snapshotMgr (run_snap_ops ops s) = Some sm' ∧ keeps_golden sm sm').
    { revert s sm Hsm Hwf. induction Hok as [|op ops Hop Hok IH]; intros s sm Hsm Hwf.
      - exists sm. by split.
      - destruct (run_snap_op_keeps op s sm Hsm Hwf Hop) as (sm1 & Hsm1 & Hk1).
        destruct (IH (run_snap_op op s) sm1 Hsm1) as (sm' & Hsm' & Hk').
        { eapply names_wf_subseteq; [|exact Hwf]. apply Hk1. }
        exists sm'. split; [exact Hsm'|by etrans]. }
    destruct Hgen as (sm' & Hsm' & _ & _ & Hsub & Hkeep). by exists sm'.
  - intros g Hg Hin Hflag.
    unfold SnapshotManager_DeleteSnapshot, the_snapshotMgr. msteps. rewrite Hsm. msteps.
    rewrite Hin, Hflag. msteps. unfold ret.
    eexists _, _. split; [reflexivity|]. st_simpl. rewrite Hsm.
    cbn [fmap option_fmap option_map]. split; [reflexivity|].
    cbn [snapshots set_snapshots]. split; [by rewrite lookup_delete_eq|].
    split; [reflexivity|].
    unfold SnapshotManager_HasGoldenSnapshot, the_snapshotMgr. msteps. st_simpl.
    rewrite Hsm. cbn [fmap option_fmap option_map]. msteps. unfold ret.
    cbn [goldenSnapshot set_snapshots]. rewrite Hg. reflexivity.
Qed.


Lemma find_oldest_None entries :
  find_oldest entries = None → ∀ snap, snap ∈ entries.*2 → IsGolden snap = true.
Proof.
  unfold find_oldest.
  assert (Hgen : ∀ acc, foldl (λ oldest e, older oldest e.2) acc entries = None →
                   acc = None ∧ ∀ snap, snap ∈ entries.*2 → IsGolden snap = true).
  { induction entries as [|[k v] entries IH]; intros acc Hf.
    - split; [done|]. intros snap Hin. by apply elem_of_nil in Hin.
    - simpl in Hf. apply IH in Hf as [Hacc Hall]. unfold older in Hacc.
      destruct (IsGolden v) eqn:Hg.
      + split; [done|]. intros snap Hin. cbn [fmap list_fmap snd] in Hin.
        apply elem_of_cons in Hin as [->|Hin]; [done|by apply Hall].
      + destruct acc; [case_decide|]; discriminate. }
  intros Hf. by apply Hgen in Hf as [_ Hall].
Qed.

(** X11.  What [Cleanup] removes.  When the store holds more than
    [MaxCached] snapshots, [Cleanup] removes a snapshot that is not golden
    and than which no other non-golden snapshot of the store is older, with
    its files, whatever the order in which the map is walked; every other
    snapshot stays.  When all snapshots are golden it removes nothing.  It
    returns nil in both cases. *)
Theorem SnapshotManager_Cleanup_removes_oldest
    (order : list (string * Snapshot) → list (string * Snapshot)) (s : St)
    (sm : SnapshotManager) :
  snapshotMgr s = Some sm → names_wf sm → walks_all order →
  Z.of_nat (size (snapshots sm)) > MaxCached (sm_config sm) →
  ∃ s' sm',
    SnapshotManager_Cleanup order s = (Ret None, s') ∧ snapshotMgr s' = Some sm'
    ∧ ((snapshots sm' = snapshots sm ∧ trace s' = trace s
        ∧ ∀ k snap, snapshots sm !! k = Some snap → IsGolden snap = true)
       ∨ ∃ oldest,
           snapshots sm !! SnapName oldest = Some oldest ∧ IsGolden oldest = false
           ∧ (∀ k snap, snapshots sm !! k = Some snap → IsGolden snap = false →
                SnapCreatedAt oldest <= SnapCreatedAt snap)
           ∧ snapshots sm' = delete (SnapName oldest) (snapshots sm)
           ∧ trace s' = trace s ++ [EvRemoveAll (filepath_Dir (MemoryPath oldest))]).
Proof.
  intros Hsm Hwf Hperm Hover.
  unfold SnapshotManager_Cleanup, the_snapshotMgr. msteps. rewrite Hsm. msteps.
  rewrite decide_False by lia.
  destruct (find_oldest (order (map_to_list (snapshots sm)))) as [oldest|] eqn:Hf; msteps.
  - eexists _, _. split; [reflexivity|]. st_simpl. rewrite Hsm.
    split; [reflexivity|]. right. exists oldest.
    apply find_oldest_spec in Hf as (Hin & Hng & Hmin).
    assert (Hmem : ∀ k snap, snapshots sm !! k = Some snap
                     → snap ∈ (order (map_to_list (snapshots sm))).*2).
    { intros k snap Hk. apply list_elem_of_fmap. exists (k, snap). split; [done|].
      rewrite Hperm. by apply elem_of_map_to_list. }
    split.
    { apply list_elem_of_fmap in Hin as ([k snap] & -> & Hin). simpl.
      rewrite Hperm in Hin. apply elem_of_map_to_list in Hin. by rewrite (Hwf _ _ Hin). }
    split; [exact Hng|]. split; [|by split].
    intros k snap Hk Hg. apply Hmin; [by eapply Hmem|done].
  - eexists _, _. split; [reflexivity|]. split; [exact Hsm|]. left.
    split; [reflexivity|]. split; [reflexivity|].
    intros k snap Hk. apply (find_oldest_None _ Hf).
    apply list_elem_of_fmap. exists (k, snap). split; [done|].
    rewrite Hperm. by apply elem_of_map_to_list.
Qed.


Lemma wrap_int64_idemp a : wrap_int64 (wrap_int64 a) = wrap_int64 a.
Proof.
  transitivity (wrap_int64 (wrap_int64 a + 0)); [by rewrite Z.add_0_r|].
  rewrite wrap_int64_idemp_l. by rewrite Z.add_0_r.
Qed.

Lemma total_size_perm snaps snaps' : snaps ≡ₚ snaps' → total_size snaps = total_size snaps'.
Proof.
  unfold total_size. induction 1 as [|x l l' _ IH|x y l|l l' l'' _ IH1 _ IH2].
  - done.
  - rewrite !fmap_cons. cbn [foldr]. by rewrite IH.
  - rewrite !fmap_cons. cbn [foldr]. lia.
  - congruence.
Qed.

Lemma size_loop_total (entries : list (string * Snapshot)) total :
  wrap_int64 (foldl (λ total e, wrap_int64 (total + SizeBytes e.2)) total entries)
  = wrap_int64 (total + total_size entries.*2).
Proof.
  revert total. induction entries as [|[k v] entries IH]; intros total.
  - unfold total_size. simpl. by rewrite Z.add_0_r.
  - cbn [foldl snd]. rewrite IH, wrap_int64_idemp_l.
    unfold total_size. rewrite !fmap_cons. cbn [foldr snd]. f_equal. lia.
Qed.

Lemma size_loop_wrapped (entries : list (string * Snapshot)) :
  foldl (λ total e, wrap_int64 (total + SizeBytes e.2)) 0 entries
  = wrap_int64 (total_size entries.*2).
Proof.
  rewrite <- (Z.add_0_l (total_size _)), <- size_loop_total.
  destruct entries as [|e entries _] using rev_ind; [done|].
  rewrite foldl_app. simpl. by rewrite wrap_int64_idemp.
Qed.

(** X12.  [SnapshotManager.Stats] does not depend on the order in which
    the map is walked: the total size it reports is the sum of the sizes of
    all snapshots of the store, reduced to int64, and the number of
    snapshots is the size of the store.  The restore count and the average
    restore time it reports are always zero. *)
Theorem SnapshotManager_Stats_total
    (order : list (string * Snapshot) → list (string * Snapshot)) (s : St)
    (sm : SnapshotManager) :
  snapshotMgr s = Some sm → walks_all order →
  ∃ st,
    SnapshotManager_Stats order s = (Ret st, s)
    ∧ TotalSizeBytes st = wrap_int64 (total_size (map_to_list (snapshots sm)).*2)
    ∧ SnapshotsAvailable st = Z.of_nat (size (snapshots sm))
    ∧ (HasGoldenSnapshot st = true ↔ is_Some (goldenSnapshot sm))
    ∧ RestoreCount st = 0 ∧ AvgRestoreTimeMs st = inject_Z 0.
Proof.
  intros Hsm Hperm. unfold SnapshotManager_Stats, the_snapshotMgr. msteps. rewrite Hsm.
  msteps. eexists. split; [reflexivity|]. simpl.
  split.
  { rewrite size_loop_wrapped. f_equal. apply total_size_perm. by rewrite Hperm. }
  split; [reflexivity|]. split; [|done].
  rewrite bool_decide_eq_true. destruct (goldenSnapshot sm); split; done.
Qed.







(** ** Agent client: request ids and the readiness probe *)

Lemma id_after_S rid n : id_after rid (S n) = wrap_uint64 (id_after rid n + 1).
Proof. revert rid. induction n as [|n IH]; intros rid; [done|]. simpl in *. by rewrite IH. Qed.

Lemma probe_not_answered o id :
  ¬ probe_answered o id →
  match call_result o id with
  | OK resp => is_Some (RespError resp)
  | Error _ => True
  end.
Proof.
  intros Hn. unfold call_result. destruct (call_encode o) eqn:He; [done|].
  destruct (call_decode o) as [resp|e] eqn:Hd; [|done].
  case_decide as Hid; [done|].
  destruct (RespError resp) eqn:Hr; [by eexists|].
  exfalso. apply Hn. split; [done|]. exists resp. split; [done|]. split; [|done].
  by destruct (decide (RespID resp = id)).
Qed.

Lemma probe_is_answered o id :
  probe_answered o id → ∃ resp, call_result o id = OK resp ∧ RespError resp = None.
Proof.
  intros (He & resp & Hd & Hid & Hr). exists resp. unfold call_result.
  rewrite He, Hd. by rewrite decide_False by (by intros H; apply H).
Qed.

Lemma connected_state_id s cl cn :
  agentClient s = Some cl → conn cl = Some cn →
  set_agentClient (λ _, Some {| conn := Some cn; requestID := requestID cl |}) s = s.
Proof.
  intros Hcl Hcn. apply St_eq; st_simpl; try reflexivity.
  rewrite Hcl. destruct cl; simpl in *. by rewrite Hcn.
Qed.

Lemma waitForReady_loop_go_on w : ∀ k rounds i s cl cn,
  agentClient s = Some cl → conn cl = Some cn →
  (∀ j, (j < k)%nat →
     wait_ctx w (i + j) = None
     ∧ ¬ probe_answered (wait_call w (i + j)) (wrap_uint64 (id_after (requestID cl) j + 1))) →
  waitForReady_loop (k + rounds) i w s =
  waitForReady_loop rounds (i + k) w
    (set_trace (λ t, t ++ waiting_events cn w (requestID cl) i k)
       (set_agentClient
          (λ _, Some {| conn := Some cn; requestID := id_after (requestID cl) k |}) s)).
Proof.
  induction k as [|k IH]; intros rounds i s cl cn Hcl Hcn Hw.
  - rewrite Nat.add_0_r. cbn [plus id_after waiting_events].
    rewrite (connected_state_id _ _ _ Hcl Hcn). f_equal.
    apply St_eq; st_simpl; try reflexivity. by rewrite app_nil_r.
  - destruct (Hw 0%nat) as [Hctx Hna]; [lia|]. rewrite Nat.add_0_r in Hctx, Hna.
    cbn [id_after] in Hna.
    cbn [plus waitForReady_loop]. rewrite Hctx.
    erewrite bind_Ret by (by apply Client_call_spec). cbv beta.
    assert (Hsleep :
      ∀ (r : res Response) (k1 k2 : M (option error)) s0,
        match r with OK resp => is_Some (RespError resp) | Error _ => True end →
        match r with
        | OK {| RespError := None |} => k1
        | _ => k2
        end s0 = k2 s0).
    { intros [[rid res [re|]]|e] k1 k2 s0 Hr; try reflexivity. by destruct Hr. }
    rewrite Hsleep by (by apply probe_not_answered). msteps.
    erewrite IH; [| st_simpl; reflexivity | reflexivity |].
    + replace (S i + k)%nat with (i + S k)%nat by lia. f_equal.
      apply St_eq; st_simpl; try reflexivity.
      unfold called_state. st_simpl. rewrite <- !app_assoc. reflexivity.
    + intros j Hj. cbn [requestID]. destruct (Hw (S j)) as [Hc Hn]; [lia|].
      replace (S i + j)%nat with (i + S j)%nat by lia. split; [exact Hc|].
      exact Hn.
Qed.


Lemma filter_is_ping_call_events cn o rid :
  pings (call_events cn o ping (wrap_uint64 (rid + 1))) = 1%nat.
Proof. unfold pings, call_events. rewrite filter_cons. simpl. by destruct (call_encode o). Qed.

Lemma pings_app t1 t2 : pings (t1 ++ t2) = (pings t1 + pings t2)%nat.
Proof. unfold pings. by rewrite filter_app, length_app. Qed.

Lemma sleeps_app t1 t2 : sleeps (t1 ++ t2) = (sleeps t1 + sleeps t2)%nat.
Proof. unfold sleeps. by rewrite filter_app, length_app. Qed.

Lemma sleeps_call_events cn o req id : sleeps (call_events cn o req id) = 0%nat.
Proof. unfold sleeps, call_events. rewrite filter_cons. simpl. by destruct (call_encode o). Qed.

Lemma waiting_events_counts cn w rid i n :
  pings (waiting_events cn w rid i n) = n ∧ sleeps (waiting_events cn w rid i n) = n
  ∧ Forall (λ e, is_conn_close e = false) (waiting_events cn w rid i n).
Proof.
  revert rid i. induction n as [|n IH]; intros rid i; [by repeat split|].
  destruct (IH (wrap_uint64 (rid + 1)) (S i)) as (IH1 & IH2 & IH3).
  cbn [waiting_events]. rewrite !pings_app, !sleeps_app, IH1, IH2.
  rewrite filter_is_ping_call_events, sleeps_call_events.
  split; [reflexivity|]. split; [reflexivity|].
  rewrite !Forall_app. split; [|split; [by repeat constructor|exact IH3]].
  unfold call_events. destruct (call_encode _); by repeat constructor.
Qed.

Lemma dial_events_counts o vsockPath cid port :
  pings (dial_events o vsockPath cid port) = 0%nat
  ∧ sleeps (dial_events o vsockPath cid port) = 0%nat
  ∧ Forall (λ e, is_conn_close e = false) (dial_events o vsockPath cid port).
Proof. unfold dial_events. destruct (conn_vsock o); by repeat constructor. Qed.

(** The run of [Connect] up to the loop of [waitForReady]. *)
Lemma Client_Connect_dialed o vsockPath cid port s cl cn :
  agentClient s = Some cl → dials o cn →
  Client_Connect o vsockPath cid port s =
  (err <- Client_waitForReady (conn_wait o) ;;
   match err with
   | Some err =>
       do emit (EvConnClose cn) ;;
       ret (Some (Wrap "agent not ready" err))
   | None => ret None
   end)
    (set_agentClient (λ _, Some {| conn := Some cn; requestID := requestID cl |})
       (set_trace (λ t, t ++ dial_events o vsockPath cid port) s)).
Proof.
  intros Hcl Hd. unfold Client_Connect, the_client, dial_events. msteps.
  destruct Hd as [Hv|[[e Hv] Hu]]; rewrite Hv; msteps; rewrite ?Hu; msteps;
    st_simpl; rewrite Hcl; msteps; (f_equal; apply St_eq; st_simpl;
      first [reflexivity | by rewrite <- !app_assoc]).
Qed.

(** X14.  [Connect] waits for the first answer.  When the dial works, the
    first [k] probes get no good answer (the write or the read fails, the
    response has another id, or it carries an error) and probe [k], with
    [k < 30], is answered, [Connect] returns nil after exactly [k + 1] pings
    and [k] sleeps of 100 ms; the connection is not closed and stays with
    the client, whose request counter has advanced by [k + 1]. *)
Theorem Client_Connect_first_answer
    (o : ConnectOracle) (vsockPath : string) (cid port : Z) (s : St) (cl : Client) (cn : Conn)
    (k : nat) :
  agentClient s = Some cl → dials o cn → (k < 30)%nat →
  probes_go_on (conn_wait o) (requestID cl) k →
  wait_ctx (conn_wait o) k = None →
  probe_answered (wait_call (conn_wait o) k) (wrap_uint64 (id_after (requestID cl) k + 1)) →
  ∃ s' evs,
    Client_Connect o vsockPath cid port s = (Ret None, s')
    ∧ agentClient s' = Some {| conn := Some cn; requestID := id_after (requestID cl) (S k) |}
    ∧ trace s' = trace s ++ evs
    ∧ pings evs = S k ∧ sleeps evs = k
    ∧ Forall (λ e, is_conn_close e = false) evs.
Proof.
  intros Hcl Hd Hk Hgo Hctx Hans.
  rewrite (Client_Connect_dialed _ _ _ _ _ _ _ Hcl Hd).
  unfold Client_waitForReady. replace 30%nat with (k + S (29 - k))%nat by lia.
  erewrite bind_Ret; cycle 1.
  { erewrite waitForReady_loop_go_on; [| st_simpl; reflexivity | reflexivity |].
    - cbn [plus waitForReady_loop requestID]. rewrite Hctx.
      erewrite bind_Ret by (apply Client_call_spec; st_simpl; reflexivity).
      cbv beta. cbn [requestID].
      destruct (probe_is_answered _ _ Hans) as (resp & Hres & Herr).
      rewrite Hres. destruct resp as [rid res re]. simpl in Herr. rewrite Herr.
      reflexivity.
    - intros j Hj. cbn [plus requestID]. by apply Hgo. }
  cbv beta iota. unfold ret.
  eexists _, (dial_events o vsockPath cid port
              ++ waiting_events cn (conn_wait o) (requestID cl) 0 k
              ++ call_events cn (wait_call (conn_wait o) k) ping
                   (wrap_uint64 (id_after (requestID cl) k + 1))).
  split; [reflexivity|]. unfold called_state. st_simpl.
  split; [by rewrite id_after_S|].
  split; [by rewrite <- !app_assoc|].
  destruct (dial_events_counts o vsockPath cid port) as (Hd1 & Hd2 & Hd3).
  destruct (waiting_events_counts cn (conn_wait o) (requestID cl) 0 k) as (Hw1 & Hw2 & Hw3).
  rewrite !pings_app, !sleeps_app, Hd1, Hd2, Hw1, Hw2.
  rewrite filter_is_ping_call_events, sleeps_call_events.
  split; [lia|]. split; [lia|].
  rewrite !Forall_app. split; [exact Hd3|]. split; [exact Hw3|].
  unfold call_events. destruct (call_encode _); by repeat constructor.
Qed.


(** X15.  [Connect] under a context that ends.  When the dial works and
    the context is done before probe [k] (after [k < 30] probes without a
    good answer), [Connect] stops probing: it has sent [k] pings, closes the
    connection and returns the context's error wrapped as "agent not
    ready".  The client keeps the closed connection: a later call does not
    fail with "not connected" but writes its request to that connection. *)
Theorem Client_Connect_context_done
    (o : ConnectOracle) (vsockPath : string) (cid port : Z) (s : St) (cl : Client) (cn : Conn)
    (k : nat) (err : error) :
  agentClient s = Some cl → dials o cn → (k < 30)%nat →
  probes_go_on (conn_wait o) (requestID cl) k →
  wait_ctx (conn_wait o) k = Some err →
  ∃ s' evs,
    Client_Connect o vsockPath cid port s = (Ret (Some (Wrap "agent not ready" err)), s')
    ∧ trace s' = trace s ++ evs ++ [EvConnClose cn]
    ∧ pings evs = k ∧ Forall (λ e, is_conn_close e = false) evs
    ∧ agentClient s' = Some {| conn := Some cn; requestID := id_after (requestID cl) k |}
    ∧ ∀ oc req, ∃ f rest,
        trace (Client_call oc req s').2 = trace s' ++ EvEncode cn f :: rest
        ∧ frame_method f = Method req.
Proof.
  intros Hcl Hd Hk Hgo Hctx.
  rewrite (Client_Connect_dialed _ _ _ _ _ _ _ Hcl Hd).
  unfold Client_waitForReady. replace 30%nat with (k + S (29 - k))%nat by lia.
  erewrite bind_Ret; cycle 1.
  { erewrite waitForReady_loop_go_on; [| st_simpl; reflexivity | reflexivity |].
    - cbn [plus waitForReady_loop requestID]. rewrite Hctx. reflexivity.
    - intros j Hj. cbn [plus requestID]. by apply Hgo. }
  cbv beta iota. msteps. unfold ret.
  eexists _, (dial_events o vsockPath cid port
              ++ waiting_events cn (conn_wait o) (requestID cl) 0 k).
  split; [reflexivity|]. st_simpl.
  split; [by rewrite <- !app_assoc|].
  destruct (dial_events_counts o vsockPath cid port) as (Hd1 & Hd2 & Hd3).
  destruct (waiting_events_counts cn (conn_wait o) (requestID cl) 0 k) as (Hw1 & Hw2 & Hw3).
  split; [by rewrite pings_app, Hd1, Hw1|].
  split; [by rewrite Forall_app|]. split; [reflexivity|].
  intros oc req. eexists _, _.
  erewrite Client_call_spec; [|st_simpl; reflexivity|reflexivity].
  unfold called_state, call_events. st_simpl. split; reflexivity.
Qed.

Lemma sent_ids_app t1 t2 : sent_ids (t1 ++ t2) = sent_ids t1 ++ sent_ids t2.
Proof. apply omap_app. Qed.

Lemma sent_ids_call_events cn o req id : sent_ids (call_events cn o req id) = [id].
Proof. unfold call_events, sent_ids. simpl. by destruct (call_encode o). Qed.

Lemma ids_from_S rid n : ids_from rid (S n) = wrap_uint64 (rid + 1) :: ids_from (rid + 1) n.
Proof.
  unfold ids_from. cbn [seq fmap list_fmap]. f_equal. rewrite <- fmap_S_seq, <- list_fmap_compose.
  apply list_fmap_ext. intros _ i _. simpl. f_equal. lia.
Qed.

Lemma ids_from_wrap rid n : ids_from (wrap_uint64 rid) n = ids_from rid n.
Proof.
  unfold ids_from. apply list_fmap_ext. intros _ i _. unfold wrap_uint64.
  by rewrite Zplus_mod_idemp_l.
Qed.

Lemma call_all_spec calls : ∀ s cl cn,
  agentClient s = Some cl → conn cl = Some cn →
  ∃ evs,
    trace (call_all calls s) = trace s ++ evs
    ∧ sent_ids evs = ids_from (requestID cl) (length calls)
    ∧ agentClient (call_all calls s)
      = Some {| conn := Some cn; requestID := id_after (requestID cl) (length calls) |}.
Proof.
  induction calls as [|[o req] calls IH]; intros s cl cn Hcl Hcn.
  - exists []. split; [by rewrite app_nil_r|]. split; [done|].
    simpl. rewrite Hcl. destruct cl; simpl in *. by rewrite Hcn.
  - unfold call_all in *. cbn [foldl fst snd length].
    rewrite (Client_call_spec o req s cl cn Hcl Hcn). cbn [snd].
    edestruct (IH (called_state cn o req (wrap_uint64 (requestID cl + 1)) s))
      as (evs & Ht & Hids & Hc); [unfold called_state; st_simpl; reflexivity|reflexivity|].
    cbn [requestID] in *.
    exists (call_events cn o req (wrap_uint64 (requestID cl + 1)) ++ evs).
    split; [rewrite Ht; unfold called_state; st_simpl; by rewrite <- app_assoc|].
    split; [|exact Hc].
    rewrite sent_ids_app, sent_ids_call_events, Hids, ids_from_S, ids_from_wrap. reflexivity.
Qed.

Lemma ids_from_NoDup rid n : Z.of_nat n <= 2 ^ 64 → NoDup (ids_from rid n).
Proof.
  intros Hn. unfold ids_from. apply NoDup_fmap_2_strong; [|apply NoDup_seq].
  intros i j Hi Hj Heq. apply elem_of_seq in Hi, Hj. unfold wrap_uint64 in Heq.
  assert (Hd : (rid + Z.of_nat i - (rid + Z.of_nat j)) mod 2 ^ 64 = 0).
  { rewrite Zminus_mod, Heq, Z.sub_diag. reflexivity. }
  replace (rid + Z.of_nat i - (rid + Z.of_nat j)) with (Z.of_nat i - Z.of_nat j) in Hd by lia.
  apply Z.mod_divide in Hd; [|lia]. destruct Hd as [q Hq]. nia.
Qed.

(** X16.  Request ids.  On a connected client every call, whatever its
    outcome, writes one request, and the requests of [n] calls in a row
    carry the ids [rid + 1, ..., rid + n] (as uint64), where [rid] is the
    client's counter before the first; they are pairwise different as long
    as [n] is at most 2^64.  A client without a connection answers every
    call with "not connected", writes nothing and uses up no id. *)
Theorem Client_call_ids (calls : list (CallOracle * Request)) (s : St) (cl : Client) :
  agentClient s = Some cl →
  (∀ cn, conn cl = Some cn →
     ∃ evs,
       trace (call_all calls s) = trace s ++ evs
       ∧ sent_ids evs = ids_from (requestID cl) (length calls)
       ∧ (Z.of_nat (length calls) <= 2 ^ 64 → NoDup (sent_ids evs))
       ∧ requestID <$> agentClient (call_all calls s)
         = Some (id_after (requestID cl) (length calls)))
  ∧ (conn cl = None →
     call_all calls s = s
     ∧ ∀ o req, Client_call o req s = (Ret (Error (Errorf "not connected")), s)).
Proof.
  intros Hcl. split.
  - intros cn Hcn. destruct (call_all_spec calls s cl cn Hcl Hcn) as (evs & Ht & Hids & Hc).
    exists evs. split; [exact Ht|]. split; [exact Hids|]. split.
    + intros Hn. rewrite Hids. by apply ids_from_NoDup.
    + by rewrite Hc.
  - intros Hcn.
    assert (Hcall : ∀ o req, Client_call o req s = (Ret (Error (Errorf "not connected")), s)).
    { intros o req. unfold Client_call, the_client. msteps. rewrite Hcl. msteps.
      by rewrite Hcn. }
    split; [|exact Hcall].
    induction calls as [|[o req] calls IH]; [done|].
    unfold call_all in *. cbn [foldl fst snd]. by rewrite Hcall.
Qed.


Lemma quot_Second_zero t : Z.quot t Second = 0 ↔ Z.abs t < Second.
Proof.
  rewrite Z.quot_small_iff by done. unfold Second. lia.
Qed.

Lemma Agent_stopContainer_timeout_zero c t :
  Duration_Seconds_int t = 0 →
  Agent_stopContainer_timeout (stop_container_params c t) = inject_Z 10.
Proof.
  intros Hz. unfold Agent_stopContainer_timeout, stop_container_params.
  rewrite lookup_insert_ne by done. rewrite lookup_insert_eq. cbv zeta.
  by rewrite Hz.
Qed.

Lemma Service_Kill_trace o r s proc :
  processes (service s) !! procID_of r = Some proc →
  trace (Service_Kill o r s).2
  = trace (Client_StopContainer o (containerID proc) (30 * Second) s).2.
Proof.
  intros Hp. unfold Service_Kill. msteps. rewrite Hp. unfold bind.
  destruct (Client_StopContainer o (containerID proc) (30 * Second) s) as [[[e|]|why] s1];
    reflexivity.
Qed.

(** X17.  The stop timeout, from the client to the agent.  The request of
    [StopContainer] carries the timeout in whole seconds, and the agent
    takes zero to mean that none was given.  So for a timeout of one second
    or more (below 2^24 s) the agent waits as many whole seconds as the
    caller asked for, and for a timeout shorter than one second it waits its
    default of 10 seconds.  [Service.Kill] always asks for 30 seconds. *)
Theorem StopContainer_timeout_at_the_agent
    (o : CallOracle) (c : string) (t : time_Duration) (s : St) (cl : Client) (cn : Conn) :
  agentClient s = Some cl → conn cl = Some cn → Z.abs t < 2 ^ 24 * Second →
  (∃ f params rest,
     trace (Client_StopContainer o c t s).2 = trace s ++ EvEncode cn f :: rest
     ∧ frame_params f = Some params
     ∧ (Second <= Z.abs t →
        Agent_stopContainer_timeout params = inject_Z (Z.quot t Second))
     ∧ (Z.abs t < Second → Agent_stopContainer_timeout params = inject_Z 10))
  ∧ (∀ r proc, processes (service s) !! procID_of r = Some proc →
       ∃ f params rest,
         trace (Service_Kill o r s).2 = trace s ++ EvEncode cn f :: rest
         ∧ frame_method f = "stop_container"
         ∧ frame_params f = Some params
         ∧ params !! "id" = Some (JStr (containerID proc))
         ∧ Agent_stopContainer_timeout params = inject_Z 30).
Proof.
  intros Hcl Hcn Hlt. pose proof (Duration_Seconds_int_small t Hlt) as Hsec. split.
  - eexists _, _, _. split; [by apply Client_StopContainer_trace|].
    split; [reflexivity|]. split.
    + intros Hge. rewrite <- Hsec. apply Agent_stopContainer_reads_timeout.
      rewrite Hsec, quot_Second_zero. lia.
    + intros Hsmall. apply Agent_stopContainer_timeout_zero.
      rewrite Hsec. by apply quot_Second_zero.
  - intros r proc Hp. eexists _, _, _.
    split; [rewrite (Service_Kill_trace _ _ _ _ Hp); by apply Client_StopContainer_trace|].
    split; [reflexivity|]. split; [reflexivity|].
    split; [unfold stop_container_params; by rewrite lookup_insert_eq|].
    rewrite Agent_stopContainer_reads_timeout; [reflexivity|]. by vm_compute.
Qed.


(** ** Shim service: the processes *)

(** X18.  [State] finds a process only under the exec id of the request.
    For a request without an exec id, which is how the init process of a
    task is addressed (and how [Start], [Kill], [Delete] and [Wait] find it,
    under the task id), [State] answers NotFound, unless a process is stored
    under the empty id; the task id of the request plays no part.  A
    process it finds is reported as stopped if an exit time is recorded,
    else as running if its pid is positive, else as created. *)
Theorem Service_State_looks_up_ExecID (r : TaskRequest) (s : St) :
  (tr_ExecID r = "" → processes (service s) !! "" = None →
     Service_State r s = (Ret (Error (ToGRPC ErrNotFound "process  not found")), s)
     ∧ ∀ proc, processes (service s) !! tr_ID r = Some proc →
         processes (service s) !! procID_of r = Some proc)
  ∧ (∀ id, Service_State {| tr_ID := id; tr_ExecID := tr_ExecID r |} s = Service_State r s)
  ∧ (∀ proc, processes (service s) !! tr_ExecID r = Some proc →
       ∃ resp, Service_State r s = (Ret (OK resp), s)
               ∧ st_ID resp = proc_id proc ∧ st_Pid resp = wrap_uint32 (proc_pid proc)
               ∧ st_Bundle resp = svc_bundle (service s)
               ∧ st_Status resp = Service_processStatus proc
               ∧ (st_Status resp = Status_STOPPED ↔ exitedAt proc ≠ 0)
               ∧ (st_Status resp = Status_RUNNING ↔ exitedAt proc = 0 ∧ proc_pid proc > 0)).
Proof.
  split; [|split].
  - intros He Hn. split.
    + unfold Service_State. msteps. by rewrite He, Hn.
    + intros proc Hp. unfold procID_of. by rewrite decide_False by (by rewrite He; intros H).
  - intros id. reflexivity.
  - intros proc Hp. unfold Service_State. msteps. rewrite Hp.
    eexists. split; [reflexivity|]. simpl. repeat split; try done.
    + unfold Service_processStatus. intros Hs.
      destruct (decide (exitedAt proc ≠ 0)); [done|]. by destruct (decide (proc_pid proc > 0)).
    + intros Hne. unfold Service_processStatus. by rewrite decide_True.
    + unfold Service_processStatus in H.
      destruct (decide (exitedAt proc ≠ 0)); [done|]. by apply dec_stable.
    + unfold Service_processStatus in H.
      destruct (decide (exitedAt proc ≠ 0)); [done|].
      by destruct (decide (proc_pid proc > 0)).
    + intros [He Hp']. unfold Service_processStatus.
      rewrite decide_False by (by intros H; apply H). by rewrite decide_True.
Qed.


Lemma destroy_events_no_close cfg o sb cn :
  AgentConn sb ≠ Some cn → EvConnClose cn ∉ destroy_events cfg o sb.
Proof.
  intros Hne. unfold destroy_events, stop_events.
  rewrite !not_elem_of_app. repeat split.
  - case_decide; [|by apply not_elem_of_nil]. destruct (VM sb).
    + rewrite !not_elem_of_app. repeat split;
        repeat case_match; rewrite ?not_elem_of_cons; repeat split;
        try discriminate; apply not_elem_of_nil.
    + rewrite not_elem_of_cons. split; [discriminate|apply not_elem_of_nil].
  - destruct (AgentConn sb) as [c|]; [|apply not_elem_of_nil].
    rewrite not_elem_of_cons. split; [congruence|apply not_elem_of_nil].
  - rewrite not_elem_of_cons. split; [discriminate|apply not_elem_of_nil].
  - case_match; rewrite ?not_elem_of_cons; repeat split;
      try discriminate; apply not_elem_of_nil.
Qed.

(** The first part of [Delete]: the agent is asked to remove the
    container, and whatever comes of it only shows in the log. *)
Lemma Service_Delete_remove_part (o : CallOracle) (c : string) s :
  ∃ s1 evs,
    match agentClient s with
    | Some _ =>
        err <- Client_RemoveContainer o c ;;
        match err with
        | Some _ => emit (EvWarn "Error removing container")
        | None => ret tt
        end
    | None => ret tt
    end s = (Ret tt, s1)
    ∧ heap s1 = heap s ∧ manager s1 = manager s ∧ pool s1 = pool s
    ∧ service s1 = service s
    ∧ conn <$> agentClient s1 = conn <$> agentClient s
    ∧ trace s1 = trace s ++ evs ∧ ∀ cn, EvConnClose cn ∉ evs.
Proof.
  destruct (agentClient s) as [cl|] eqn:Hcl.
  2:{ exists s, []. split; [reflexivity|]. rewrite app_nil_r.
      do 6 (split; [by rewrite ?Hcl|]). intros cn. apply not_elem_of_nil. }
  unfold Client_RemoveContainer. rewrite !bind_bind.
  destruct (conn cl) as [cn|] eqn:Hcn.
  - erewrite bind_Ret by (by apply Client_call_spec). cbv beta.
    assert (Hnc : ∀ cn' req id, EvConnClose cn' ∉ call_events cn o req id).
    { intros cn' req id. unfold call_events. destruct (call_encode o);
        rewrite ?not_elem_of_cons; repeat split; try discriminate; apply not_elem_of_nil. }
    assert (Hnw : ∀ cn' req id msg,
              EvConnClose cn' ∉ call_events cn o req id ++ [EvWarn msg]).
    { intros cn' req id msg. rewrite not_elem_of_app. split; [apply Hnc|].
      rewrite not_elem_of_cons. split; [discriminate|apply not_elem_of_nil]. }
    destruct (call_result o _) as [resp|e]; [destruct (RespError resp)|]; msteps;
      eexists _, _; (split; [reflexivity|]); unfold called_state; st_simpl;
      cbn [fmap option_fmap option_map conn]; rewrite Hcn;
      (do 5 (split; [reflexivity|]));
      (split; [first [reflexivity | by rewrite <- app_assoc]|]);
      intros cn0; first [apply Hnw | apply Hnc].
  - erewrite bind_Ret; cycle 1.
    { unfold Client_call, the_client. msteps. rewrite Hcl. msteps. rewrite Hcn. reflexivity. }
    cbv beta. msteps. eexists _, _. split; [reflexivity|]. st_simpl.
    do 6 (split; [by rewrite ?Hcl|]). intros cn. rewrite not_elem_of_cons.
    split; [discriminate|apply not_elem_of_nil].
Qed.


Lemma Pool_Release_returns o l s sb :
  heap s !! l = Some sb → pool_sized s → chan_closed (available (pool s)) = false →
  ∃ s' evs,
    Pool_Release o l s = (Ret None, s')
    ∧ inUse (pool s') = delete (ID sb) (inUse (pool s))
    ∧ service s' = service s ∧ agentClient s' = agentClient s
    ∧ trace s' = trace s ++ evs
    ∧ ∀ cn, AgentConn sb ≠ Some cn → EvConnClose cn ∉ evs.
Proof.
  intros H Hsz Hc. destruct (decide (release_destroys o sb s)) as [Hd|Hd].
  - eexists _, _. split; [by apply Pool_Release_destroyed|]. st_simpl.
    do 4 (split; [reflexivity|]). intros cn Hne. by apply destroy_events_no_close.
  - assert (Hlen : Z.of_nat (length (buf (available (pool s)))) < cap (available (pool s))).
    { unfold release_destroys in Hd. rewrite Hsz. lia. }
    exists (set_pool (set_available (set_buf (λ b, b ++ [l])))
              (set_heap (<[l := pooled_sandbox o sb]>)
                 (set_pool (set_inUse (delete (ID sb))) s))), [].
    split; [by apply Pool_Release_queued|]. st_simpl.
    do 3 (split; [reflexivity|]). split; [by rewrite app_nil_r|].
    intros cn _. apply not_elem_of_nil.
Qed.

(** X19.  [Delete] of the init process of a task on a service that holds
    a sandbox, the queue of the pool being open.  Once the process exists,
    [Delete] does not fail: whatever the agent answers to
    "remove_container" (and even without a connection), it returns the pid
    and the exit status it has on record, forgets the process, hands the
    sandbox back to the pool and forgets it too, so that a later [Cleanup]
    has nothing to destroy.  The connection of the client stays with the
    client, and no connection is closed other than, when the sandbox is
    destroyed, the one stored in the sandbox. *)
Theorem Service_Delete_releases
    (o : DeleteOracle) (d : DestroyOracle) (r : TaskRequest) (s : St) (proc : processState)
    (l : loc) (sb : Sandbox) :
  tr_ExecID r = "" → processes (service s) !! tr_ID r = Some proc →
  svc_sandbox (service s) = Some l → heap s !! l = Some sb →
  pool_sized s → chan_closed (available (pool s)) = false →
  ∃ s' resp evs,
    Service_Delete o r s = (Ret (OK resp), s')
    ∧ del_Pid resp = wrap_uint32 (proc_pid proc)
    ∧ del_ExitStatus resp = wrap_uint32 (exitStatus proc)
    ∧ processes (service s') = delete (tr_ID r) (processes (service s))
    ∧ svc_sandbox (service s') = None
    ∧ inUse (pool s') = delete (ID sb) (inUse (pool s))
    ∧ Service_Cleanup d s' = (Ret tt, s')
    ∧ conn <$> agentClient s' = conn <$> agentClient s
    ∧ trace s' = trace s ++ evs
    ∧ ∀ cn, AgentConn sb ≠ Some cn → EvConnClose cn ∉ evs.
Proof.
  intros He Hp Hsb Hl Hsz Hc.
  assert (Hid : procID_of r = tr_ID r).
  { unfold procID_of. by rewrite decide_False by (by rewrite He; intros H). }
  destruct (Service_Delete_remove_part (del_remove o) (containerID proc) s)
    as (s1 & evs1 & Hrun1 & Hh1 & Hm1 & Hp1 & Hs1 & Hc1 & Ht1 & Hn1).
  set (s2 := set_service (set_processes (delete (tr_ID r))) s1).
  destruct (Pool_Release_returns (del_release o) l s2 sb)
    as (s3 & evs3 & Hrun3 & Hu3 & Hs3 & Hc3 & Ht3 & Hn3).
  { subst s2. st_simpl. by rewrite Hh1. }
  { subst s2. unfold pool_sized. st_simpl. by rewrite Hp1. }
  { subst s2. st_simpl. by rewrite Hp1. }
  eexists (set_service (set_svc_sandbox None) s3), _, (evs1 ++ evs3).
  split.
  { unfold Service_Delete. rewrite Hid. rewrite bind_gets. rewrite Hp. cbv beta iota.
    rewrite bind_gets. rewrite (bind_Ret _ _ _ _ _ Hrun1). msteps. fold s2.
    replace (svc_sandbox (service s2)) with (Some l)
      by (subst s2; st_simpl; cbn [svc_sandbox set_processes]; by rewrite Hs1, Hsb).
    rewrite decide_True by exact He. rewrite !bind_bind.
    rewrite (bind_Ret _ _ _ _ _ Hrun3). msteps. reflexivity. }
  st_simpl. cbn [del_Pid del_ExitStatus svc_sandbox set_svc_sandbox processes].
  split; [reflexivity|]. split; [reflexivity|].
  split; [rewrite Hs3; subst s2; st_simpl; cbn [processes set_processes]; by rewrite Hs1|].
  split; [reflexivity|].
  split; [rewrite Hu3; subst s2; st_simpl; by rewrite Hp1|].
  split; [unfold Service_Cleanup; by msteps|].
  split; [rewrite Hc3; subst s2; st_simpl; exact Hc1|].
  split; [rewrite Ht3; subst s2; st_simpl; by rewrite Ht1, app_assoc|].
  intros cn Hne. rewrite not_elem_of_app. split; [apply Hn1|by apply Hn3].
Qed.


#[local] Instance same_service_preorder : PreOrder same_service.
Proof. split; [by intros s|]. intros s1 s2 s3 H1 H2. unfold same_service in *. congruence. Qed.

Ltac service_walk := preserves_walk ltac:(reflexivity).

Lemma Manager_CreateVM_service o config : preserves same_service (Manager_CreateVM o config).
Proof. unfold Manager_CreateVM. service_walk. Qed.

Lemma Manager_StopVM_service o l : preserves same_service (Manager_StopVM o l).
Proof. unfold Manager_StopVM. service_walk. Qed.

Lemma Manager_DestroyVM_service o l : preserves same_service (Manager_DestroyVM o l).
Proof.
  unfold Manager_DestroyVM. service_walk; try apply Manager_StopVM_service; service_walk.
Qed.

Lemma Pool_Acquire_service o config : preserves same_service (Pool_Acquire o config).
Proof.
  unfold Pool_Acquire, Pool_createFresh, Pool_customizeVM.
  service_walk; try apply Manager_DestroyVM_service; try apply Manager_CreateVM_service;
    service_walk; try apply Manager_CreateVM_service; service_walk.
Qed.

Lemma Pool_Release_service o l : preserves same_service (Pool_Release o l).
Proof.
  unfold Pool_Release, Pool_resetVM.
  service_walk; try apply Manager_DestroyVM_service; service_walk;
    try apply Manager_DestroyVM_service; service_walk.
Qed.

Lemma Client_call_service o req : preserves same_service (Client_call o req).
Proof. unfold Client_call, the_client. service_walk. Qed.

Lemma waitForReady_loop_service rounds i w : preserves same_service (waitForReady_loop rounds i w).
Proof.
  revert i. induction rounds as [|rounds IH]; intros i; simpl; [service_walk|].
  service_walk; try apply Client_call_service; service_walk; try apply IH.
Qed.

Lemma Client_Connect_service o vsockPath cid port :
  preserves same_service (Client_Connect o vsockPath cid port).
Proof.
  unfold Client_Connect, Client_waitForReady, the_client.
  service_walk; try apply waitForReady_loop_service; service_walk.
Qed.

Lemma Client_CreateContainer_service o spec :
  preserves same_service (Client_CreateContainer o spec).
Proof. unfold Client_CreateContainer. service_walk; try apply Client_call_service; service_walk. Qed.

Lemma Client_StartContainer_service o c : preserves same_service (Client_StartContainer o c).
Proof. unfold Client_StartContainer. service_walk; try apply Client_call_service; service_walk. Qed.

Lemma Client_StopContainer_service o c t : preserves same_service (Client_StopContainer o c t).
Proof. unfold Client_StopContainer. service_walk; try apply Client_call_service; service_walk. Qed.

Lemma Client_RemoveContainer_service o c : preserves same_service (Client_RemoveContainer o c).
Proof. unfold Client_RemoveContainer. service_walk; try apply Client_call_service; service_walk. Qed.


#[local] Instance keeps_no_exit_preorder : PreOrder keeps_no_exit.
Proof. split; [by intros s H|]. intros s1 s2 s3 H1 H2 H. by apply H2, H1. Qed.

Lemma same_service_keeps_no_exit {A} (m : M A) :
  preserves same_service m → preserves keeps_no_exit m.
Proof.
  intros Hm s Hinv id proc Hp. specialize (Hm s). unfold same_service in Hm.
  rewrite Hm in Hp. by apply (Hinv id).
Qed.

Lemma no_exit_insert s id proc :
  exitedAt proc = 0 → exitStatus proc = 0 →
  keeps_no_exit s (set_service (set_processes (<[id := proc]>)) s).
Proof.
  intros H1 H2 Hinv id' proc' Hp. st_simpl in Hp. cbn [processes set_processes] in Hp.
  destruct (decide (id = id')) as [->|Hne].
  - rewrite lookup_insert_eq in Hp. by injection Hp as <-.
  - rewrite lookup_insert_ne in Hp by done. by apply (Hinv id').
Qed.

Lemma no_exit_delete s id :
  keeps_no_exit s (set_service (set_processes (delete id)) s).
Proof.
  intros Hinv id' proc' Hp. st_simpl in Hp. cbn [processes set_processes] in Hp.
  apply lookup_delete_Some in Hp as [_ Hp]. by apply (Hinv id').
Qed.

Ltac no_exit_leaf :=
  solve [ by apply no_exit_insert
        | apply no_exit_delete
        | intros Hinv; exact Hinv ].

Lemma Service_Create_no_exit o r : preserves keeps_no_exit (Service_Create o r).
Proof.
  unfold Service_Create.
  preserves_walk no_exit_leaf;
    first [ apply same_service_keeps_no_exit, Pool_Acquire_service
          | apply same_service_keeps_no_exit, Client_Connect_service
          | apply same_service_keeps_no_exit, Client_CreateContainer_service
          | apply same_service_keeps_no_exit, waitForReady_loop_service
          | idtac ];
    preserves_walk no_exit_leaf.
Qed.

Lemma Service_Start_no_exit o r s : keeps_no_exit s (Service_Start o r s).2.
Proof.
  intros Hinv. unfold Service_Start. rewrite bind_gets.
  destruct (processes (service s) !! procID_of r) as [proc|] eqn:Hp; [|exact Hinv].
  pose proof (Client_StartContainer_service o (containerID proc) s) as Hs.
  unfold same_service in Hs. unfold bind.
  destruct (Client_StartContainer o (containerID proc) s) as [[[pid|e]|why] s1]; simpl in *.
  - destruct (Hinv _ _ Hp) as [H1 H2].
    apply (no_exit_insert s1 (procID_of r) (set_proc_pid pid proc) H1 H2).
    intros id' proc' Hp'. rewrite Hs in Hp'. by apply (Hinv id').
  - intros id' proc' Hp'. rewrite Hs in Hp'. by apply (Hinv id').
  - intros id' proc' Hp'. rewrite Hs in Hp'. by apply (Hinv id').
Qed.

Lemma Service_Kill_no_exit o r : preserves keeps_no_exit (Service_Kill o r).
Proof.
  apply same_service_keeps_no_exit. unfold Service_Kill.
  service_walk; try apply Client_StopContainer_service; service_walk.
Qed.

Lemma Service_Delete_no_exit o r : preserves keeps_no_exit (Service_Delete o r).
Proof.
  unfold Service_Delete.
  preserves_walk no_exit_leaf;
    first [ apply same_service_keeps_no_exit, Client_RemoveContainer_service
          | apply same_service_keeps_no_exit, Pool_Release_service
          | idtac ];
    preserves_walk no_exit_leaf.
Qed.

Lemma Service_Cleanup_no_exit o : preserves keeps_no_exit (Service_Cleanup o).
Proof.
  apply same_service_keeps_no_exit. unfold Service_Cleanup.
  service_walk; try apply Manager_DestroyVM_service; service_walk.
Qed.

Lemma run_service_op_no_exit op s : keeps_no_exit s (run_service_op op s).
Proof.
  destruct op; simpl.
  - apply Service_Create_no_exit.
  - apply Service_Start_no_exit.
  - apply Service_Kill_no_exit.
  - apply Service_Delete_no_exit.
  - unfold Service_State. rewrite bind_gets. by destruct (processes (service s) !! _).
  - unfold Service_Wait. rewrite bind_gets.
    destruct (processes (service s) !! _); [case_decide|]; done.
  - apply Service_Cleanup_no_exit.
Qed.

Lemma run_service_ops_no_exit ops s : keeps_no_exit s (run_service_ops ops s).
Proof.
  revert s. induction ops as [|op ops IH]; intros s; [done|].
  unfold run_service_ops in *. cbn [foldl]. etrans; [apply run_service_op_no_exit|apply IH].
Qed.

(** X20.  The shim never records the exit of a process.  Starting from a
    service without processes, after any sequence of [Create], [Start],
    [Kill], [Delete], [State], [Wait] and [Cleanup] calls, whatever the pool,
    the agent and the VMM answer, every process on record has no exit time
    and exit status 0.  Hence [State] never reports a process as stopped,
    and [Wait] never returns an exit status: for a process it knows it
    blocks until its context is done and returns the context's error. *)
Theorem Service_never_records_an_exit (ops : list ServiceOp) (s : St) :
  processes (service s) = ∅ →
  let s' := run_service_ops ops s in
  no_exit_recorded s'
  ∧ (∀ r resp s'', Service_State r s' = (Ret (OK resp), s'') →
       st_Status resp ≠ Status_STOPPED ∧ st_ExitedAt resp = None ∧ st_ExitStatus resp = 0)
  ∧ (∀ ctx_err r proc, processes (service s') !! procID_of r = Some proc →
       Service_Wait ctx_err r s' = (Ret (Error ctx_err), s')).
Proof.
  intros He s'.
  assert (Hinv : no_exit_recorded s').
  { apply run_service_ops_no_exit. intros id proc Hp. rewrite He in Hp.
    by rewrite lookup_empty in Hp. }
  split; [exact Hinv|]. split.
  - intros r resp s'' Hrun. unfold Service_State in Hrun. rewrite bind_gets in Hrun.
    destruct (processes (service s') !! tr_ExecID r) as [proc|] eqn:Hp; [|discriminate].
    destruct (Hinv _ _ Hp) as [H1 H2]. injection Hrun as <- <-.
    unfold Service_processStatus. simpl. rewrite H1, H2.
    rewrite !decide_False by (by intros H; apply H).
    split; [by case_decide|done].
  - intros ctx_err r proc Hp. destruct (Hinv _ _ Hp) as [H1 H2].
    unfold Service_Wait. rewrite bind_gets, Hp. rewrite H1.
    by rewrite decide_False by (by intros H; apply H).
Qed.

(** ** The guest agent *)

Lemma ag_emit_containers e a : agent_containers (ag_emit e a) = agent_containers a.
Proof. reflexivity. Qed.

Lemma ag_emit_trace e a : agent_trace (ag_emit e a) = agent_trace a ++ [e].
Proof. reflexivity. Qed.

Lemma Agent_eq (a b : Agent) :
  agent_containers a = agent_containers b → agent_trace a = agent_trace b → a = b.
Proof. destruct a, b; simpl; congruence. Qed.

Lemma param_string_create id bundle : param_string (create_params id bundle) "id" = id.
Proof. unfold param_string, create_params. by rewrite lookup_insert_eq. Qed.

Lemma Agent_createContainer_exists o params a c :
  agent_containers a !! param_string params "id" = Some c →
  param_string params "id" ≠ "" →
  Agent_createContainer o params a =
    (Some (Errorf ("container " +:+ param_string params "id" +:+ " already exists")), a).
Proof.
  intros Hc Hid. unfold Agent_createContainer. cbv zeta.
  rewrite decide_False by done. by rewrite Hc.
Qed.

Lemma Agent_createContainer_works o params a :
  agent_create_works o →
  param_string params "id" ≠ "" →
  agent_containers a !! param_string params "id" = None →
  ∃ a1,
    Agent_createContainer o params a = (None, a1)
    ∧ agent_containers a1 =
        <[param_string params "id" :=
            {| ac_ID := param_string params "id"; ac_Bundle := param_string params "bundle";
               ac_PID := 0; ac_Status := "created"; ac_Created := aco_now o |}]>
          (agent_containers a).
Proof.
  intros [Hm Hr] Hid Hc. unfold Agent_createContainer. cbv zeta.
  rewrite decide_False by done. rewrite Hc, Hm, Hr. eexists. split; reflexivity.
Qed.

Lemma Agent_createContainer_error o params a err a1 :
  Agent_createContainer o params a = (Some err, a1) →
  agent_containers a1 = agent_containers a.
Proof.
  unfold Agent_createContainer. cbv zeta. case_decide; [by intros [= _ <-]|].
  destruct (agent_containers a !! _); [by intros [= _ <-]|].
  destruct (aco_mkdir o); [by intros [= _ <-]|].
  destruct (aco_runc o) as [[e out]|]; [by intros [= _ <-]|]. discriminate.
Qed.

(** X21.  A container id is registered once.  When [createContainer]
    works, the container is in the table, created and without a pid; from
    then on every [createContainer] for that id is refused with "already
    exists" and runs nothing, whatever else the request says; after
    [removeContainer] the table is as it was before, and the id can be
    created again. *)
Theorem Agent_container_registered_once
    (o o' : AgentCreateOracle) (params : gmap string json) (a : Agent) :
  let id := param_string params "id" in
  id ≠ "" → agent_containers a !! id = None →
  agent_create_works o → agent_create_works o' →
  ∃ a1,
    Agent_createContainer o params a = (None, a1)
    ∧ (∃ c, agent_containers a1 !! id = Some c
            ∧ ac_Status c = "created" ∧ ac_PID c = 0
            ∧ ac_Bundle c = param_string params "bundle")
    ∧ (∀ o2 params2, param_string params2 "id" = id →
         Agent_createContainer o2 params2 a1 =
           (Some (Errorf ("container " +:+ id +:+ " already exists")), a1))
    ∧ (∃ a2, Agent_removeContainer params a1 = (None, a2)
             ∧ agent_containers a2 = agent_containers a
             ∧ ∃ a3, Agent_createContainer o' params a2 = (None, a3)).
Proof.
  intros id Hid Hnone Ho Ho'.
  destruct (Agent_createContainer_works o params a Ho Hid Hnone) as (a1 & Hrun & Hc1).
  exists a1. split; [done|]. split; [|split].
  - eexists. rewrite Hc1, lookup_insert_eq. by split.
  - intros o2 params2 Hid2. fold id in Hc1.
    pose proof (Agent_createContainer_exists o2 params2 a1) as H.
    rewrite Hid2 in H. eapply H; [|done]. by rewrite Hc1, lookup_insert_eq.
  - unfold Agent_removeContainer. cbv zeta. fold id. rewrite decide_False by done.
    set (a2 := ag_set_containers (delete id) _).
    assert (agent_containers a2 = agent_containers a) as Heq.
    { subst a2. cbn. rewrite Hc1. fold id. by rewrite delete_insert_id. }
    exists a2. do 2 (split; [done|]).
    destruct (Agent_createContainer_works o' params a2 Ho' Hid) as (a3 & Hrun3 & _).
    { fold id. by rewrite Heq. }
    by exists a3.
Qed.

(** X22.  A [createContainer] that fails leaves the table of containers as
    it was, and removes nothing: when [runc create] fails after the
    container directory was made, the directory stays. *)
Theorem Agent_createContainer_failure
    (o : AgentCreateOracle) (params : gmap string json) (a a1 : Agent) (err : error) :
  Agent_createContainer o params a = (Some err, a1) →
  agent_containers a1 = agent_containers a
  ∧ ∃ t, agent_trace a1 = agent_trace a ++ t
         ∧ Forall (λ e, ∀ p, e ≠ AgRemoveAll p) t
         ∧ (∀ e out, aco_mkdir o = None → aco_runc o = Some (e, out) →
              param_string params "id" ≠ "" →
              agent_containers a !! param_string params "id" = None →
              AgMkdirAll (filepath_Join containerRoot (param_string params "id")) ∈ t).
Proof.
  intros Hrun. split; [by eapply Agent_createContainer_error|].
  revert Hrun. unfold Agent_createContainer. cbv zeta.
  case_decide as Hid.
  { intros [= _ <-]. exists []. rewrite app_nil_r. repeat split; [constructor|]. done. }
  destruct (agent_containers a !! _) eqn:Hc.
  { intros [= _ <-]. exists []. rewrite app_nil_r. repeat split; [constructor|].
    intros; congruence. }
  destruct (aco_mkdir o) eqn:Hm.
  { intros [= _ <-]. eexists. split; [reflexivity|]. split.
    - repeat constructor; discriminate.
    - intros; congruence. }
  destruct (aco_runc o) as [[e out]|]; [|discriminate].
  intros [= _ <-]. eexists. split.
  { cbn. rewrite <- app_assoc. reflexivity. }
  split.
  - repeat constructor; discriminate.
  - intros. set_solver.
Qed.

Lemma polls_app t1 t2 : polls (t1 ++ t2) = (polls t1 + polls t2)%nat.
Proof. unfold polls. by rewrite filter_app, length_app. Qed.

(** The loop of [stopContainer] ends by itself: once the bound covers the
    time left to the deadline, a larger bound changes nothing. *)
Lemma Agent_stop_wait_bound n : ∀ m o id deadline now i a,
  deadline - now ≤ Z.of_nat n * (100 * Millisecond) → (n ≤ m)%nat →
  Agent_stop_wait m o id deadline now i a = Agent_stop_wait n o id deadline now i a.
Proof.
  unfold Millisecond.
  induction n as [|n IH]; intros m o id deadline now i a Hd Hm.
  - destruct m as [|m]; [done|]. cbn [Agent_stop_wait].
    rewrite decide_False by lia. done.
  - destruct m as [|m]; [lia|]. cbn [Agent_stop_wait].
    case_decide; [|done]. case_decide; [done|].
    apply IH; [|lia]. unfold Millisecond. lia.
Qed.

Lemma Agent_stop_rounds_enough (deadline first : Z) :
  deadline - first
  ≤ Z.of_nat (S (Z.to_nat ((deadline - first) / (100 * Millisecond))))
    * (100 * Millisecond).
Proof.
  unfold Millisecond. set (x := deadline - first).
  destruct (decide (x ≤ 0)) as [Hx|Hx]; [lia|].
  rewrite Nat2Z.inj_succ, Z2Nat.id by (apply Z.div_pos; lia).
  pose proof (Z.mod_pos_bound x (100 * 1000000) ltac:(lia)).
  pose proof (Z.div_mod x (100 * 1000000) ltac:(lia)). lia.
Qed.

(** What the loop does from time [now]: it polls and sleeps, and polls at
    most once for every 100 ms left to the deadline. *)
Lemma Agent_stop_wait_spec n : ∀ o id deadline now i a,
  ∃ w,
    Agent_stop_wait n o id deadline now i a =
      {| agent_containers := agent_containers a; agent_trace := agent_trace a ++ w |}
    ∧ Forall (is_waiting id) w
    ∧ (Z.of_nat (polls w) * (100 * Millisecond) < deadline - now + 100 * Millisecond
       ∨ polls w = 0%nat).
Proof.
  unfold Millisecond.
  induction n as [|n IH]; intros o id deadline now i a.
  - exists []. cbn [Agent_stop_wait]. rewrite app_nil_r. split; [by destruct a|].
    split; [constructor|by right].
  - cbn [Agent_stop_wait]. case_decide as Hnow.
    + case_decide as Hst.
      * exists [AgRunc ["state"; id]]. split; [reflexivity|]. split.
        -- repeat constructor.
        -- left. change (polls [AgRunc ["state"; id]]) with 1%nat. lia.
      * destruct (IH o id deadline (now + 100 * Millisecond + Z.of_N (asto_extra o i)) (S i)
                    (ag_emit (AgSleep (100 * Millisecond))
                       (ag_emit (AgRunc ["state"; id]) a))) as (w & -> & Hw & Hp).
        exists (AgRunc ["state"; id] :: AgSleep (100 * Millisecond) :: w).
        split; [cbn; by rewrite <- !app_assoc|]. split.
        -- constructor; [by left|]. constructor; [by right|done].
        -- left. change (polls (AgRunc ["state"; id] :: AgSleep (100 * Millisecond) :: w))
             with (S (polls w)).
           unfold Millisecond in *. destruct Hp as [Hp| ->]; lia.
    + exists []. rewrite app_nil_r. split; [by destruct a|].
      split; [constructor|by right].
Qed.

Lemma timeout_duration_seconds (timeout : Q) :
  0 ≤ int_of_float64 timeout < 2 ^ 33 →
  timeout_duration timeout = int_of_float64 timeout * Second.
Proof.
  intros H. unfold timeout_duration, wrap_int64, Second.
  rewrite Z.mod_small; lia.
Qed.

(** X23.  [stopContainer] on a container id that is not empty never
    reports a failure, whether the container is registered or not and
    whatever [runc] answers.  It sends SIGTERM first and SIGKILL last, also
    to a container that has stopped in between; in between it only polls
    the state and sleeps, with at most ten polls for each second of the
    timeout (a timeout of less than 2^33 seconds); a registered container
    ends as "stopped", and no other entry of the table changes. *)
Theorem Agent_stopContainer_always_kills
    (o : AgentStopOracle) (params : gmap string json) (a : Agent) :
  let id := param_string params "id" in
  let secs := int_of_float64 (Agent_stopContainer_timeout params) in
  id ≠ "" → 0 ≤ secs < 2 ^ 33 →
  ∃ w,
    Agent_stopContainer o params a =
      (None,
       {| agent_containers := alter ac_stopped id (agent_containers a);
          agent_trace := agent_trace a ++ [AgRunc ["kill"; id; "SIGTERM"]] ++ w
                         ++ [AgRunc ["kill"; id; "SIGKILL"]] |})
    ∧ Forall (is_waiting id) w
    ∧ Z.of_nat (polls w) ≤ 10 * secs.
Proof.
  intros id secs Hid Hsecs. unfold Agent_stopContainer. cbv zeta. fold id.
  rewrite decide_False by done.
  rewrite timeout_duration_seconds by done. fold secs.
  match goal with
  | |- context [Agent_stop_wait ?n ?o ?i ?d ?t ?k ?b] =>
      destruct (Agent_stop_wait_spec n o i d t k b) as (w & -> & Hw & Hp)
  end.
  exists w. split; [|split; [done|]].
  - f_equal. apply Agent_eq; cbn; [done|]. by rewrite <- !app_assoc.
  - unfold Millisecond, Second in Hp. destruct Hp as [Hp| ->]; lia.
Qed.

Lemma Agent_startContainer_error o params a err a1 :
  Agent_startContainer o params a = (Error err, a1) →
  agent_containers a1 = agent_containers a.
Proof.
  unfold Agent_startContainer. cbv zeta. case_decide; [by intros [= _ <-]|].
  destruct (agent_containers a !! _); [|by intros [= _ <-]].
  destruct (aso_runc o) as [[e out]|]; [by intros [= _ <-]|].
  destruct (aso_read o); [by intros [= _ <-]|].
  destruct (aso_scan o); [discriminate|by intros [= _ <-]].
Qed.

Lemma Agent_stopContainer_error o params a err a1 :
  Agent_stopContainer o params a = (Some err, a1) → a1 = a.
Proof.
  unfold Agent_stopContainer. cbv zeta. case_decide; [by intros [= _ <-]|discriminate].
Qed.

Lemma Agent_removeContainer_error params a err a1 :
  Agent_removeContainer params a = (Some err, a1) → a1 = a.
Proof.
  unfold Agent_removeContainer. cbv zeta. case_decide; [by intros [= _ <-]|discriminate].
Qed.

Lemma Agent_execSync_containers o params a :
  agent_containers (Agent_execSync o params a).2 = agent_containers a.
Proof.
  unfold Agent_execSync. cbv zeta. case_decide; [done|].
  destruct (aeo_err o) as [[code stderr|err]|]; reflexivity.
Qed.

Lemma Agent_getStats_containers o params a :
  agent_containers (Agent_getStats o params a).2 = agent_containers a.
Proof. unfold Agent_getStats. cbv zeta. case_decide; reflexivity. Qed.

Lemma resp_status_spec id status r :
  RespID (resp_status id status r).1 = id
  ∧ (resp_status id status r).2 = r.2
  ∧ (is_Some (Result (resp_status id status r).1)
     ↔ RespError (resp_status id status r).1 = None)
  ∧ ∀ e, RespError (resp_status id status r).1 = Some e →
         Code e = 1 ∧ ∃ err, r.1 = Some err.
Proof.
  unfold resp_status, is_Some. destruct r as [[err|] a]; cbn.
  - split; [done|]. split; [done|]. split; [split; [by intros [? ?]|done]|].
    intros e [= <-]. split; [done|by eexists].
  - split; [done|]. split; [done|]. split; [split; [done|by eexists]|]. done.
Qed.

Lemma resp_result_spec {A} id (f : A → json) r :
  RespID (resp_result id f r).1 = id
  ∧ (resp_result id f r).2 = r.2
  ∧ (is_Some (Result (resp_result id f r).1)
     ↔ RespError (resp_result id f r).1 = None)
  ∧ ∀ e, RespError (resp_result id f r).1 = Some e →
         Code e = 1 ∧ ∃ err, r.1 = Error err.
Proof.
  unfold resp_result, is_Some. destruct r as [[v|err] a]; cbn.
  - split; [done|]. split; [done|]. split; [split; [done|by eexists]|]. done.
  - split; [done|]. split; [done|]. split; [split; [by intros [? ?]|done]|].
    intros e [= <-]. split; [done|by eexists].
Qed.

Lemma known_method_cases (m : string) :
  m ∈ known_methods →
  m = "ping" ∨ m = "create_container" ∨ m = "start_container" ∨ m = "stop_container"
  ∨ m = "remove_container" ∨ m = "exec_sync" ∨ m = "get_stats".
Proof.
  unfold known_methods. rewrite !elem_of_cons, elem_of_nil. tauto.
Qed.

Ltac known_method :=
  match goal with
  | H : Method _ = _ |- _ => rewrite H; compute_done
  end.

Ltac answer_of :=
  let Hi := fresh "Hi" in
  let Ha := fresh "Ha" in
  let Hr := fresh "Hr" in
  let He := fresh "He" in
  match goal with
  | |- context [resp_status ?i ?f ?r] =>
      destruct (resp_status_spec i f r) as (Hi & Ha & Hr & He)
  | |- context [resp_result ?i ?f ?r] =>
      destruct (resp_result_spec i f r) as (Hi & Ha & Hr & He)
  end;
  split; [done|]; split; [done|]; split; [|intros Hn; exfalso; apply Hn; known_method];
  let e := fresh "e" in
  let Hsome := fresh "Hsome" in
  intros e Hsome; destruct (He e Hsome) as (Hc & err & Herr); split; [|done];
  rewrite Ha.

(** X24.  Every request gets an answer with the id of the request, and
    with either a result or an error, never both and never neither.  The
    error code is -32601 for a method the agent does not know, and then
    the agent is left as it was, and 1 otherwise.  A request that is
    answered with an error has not changed the table of containers. *)
Theorem Agent_handleRequest_answer (o : HandlerOracle) (req : Request) (a : Agent) :
  let r := Agent_handleRequest o req a in
  RespID r.1 = ReqID req
  ∧ (is_Some (Result r.1) ↔ RespError r.1 = None)
  ∧ (∀ e, RespError r.1 = Some e →
       agent_containers r.2 = agent_containers a
       ∧ (Method req ∈ known_methods → Code e = 1))
  ∧ (Method req ∉ known_methods →
       r = (resp_err (ReqID req) (-32601) "Method not found", a)).
Proof.
  cbv zeta. unfold Agent_handleRequest. cbv zeta.
  case_decide as H1.
  { cbn. split; [done|]. split; [split; [done|by eexists]|]. split; [done|].
    intros Hn; exfalso; apply Hn; known_method. }
  case_decide as H2.
  { answer_of. eapply Agent_createContainer_error.
    rewrite <- Herr. apply surjective_pairing. }
  case_decide as H3.
  { answer_of. eapply Agent_startContainer_error.
    rewrite <- Herr. apply surjective_pairing. }
  case_decide as H4.
  { answer_of. f_equal. eapply Agent_stopContainer_error.
    rewrite <- Herr. apply surjective_pairing. }
  case_decide as H5.
  { answer_of. f_equal. eapply Agent_removeContainer_error.
    rewrite <- Herr. apply surjective_pairing. }
  case_decide as H6.
  { answer_of. apply Agent_execSync_containers. }
  case_decide as H7.
  { answer_of. apply Agent_getStats_containers. }
  cbn. split; [done|]. split; [split; [by intros [? ?]|done]|]. split; [|done].
  intros e [= <-]. split; [done|].
  intros Hin. apply known_method_cases in Hin. exfalso. tauto.
Qed.

(** ** The client and the agent *)

(** A request passes the wire unchanged. *)
Lemma decode_encode_request req : decode_request (encode_request req) = req.
Proof.
  unfold decode_request, encode_request. destruct req as [id m params]. cbn.
  f_equal. case_decide as Hp; [by rewrite Hp|done].
Qed.

Lemma Agent_handleRequest_RespID o req a : RespID (Agent_handleRequest o req a).1 = ReqID req.
Proof.
  unfold Agent_handleRequest. cbv zeta.
  repeat case_decide; try done;
    first [apply resp_status_spec | apply (resp_result_spec (A:=Z))
          | apply (resp_result_spec (A:=json))].
Qed.

Lemma Client_call_answered ho a o req s cl cn :
  agentClient s = Some cl → conn cl = Some cn →
  let id := wrap_uint64 (requestID cl + 1) in
  let sent := {| ReqID := id; Method := Method req; Params := Params req |} in
  o = answered_by ho a (encode_request sent) →
  Client_call o req s =
    (Ret (OK (Agent_handleRequest ho sent a).1), called_state cn o req id s).
Proof.
  intros Hcl Hcn id sent ->. rewrite (Client_call_spec _ _ _ _ _ Hcl Hcn). fold id.
  f_equal. unfold call_result, answered_by, Agent_serve_one. cbn [call_encode call_decode].
  rewrite decode_encode_request.
  rewrite decide_False; [done|]. intros Hne. apply Hne.
  by rewrite Agent_handleRequest_RespID.
Qed.

Lemma int_of_float64_inject_Z z : int_of_float64 (inject_Z z) = z.
Proof. unfold int_of_float64, inject_Z. cbn. apply Z.quot_1_r. Qed.

Lemma param_string_id c (m : gmap string json) : param_string (<["id" := JStr c]> m) "id" = c.
Proof. unfold param_string. by rewrite lookup_insert_eq. Qed.

Lemma Agent_startContainer_runs o params a ct pid :
  param_string params "id" ≠ "" →
  agent_containers a !! param_string params "id" = Some ct →
  aso_runc o = None → aso_read o = None → aso_scan o = OK pid →
  ∃ a1,
    Agent_startContainer o params a = (OK pid, a1)
    ∧ agent_containers a1 = <[param_string params "id" := ac_started pid ct]>
                              (agent_containers a).
Proof.
  intros Hid Hc Hr Hrd Hs. unfold Agent_startContainer. cbv zeta.
  rewrite decide_False by done. rewrite Hc, Hr, Hrd, Hs.
  eexists. split; [reflexivity|]. cbn.
  apply map_eq. intros k. destruct (decide (k = param_string params "id")) as [->|Hk].
  - by rewrite lookup_alter_eq, lookup_insert_eq, Hc.
  - by rewrite lookup_alter_ne, lookup_insert_ne.
Qed.

Lemma Agent_startContainer_unknown o params a :
  param_string params "id" ≠ "" →
  agent_containers a !! param_string params "id" = None →
  Agent_startContainer o params a =
    (Error (Errorf ("container " +:+ param_string params "id" +:+ " not found")), a).
Proof.
  intros Hid Hc. unfold Agent_startContainer. cbv zeta.
  rewrite decide_False by done. by rewrite Hc.
Qed.

(** X25.  The pid of a started container, from [runc]'s pid file to the
    shim.  When [Start] of the shim is served by an agent that has the
    container of the process registered, [runc start] works and the pid
    file holds [pid], with [0 <= pid < 2^32], [Start] returns that pid and
    stores it with the process, whose status is running from then on if the
    pid is positive and no exit is recorded; the agent has the container as
    running with the same pid.  When the agent does not have the container,
    [Start] fails with the agent's message and the process keeps its
    pid. *)
Theorem Service_Start_served_by_agent
    (ho : HandlerOracle) (a : Agent) (o : CallOracle) (r : TaskRequest) (s : St)
    (proc : processState) (cl : Client) (cn : Conn) (pid : Z) :
  let c := containerID proc in
  let sent := start_container_request (wrap_uint64 (requestID cl + 1)) c in
  processes (service s) !! procID_of r = Some proc →
  agentClient s = Some cl → conn cl = Some cn → c ≠ "" →
  o = answered_by ho a (encode_request sent) →
  aso_runc (ho_start ho) = None → aso_read (ho_start ho) = None →
  aso_scan (ho_start ho) = OK pid → 0 ≤ pid < 2 ^ 32 →
  match agent_containers a !! c with
  | Some ct =>
      ∃ s',
        Service_Start o r s = (Ret (OK pid), s')
        ∧ processes (service s') !! procID_of r = Some (set_proc_pid pid proc)
        ∧ (exitedAt proc = 0 → 0 < pid →
           Service_processStatus (set_proc_pid pid proc) = Status_RUNNING)
        ∧ agent_containers (Agent_serve_one ho (encode_request sent) a).2
          = <[c := ac_started pid ct]> (agent_containers a)
  | None =>
      ∃ s',
        Service_Start o r s =
          (Ret (Error (Wrap "failed to start container"
                         (Errorf ("start_container failed: container " +:+ c
                                  +:+ " not found")))), s')
        ∧ service s' = service s
        ∧ (Agent_serve_one ho (encode_request sent) a).2 = a
  end.
Proof.
  intros c sent Hp Hcl Hcn Hc Ho Hr Hrd Hs Hpid.
  assert (Hid : param_string (Params sent) "id" = c) by apply param_string_id.
  assert (Hserve : Agent_serve_one ho (encode_request sent) a
                   = resp_result (ReqID sent) (λ pid, JObj [("pid", JInt pid)])
                       (Agent_startContainer (ho_start ho) (Params sent) a)).
  { unfold Agent_serve_one. by rewrite decode_encode_request. }
  assert (Hcall : Client_call o
                    {| ReqID := 0; Method := "start_container";
                       Params := <["id" := JStr c]> ∅ |} s
                  = (Ret (OK (Agent_serve_one ho (encode_request sent) a).1),
                     called_state cn o sent (ReqID sent) s)).
  { erewrite Client_call_answered by done. unfold Agent_serve_one.
    by rewrite decode_encode_request. }
  unfold Service_Start. cbv zeta. rewrite bind_gets. rewrite Hp.
  unfold Client_StartContainer. fold c. cbv zeta.
  destruct (agent_containers a !! c) as [ct|] eqn:Hct.
  - destruct (Agent_startContainer_runs (ho_start ho) (Params sent) a ct pid)
      as (a1 & Hrun & Ha1); rewrite ?Hid; try done.
    rewrite Hid in Ha1. rewrite Hserve, Hrun in Hcall |- *.
    rewrite bind_bind. rewrite (bind_Ret _ _ _ _ _ Hcall). cbv beta.
    cbn [resp_result fst snd resp_ok RespError Result obj_lookup].
    exists (set_service (set_processes (<[procID_of r := set_proc_pid pid proc]>))
              (called_state cn o sent (ReqID sent) s)).
    split; [|split; [|split]].
    + msteps. unfold ret, JInt. rewrite decide_True by done.
      rewrite int_of_float64_inject_Z.
      unfold wrap_uint32. rewrite Z.mod_small by lia. reflexivity.
    + unfold called_state. st_simpl. cbn [processes set_processes].
      by rewrite lookup_insert_eq.
    + intros He Hpos. unfold Service_processStatus. cbn [exitedAt proc_pid set_proc_pid].
      rewrite decide_False by (by intros H; apply H). rewrite decide_True by lia. done.
    + done.
  - rewrite (Agent_startContainer_unknown _ _ _) in Hserve by (by rewrite Hid).
    rewrite Hid in Hserve. rewrite Hserve in Hcall |- *.
    rewrite bind_bind. rewrite (bind_Ret _ _ _ _ _ Hcall). cbv beta.
    cbn [resp_result fst snd resp_err RespError Result Message error_string].
    eexists. split; [|split].
    + msteps. reflexivity.
    + reflexivity.
    + done.
Qed.

Lemma waitForReady_loop_S rounds i o :
  waitForReady_loop (S rounds) i o =
  match wait_ctx o i with
  | Some err => ret (Some err)
  | None =>
      r <- Client_call (wait_call o i) ping ;;
      match r with
      | OK {| RespError := None |} => ret None
      | _ =>
          do emit (EvSleep (100 * Millisecond)) ;;
          waitForReady_loop rounds (S i) o
      end
  end.
Proof. reflexivity. Qed.

(** X26.  The agent's answer to a ping is what [Connect] waits for.  When
    the dial works and the first ping reaches an agent, whatever state the
    agent is in, [Connect] returns nil after that one ping, without a
    sleep; the agent runs nothing and stays as it was. *)
Theorem Client_Connect_agent_answers
    (ho : HandlerOracle) (a : Agent) (o : ConnectOracle) (vsockPath : string) (cid port : Z)
    (s : St) (cl : Client) (cn : Conn) :
  let sent := ping_request (wrap_uint64 (requestID cl + 1)) in
  agentClient s = Some cl → dials o cn →
  wait_ctx (conn_wait o) 0 = None →
  wait_call (conn_wait o) 0 = answered_by ho a (encode_request sent) →
  ∃ s',
    Client_Connect o vsockPath cid port s = (Ret None, s')
    ∧ agentClient s' = Some {| conn := Some cn; requestID := wrap_uint64 (requestID cl + 1) |}
    ∧ trace s' = trace s ++ dial_events o vsockPath cid port
                 ++ [EvEncode cn (encode_request sent); EvDecode cn]
    ∧ Agent_serve_one ho (encode_request sent) a
      = (resp_ok (ReqID sent) (JObj [("status", JStr "ok")]), a).
Proof.
  intros sent Hcl Hd Hctx Hcall.
  assert (Hserve : Agent_serve_one ho (encode_request sent) a
                   = (resp_ok (ReqID sent) (JObj [("status", JStr "ok")]), a)).
  { unfold Agent_serve_one. by rewrite decode_encode_request. }
  rewrite (Client_Connect_dialed _ _ _ _ _ _ _ Hcl Hd).
  unfold Client_waitForReady. rewrite waitForReady_loop_S, Hctx.
  erewrite bind_Ret; cycle 1.
  { erewrite bind_Ret; cycle 1.
    { eapply (Client_call_answered ho a); [st_simpl; reflexivity|reflexivity|].
      cbn [requestID]. exact Hcall. }
    cbv beta. cbn [requestID Method Params ping].
    fold (ping_request (wrap_uint64 (requestID cl + 1))). fold sent.
    replace (Agent_handleRequest ho sent a)
      with (Agent_serve_one ho (encode_request sent) a)
      by (unfold Agent_serve_one; by rewrite decode_encode_request).
    rewrite Hserve. cbn [fst resp_ok]. reflexivity. }
  cbv beta iota. unfold ret. eexists. split; [reflexivity|].
  unfold called_state, call_events. rewrite Hcall. st_simpl.
  split; [done|]. split; [|done].
  by rewrite <- !app_assoc.
Qed.

Lemma Agent_createContainer_params o params params' a :
  param_string params' "id" = param_string params "id" →
  param_string params' "bundle" = param_string params "bundle" →
  Agent_createContainer o params' a = Agent_createContainer o params a.
Proof. intros Hi Hb. unfold Agent_createContainer. by rewrite Hi, Hb. Qed.

Lemma create_container_request_params id spec :
  param_string (Params (create_container_request id spec)) "id" = SpecID spec
  ∧ param_string (Params (create_container_request id spec)) "bundle" = BundlePath spec.
Proof.
  unfold param_string, create_container_request. cbn [Params].
  rewrite lookup_insert_eq. rewrite lookup_insert_ne by done. by rewrite lookup_insert_eq.
Qed.

(** X27.  [CreateContainer] served by an agent.  With a container id that
    is not empty and [runc create] working, the call returns nil and the
    agent registers the container under the id and with the bundle of the
    spec, as created, if it did not have the id; if it had, the call fails
    with the agent's "already exists" and the agent stays as it was.  The
    four stream flags of the spec reach the agent but do not change what
    it does. *)
Theorem Client_CreateContainer_served_by_agent
    (ho : HandlerOracle) (a : Agent) (o : CallOracle) (spec : ContainerSpec) (s : St)
    (cl : Client) (cn : Conn) :
  let id := wrap_uint64 (requestID cl + 1) in
  let sent := create_container_request id spec in
  agentClient s = Some cl → conn cl = Some cn → SpecID spec ≠ "" →
  o = answered_by ho a (encode_request sent) →
  agent_create_works (ho_create ho) →
  match agent_containers a !! SpecID spec with
  | None =>
      (Client_CreateContainer o spec s).1 = Ret None
      ∧ agent_containers (Agent_serve_one ho (encode_request sent) a).2
        = <[SpecID spec := {| ac_ID := SpecID spec; ac_Bundle := BundlePath spec;
                              ac_PID := 0; ac_Status := "created";
                              ac_Created := aco_now (ho_create ho) |}]>
            (agent_containers a)
  | Some _ =>
      (Client_CreateContainer o spec s).1 =
        Ret (Some (Errorf ("create_container failed: container " +:+ SpecID spec
                           +:+ " already exists")))
      ∧ (Agent_serve_one ho (encode_request sent) a).2 = a
  end
  ∧ ∀ spec', SpecID spec' = SpecID spec → BundlePath spec' = BundlePath spec →
      Agent_serve_one ho (encode_request (create_container_request id spec')) a
      = Agent_serve_one ho (encode_request sent) a.
Proof.
  intros id sent Hcl Hcn Hne Ho Hw. subst sent.
  destruct (create_container_request_params id spec) as [Hpi Hpb].
  assert (Hserve : ∀ spec0,
            Agent_serve_one ho (encode_request (create_container_request id spec0)) a
            = resp_status id "created"
                (Agent_createContainer (ho_create ho)
                   (Params (create_container_request id spec0)) a)).
  { intros spec0. unfold Agent_serve_one. by rewrite decode_encode_request. }
  assert (Hcall : Client_call o (create_container_request 0 spec) s
                  = (Ret (OK (Agent_serve_one ho
                                (encode_request (create_container_request id spec)) a).1),
                     called_state cn o (create_container_request id spec) id s)).
  { erewrite Client_call_answered by done. unfold Agent_serve_one.
    by rewrite decode_encode_request. }
  split.
  - unfold Client_CreateContainer. cbv zeta.
    change {| ReqID := 0; Method := "create_container"; Params := _ |}
      with (create_container_request 0 spec).
    rewrite (bind_Ret _ _ _ _ _ Hcall). cbv beta. rewrite (Hserve spec).
    destruct (agent_containers a !! SpecID spec) as [ct|] eqn:Hct.
    + rewrite (Agent_createContainer_exists _ _ _ ct) by (by rewrite Hpi).
      rewrite Hpi. done.
    + destruct (Agent_createContainer_works (ho_create ho)
                  (Params (create_container_request id spec)) a Hw)
        as (a1 & Hrun & Ha1); [by rewrite Hpi..|].
      rewrite Hrun. rewrite Hpi, Hpb in Ha1. done.
  - intros spec' Hi Hb. rewrite !Hserve. f_equal.
    destruct (create_container_request_params id spec') as [Hpi' Hpb'].
    apply Agent_createContainer_params; congruence.
Qed.

(** ** Snapshots and the client: deleting and closing *)

(** X28.  [DeleteSnapshot] by cases.  A name that is not in the index is
    no error: nil is returned and nothing happens.  A golden snapshot is
    refused and stays.  For any other snapshot the directory of its memory
    file is removed; if that fails, the error is returned and the snapshot
    stays in the index; if it works, [GetSnapshot] does not find the name
    any more and finds every other name as before. *)
Theorem SnapshotManager_DeleteSnapshot_cases
    (remove : option error) (name : string) (s : St) (sm : SnapshotManager) :
  snapshotMgr s = Some sm →
  match snapshots sm !! name with
  | None => SnapshotManager_DeleteSnapshot remove name s = (Ret None, s)
  | Some snap =>
      if IsGolden snap
      then SnapshotManager_DeleteSnapshot remove name s
           = (Ret (Some (Errorf "cannot delete golden snapshot")), s)
      else
        ∃ s',
          trace s' = trace s ++ [EvRemoveAll (filepath_Dir (MemoryPath snap))]
          ∧ match remove with
            | Some err =>
                SnapshotManager_DeleteSnapshot remove name s
                = (Ret (Some (Wrap "failed to remove snapshot files" err)), s')
                ∧ snapshotMgr s' = Some sm
            | None =>
                SnapshotManager_DeleteSnapshot remove name s = (Ret None, s')
                ∧ SnapshotManager_GetSnapshot name s' = (Ret None, s')
                ∧ ∀ other, other ≠ name →
                    SnapshotManager_GetSnapshot other s'
                    = (Ret (snapshots sm !! other), s')
            end
  end.
Proof.
  intros Hsm. unfold SnapshotManager_DeleteSnapshot, the_snapshotMgr. msteps.
  rewrite Hsm. msteps.
  destruct (snapshots sm !! name) as [snap|] eqn:Hsnap; [|reflexivity].
  destruct (IsGolden snap); [reflexivity|]. msteps.
  destruct remove as [err|].
  - eexists. split; [|split; [reflexivity|]]; st_simpl; done.
  - eexists. split; [|split; [reflexivity|]]; [st_simpl; done|].
    assert (Hget : ∀ k,
              SnapshotManager_GetSnapshot k
                (set_snapshotMgr (fmap (set_snapshots (delete name)))
                   (set_trace (λ t, t ++ [EvRemoveAll (filepath_Dir (MemoryPath snap))]) s))
              = (Ret (delete name (snapshots sm) !! k),
                 set_snapshotMgr (fmap (set_snapshots (delete name)))
                   (set_trace (λ t, t ++ [EvRemoveAll (filepath_Dir (MemoryPath snap))])
                      s))).
    { intros k. unfold SnapshotManager_GetSnapshot, the_snapshotMgr. msteps. st_simpl.
      rewrite Hsm. cbn [fmap option_fmap option_map]. msteps. reflexivity. }
    split.
    + by rewrite Hget, lookup_delete_eq.
    + intros other Hne. by rewrite Hget, lookup_delete_ne.
Qed.

(** X29.  [Close] closes the connection but leaves it with the client.
    It returns what closing the connection returns; afterwards the client
    still counts as connected: a call is not refused with "not connected"
    but written to the closed connection, and a second [Close] closes the
    connection a second time.  A client that was never connected is left
    alone. *)
Theorem Client_Close_keeps_connection (closed : option error) (s : St) (cl : Client) :
  agentClient s = Some cl →
  match conn cl with
  | Some cn =>
      let s' := set_trace (λ t, t ++ [EvConnClose cn]) s in
      Client_Close closed s = (Ret closed, s')
      ∧ agentClient s' = Some cl
      ∧ (∀ o req, ∃ rest,
           trace (Client_call o req s').2
           = trace s' ++ EvEncode cn
                           (encode_request {| ReqID := wrap_uint64 (requestID cl + 1);
                                              Method := Method req; Params := Params req |})
                         :: rest)
      ∧ ∀ closed', ∃ s'',
          Client_Close closed' s' = (Ret closed', s'')
          ∧ trace s'' = trace s ++ [EvConnClose cn; EvConnClose cn]
  | None => Client_Close closed s = (Ret None, s)
  end.
Proof.
  intros Hcl. unfold Client_Close, the_client. msteps. rewrite Hcl. msteps.
  destruct (conn cl) as [cn|] eqn:Hcn; [|reflexivity]. msteps. cbv zeta.
  split; [reflexivity|]. split; [st_simpl; done|]. split.
  - intros o req. eexists.
    erewrite Client_call_trace by (st_simpl; done). unfold call_events. reflexivity.
  - intros closed'. eexists. msteps. st_simpl. rewrite Hcl. msteps. rewrite Hcn. msteps.
    split; [reflexivity|]. st_simpl. by rewrite <- app_assoc.
Qed.

(** ** The further properties at sample inputs *)

Lemma walks_all_id {A} : walks_all (@id (list A)).
Proof. by intros es. Qed.

Lemma pooled_state_live : pool_live pooled_state.
Proof.
  split.
  - intros l Hl. change (buf (available (pool pooled_state))) with [1%positive] in Hl.
    apply list_elem_of_singleton in Hl as ->. apply elem_of_dom. vm_compute. by eexists.
  - intros id l Hin. vm_compute in Hin. discriminate.
Qed.

(** X1 at a sample input: the VM of [acquired_state], released at time
    200 into an empty queue. *)
Lemma Pool_Release_queues_or_destroys_witness :
  ∃ s',
    Pool_Release (release_ok 200) 1%positive acquired_state = (Ret None, s')
    ∧ inUse (pool s') = ∅
    ∧ buf (available (pool s')) = [1%positive].
Proof.
  destruct (Pool_Release_queues_or_destroys (release_ok 200) 1%positive acquired_state
              acquired_sandbox eq_refl eq_refl eq_refl) as (s' & Hrun & Hin & _ & Hq).
  exists s'. split; [exact Hrun|]. split.
  - rewrite Hin. vm_compute. reflexivity.
  - destruct Hq as [Hb _]; [|exact Hb].
    intros [H|H]; vm_compute in H; first [by apply H | discriminate].
Defined.

(** X2 at a sample input: the VM released at time 200 is the one the next
    [Acquire] returns. *)
Lemma Pool_Release_then_Acquire_reuses_witness :
  ∃ s1 s2,
    Pool_Release (release_ok 200) 1%positive acquired_state = (Ret None, s1)
    ∧ Pool_Acquire (acquire_ok 300) DefaultVMConfig s1 = (Ret (OK 1%positive), s2)
    ∧ trace s2 = trace acquired_state.
Proof.
  destruct (Pool_Release_then_Acquire_reuses (release_ok 200) (acquire_ok 300)
              DefaultVMConfig 1%positive acquired_state acquired_sandbox
              eq_refl eq_refl eq_refl eq_refl eq_refl)
    as (s1 & s2 & H1 & H2 & _ & _ & _ & _ & _ & Ht & _).
  - vm_compute. discriminate.
  - by exists s1, s2.
Defined.

(** X3 at a sample input: a pool with one VM in the ready queue. *)
Lemma Pool_Close_destroys_all_witness :
  ∃ s',
    Pool_Close id close_ok pooled_state = (Ret None, s')
    ∧ closed (pool s') = true
    ∧ buf (available (pool s')) = []
    ∧ ∃ sb, heap pooled_state !! 1%positive = Some sb ∧ destroyed_from sb 1%positive s'.
Proof.
  destruct (Pool_Close_destroys_all id close_ok pooled_state eq_refl eq_refl
              pooled_state_live walks_all_id) as (s' & Hrun & Hc & _ & Hb & _ & Hd).
  exists s'. do 3 (split; [done|]).
  eexists. split; [vm_compute; reflexivity|].
  apply Hd; [|vm_compute; reflexivity].
  left. change (buf (available (pool pooled_state))) with [1%positive].
  apply list_elem_of_here.
Defined.

(** X4 at a sample input: the same pool, used after [Close]. *)
Lemma Pool_use_after_Close_witness :
  ∃ s1,
    Pool_Close id close_ok pooled_state = (Ret None, s1)
    ∧ Pool_Close id close_ok s1 = (Ret None, s1)
    ∧ ∃ s2, Pool_Acquire (acquire_ok 400) DefaultVMConfig s1 = (Panic nil_deref, s2).
Proof.
  destruct (Pool_use_after_Close id close_ok pooled_state eq_refl eq_refl
              pooled_state_live walks_all_id) as (s1 & Hrun & Hagain & Hacq & _).
  exists s1. split; [done|]. split; [apply Hagain|].
  destruct (Hacq (acquire_ok 400) DefaultVMConfig) as (s2 & H2 & _). by exists s2.
Defined.

(** X5 at a sample input: the VM pooled at time 200 is removed by a
    cleanup ten minutes later. *)
Lemma Pool_cleanupIdle_keeps_fresh_witness :
  ∃ s',
    Pool_cleanupIdle cleanup_idle_late pooled_state = (Ret tt, s')
    ∧ buf (available (pool s')) = []
    ∧ ∃ sb, heap pooled_state !! 1%positive = Some sb ∧ destroyed_from sb 1%positive s'.
Proof.
  destruct (Pool_cleanupIdle_keeps_fresh cleanup_idle_late pooled_state)
    as (s' & Hrun & Hp & _ & _ & Hd).
  - reflexivity.
  - vm_compute. discriminate.
  - apply pooled_state_live.
  - exists s'. split; [done|]. split; [rewrite Hp; vm_compute; reflexivity|].
    eexists. split; [vm_compute; reflexivity|].
    apply (Hd 0%nat); [reflexivity|vm_compute; reflexivity|].
    vm_compute. reflexivity.
Defined.

(** X6 at a sample input: the machine does not start. *)
Lemma Manager_CreateVM_failure_leaves_behind_witness :
  ∃ s1 evs,
    Manager_CreateVM (create_broken 100) DefaultVMConfig sample_state
      = (Ret (Error (Wrap "failed to start machine"
                       (External "firecracker did not start"))), s1)
    ∧ sandboxes (manager s1) = ∅ ∧ cidCounter (manager s1) = 4
    ∧ trace s1 = evs
    ∧ EvMkdirAll "/run/fc-cri/fc-100" ∈ evs
    ∧ EvMachineStart 7%positive ∈ evs
    ∧ ∀ ev, ev ∈ evs → is_teardown ev = false.
Proof.
  destruct (Manager_CreateVM_failure_leaves_behind (create_broken 100) DefaultVMConfig
              sample_state _ eq_refl)
    as (s1 & evs & Hrun & Hs & Hc & _ & Ht & Hm & Hst & Hno).
  exists s1, evs. split; [exact Hrun|]. split; [exact Hs|]. split; [exact Hc|].
  split; [exact Ht|]. split; [exact Hm|]. split; [by apply Hst|exact Hno].
Defined.

(** X7 at a sample input: a VM created at time 100, looked up and
    destroyed. *)
Lemma Manager_Create_Get_Destroy_witness :
  ∃ l s1 s2,
    Manager_CreateVM (create_ok 100 7%positive) DefaultVMConfig sample_state
      = (Ret (OK l), s1)
    ∧ Manager_GetSandbox "fc-100" s1 = (Ret (Some l), s1)
    ∧ Manager_DestroyVM (destroy_ok 200) l s1 = (Ret None, s2)
    ∧ Manager_GetSandbox "fc-100" s2 = (Ret None, s2).
Proof.
  destruct (Manager_Create_Get_Destroy (create_ok 100 7%positive) (destroy_ok 200)
              DefaultVMConfig sample_state 7%positive)
    as (l & s1 & s2 & sb & H1 & H2 & _ & _ & _ & _ & H3 & H4 & _).
  - by repeat split.
  - by exists l, s1, s2.
Defined.

(** X8 at a sample input: the third VM of a fresh manager gets CID 5. *)
Lemma Manager_CreateVM_CIDs_in_sequence_witness :
  ∃ l s' sb,
    Manager_CreateVM (create_ok 102 9%positive) DefaultVMConfig
      (create_all [create_ok 100 7%positive; create_ok 101 8%positive] DefaultVMConfig
         sample_state) = (Ret (OK l), s')
    ∧ heap s' !! l = Some sb ∧ VsockCID sb = 5.
Proof.
  destruct (Manager_CreateVM_CIDs_in_sequence
              [create_ok 100 7%positive; create_ok 101 8%positive] DefaultVMConfig
              sample_state (create_ok 102 9%positive) 9%positive)
    as ((l & s' & sb & Hrun & Hsb & Hcid & _) & _).
  - change (0 <= 3 < 2 ^ 32). lia.
  - by repeat split.
  - exists l, s', sb. split; [exact Hrun|]. split; [exact Hsb|].
    rewrite Hcid. reflexivity.
Defined.

(** X9 at a sample input: two VMs created in the same nanosecond. *)
Lemma generateID_collision_witness :
  ∃ l1 l2 s1 s2 sb1 sb2,
    Manager_CreateVM (create_ok 100 7%positive) DefaultVMConfig sample_state
      = (Ret (OK l1), s1)
    ∧ Manager_CreateVM (create_ok 100 8%positive) DefaultVMConfig s1 = (Ret (OK l2), s2)
    ∧ l1 ≠ l2
    ∧ heap s2 !! l1 = Some sb1 ∧ heap s2 !! l2 = Some sb2
    ∧ ID sb1 = ID sb2.
Proof.
  destruct (generateID_collision (create_ok 100 7%positive) (create_ok 100 8%positive)
              (destroy_ok 200) DefaultVMConfig DefaultVMConfig sample_state
              7%positive 8%positive)
    as (l1 & l2 & s1 & s2 & s3 & sb1 & sb2 & H1 & H2 & Hne & Hh1 & Hh2 & Hid & _).
  - by repeat split.
  - by repeat split.
  - reflexivity.
  - by exists l1, l2, s1, s2, sb1, sb2.
Defined.

Lemma golden_manager_names_wf : names_wf golden_manager.
Proof.
  intros k snap H. unfold golden_manager in H. cbn [snapshots] in H.
  apply lookup_singleton_Some in H as [<- <-]. reflexivity.
Qed.

Lemma crowded_manager_names_wf : names_wf crowded_manager.
Proof.
  intros k snap H. unfold crowded_manager in H. cbn [snapshots] in H.
  repeat (apply lookup_insert_Some in H as [[<- <-]|[_ H]]; [reflexivity|]).
  by rewrite lookup_empty in H.
Qed.

Lemma unflagged_manager_names_wf : names_wf unflagged_manager.
Proof.
  intros k snap H. unfold unflagged_manager in H. cbn [snapshots] in H.
  apply lookup_singleton_Some in H as [<- <-]. reflexivity.
Qed.

(** X10 at a sample input: a golden snapshot that was stored without the
    flag is deleted, and the manager goes on holding it. *)
Lemma flagged_snapshots_are_kept_witness :
  ∃ s1 sm1,
    SnapshotManager_DeleteSnapshot None "golden-base" unflagged_state = (Ret None, s1)
    ∧ snapshotMgr s1 = Some sm1
    ∧ snapshots sm1 !! "golden-base" = None
    ∧ trace s1 = [EvRemoveAll "/var/lib/fc-cri/snapshots/golden-base"]
    ∧ SnapshotManager_HasGoldenSnapshot s1 = (Ret true, s1).
Proof.
  destruct (flagged_snapshots_are_kept [OpCleanup id] unflagged_state unflagged_manager
              eq_refl unflagged_manager_names_wf) as [_ Hdel].
  - repeat constructor. apply walks_all_id.
  - apply (Hdel (sample_snapshot "golden-base" 50 false)); reflexivity.
Defined.

(** X11 at a sample input: of the three snapshots, "a" is the oldest. *)
Lemma SnapshotManager_Cleanup_removes_oldest_witness :
  ∃ s' sm',
    SnapshotManager_Cleanup id crowded_state = (Ret None, s')
    ∧ snapshotMgr s' = Some sm'
    ∧ snapshots sm' = delete "a" (snapshots crowded_manager).
Proof.
  destruct (SnapshotManager_Cleanup_removes_oldest id crowded_state crowded_manager
              eq_refl crowded_manager_names_wf walks_all_id)
    as (s' & sm' & Hrun & Hsm & Hcase).
  - vm_compute. reflexivity.
  - exists s', sm'. split; [done|]. split; [done|].
    assert (Hs : SnapshotManager_Cleanup id crowded_state
                 = (Ret None, (SnapshotManager_Cleanup id crowded_state).2))
      by (vm_compute; reflexivity).
    rewrite Hs in Hrun. injection Hrun as <-.
    vm_compute in Hsm. injection Hsm as <-. vm_compute. reflexivity.
Defined.

(** X12 at a sample input: three snapshots of 4096 bytes. *)
Lemma SnapshotManager_Stats_total_witness :
  ∃ st,
    SnapshotManager_Stats id crowded_state = (Ret st, crowded_state)
    ∧ TotalSizeBytes st = 12288 ∧ SnapshotsAvailable st = 3.
Proof.
  destruct (SnapshotManager_Stats_total id crowded_state crowded_manager eq_refl
              walks_all_id) as (st & Hrun & Ht & Hn & _).
  exists st. split; [done|]. split; [rewrite Ht|rewrite Hn]; vm_compute; reflexivity.
Defined.


(** X14 at a sample input: the second probe is answered. *)
Lemma Client_Connect_first_answer_witness :
  ∃ s' evs,
    Client_Connect connect_second_probe "/run/fc-cri/fc-100/vsock.sock" 3 vsockAgentPort
      connected_state = (Ret None, s')
    ∧ agentClient s' = Some {| conn := Some 9%positive; requestID := 3 |}
    ∧ trace s' = evs ∧ pings evs = 2%nat ∧ sleeps evs = 1%nat.
Proof.
  destruct (Client_Connect_first_answer connect_second_probe
              "/run/fc-cri/fc-100/vsock.sock" 3 vsockAgentPort connected_state
              connected_client 9%positive 1)
    as (s' & evs & Hrun & Hcl & Ht & Hp & Hs & _).
  - reflexivity.
  - by left.
  - lia.
  - intros i Hi. assert (i = 0%nat) as -> by lia. split; [reflexivity|].
    intros (_ & resp & Hd & _). discriminate.
  - reflexivity.
  - split; [reflexivity|]. eexists. by repeat split.
  - by exists s', evs.
Defined.

(** X15 at a sample input: the context is cancelled before the first
    probe. *)
Lemma Client_Connect_context_done_witness :
  ∃ s',
    Client_Connect connect_cancelled "/run/fc-cri/fc-100/vsock.sock" 3 vsockAgentPort
      connected_state = (Ret (Some (Wrap "agent not ready" (CtxErr false))), s')
    ∧ agentClient s' = Some connected_client
    ∧ ∃ evs, trace s' = evs ++ [EvConnClose 9%positive] ∧ pings evs = 0%nat.
Proof.
  destruct (Client_Connect_context_done connect_cancelled
              "/run/fc-cri/fc-100/vsock.sock" 3 vsockAgentPort connected_state
              connected_client 9%positive 0 (CtxErr false))
    as (s' & evs & Hrun & Ht & Hp & _ & Hcl & _).
  - reflexivity.
  - by left.
  - lia.
  - intros i Hi. lia.
  - reflexivity.
  - exists s'. split; [done|]. split; [done|]. by exists evs.
Defined.

(** X16 at a sample input: two calls on a client whose counter is 1. *)
Lemma Client_call_ids_witness :
  ∃ evs,
    trace (call_all [(answer_ok, ping); (call_unanswered, ping)] connected_state) = evs
    ∧ sent_ids evs = [2; 3] ∧ NoDup (sent_ids evs).
Proof.
  destruct (Client_call_ids [(answer_ok, ping); (call_unanswered, ping)] connected_state
              connected_client eq_refl) as [Hc _].
  destruct (Hc 9%positive eq_refl) as (evs & Ht & Hi & Hn & _).
  exists evs. split; [done|]. split; [done|]. apply Hn. vm_compute. discriminate.
Defined.

(** X17 at a sample input: [Kill] of "task-1". *)
Lemma StopContainer_timeout_at_the_agent_witness :
  ∃ f params rest,
    trace (Service_Kill answer_ok start_task connected_state).2
      = EvEncode 9%positive f :: rest
    ∧ frame_params f = Some params
    ∧ Agent_stopContainer_timeout params = inject_Z 30.
Proof.
  destruct (StopContainer_timeout_at_the_agent answer_ok "task-1" (30 * Second)
              connected_state connected_client 9%positive eq_refl eq_refl) as [_ Hk].
  - vm_compute. reflexivity.
  - destruct (Hk start_task sample_proc) as (f & params & rest & Ht & _ & Hp & _ & Hto).
    + vm_compute. reflexivity.
    + by exists f, params, rest.
Defined.

(** X19 at a sample input: [Delete] of the init process of "task-1". *)
Lemma Service_Delete_releases_witness :
  ∃ s' resp,
    Service_Delete delete_ok start_task task_state = (Ret (OK resp), s')
    ∧ processes (service s') = ∅
    ∧ svc_sandbox (service s') = None
    ∧ inUse (pool s') = ∅.
Proof.
  destruct (Service_Delete_releases delete_ok (destroy_ok 300) start_task task_state
              sample_proc 1%positive acquired_sandbox eq_refl)
    as (s' & resp & evs & Hrun & _ & _ & Hp & Hsb & Hin & _).
  - vm_compute. reflexivity.
  - reflexivity.
  - reflexivity.
  - reflexivity.
  - reflexivity.
  - exists s', resp. split; [done|]. split; [rewrite Hp; vm_compute; reflexivity|].
    split; [done|]. rewrite Hin. vm_compute. reflexivity.
Defined.

(** X20 at a sample input: a task is created while the agent is silent,
    started and deleted. *)
Lemma Service_never_records_an_exit_witness :
  no_exit_recorded
    (run_service_ops [OpCreate service_create_unanswered sample_task;
                      OpStart answer_without_pid start_task;
                      OpDelete delete_ok start_task] sample_state).
Proof.
  apply (Service_never_records_an_exit
           [OpCreate service_create_unanswered sample_task;
            OpStart answer_without_pid start_task;
            OpDelete delete_ok start_task] sample_state eq_refl).
Defined.

(** X21 at a sample input: the container "task-1" on an agent without
    containers. *)
Lemma Agent_container_registered_once_witness :
  ∃ a1,
    Agent_createContainer agent_create_ok (create_params "task-1" "/run/containerd/task-1")
      empty_agent = (None, a1)
    ∧ Agent_createContainer agent_create_ok (create_params "task-1" "/elsewhere") a1
      = (Some (Errorf "container task-1 already exists"), a1).
Proof.
  destruct (Agent_container_registered_once agent_create_ok agent_create_ok
              (create_params "task-1" "/run/containerd/task-1") empty_agent)
    as (a1 & Hrun & _ & Hagain & _); [done|reflexivity|done|done|].
  exists a1. split; [done|]. by apply Hagain.
Defined.

(** X22 at a sample input: [runc create] fails. *)
Lemma Agent_createContainer_failure_witness :
  ∃ a1 t,
    Agent_createContainer agent_create_broken
      (create_params "task-1" "/run/containerd/task-1") empty_agent
      = (Some (Errorf "runc create failed: exit status 1: bundle does not exist"), a1)
    ∧ agent_containers a1 = ∅
    ∧ agent_trace a1 = t
    ∧ AgMkdirAll "/run/fc-agent/containers/task-1" ∈ t.
Proof.
  destruct (Agent_createContainer_failure agent_create_broken
              (create_params "task-1" "/run/containerd/task-1") empty_agent _ _ eq_refl)
    as (Hc & t & Ht & _ & Hm).
  eexists _, t. split; [reflexivity|]. split; [exact Hc|]. split; [exact Ht|].
  by eapply Hm.
Defined.

(** X23 at a sample input: a stop with a timeout of 30 s; the container
    is reported as stopped at the third poll. *)
Lemma Agent_stopContainer_always_kills_witness :
  ∃ w,
    (Agent_stopContainer (ho_stop handler_ok) (stop_container_params "task-1" (30 * Second))
       task_agent).1 = None
    ∧ agent_trace
        (Agent_stopContainer (ho_stop handler_ok)
           (stop_container_params "task-1" (30 * Second)) task_agent).2
      = agent_trace task_agent ++ [AgRunc ["kill"; "task-1"; "SIGTERM"]] ++ w
        ++ [AgRunc ["kill"; "task-1"; "SIGKILL"]]
    ∧ Z.of_nat (polls w) ≤ 300.
Proof.
  destruct (Agent_stopContainer_always_kills (ho_stop handler_ok)
              (stop_container_params "task-1" (30 * Second)) task_agent)
    as (w & Hrun & _ & Hp).
  - done.
  - vm_compute. split; [discriminate|reflexivity].
  - exists w. rewrite Hrun. split; [done|]. split; [done|exact Hp].
Defined.

(** X25 at a sample input: [Start] of "task-1", the pid file holds
    4321. *)
Lemma Service_Start_served_by_agent_witness :
  ∃ s',
    Service_Start
      (answered_by handler_ok task_agent
         (encode_request (start_container_request 2 "task-1")))
      start_task connected_state = (Ret (OK 4321), s')
    ∧ processes (service s') !! "task-1" = Some (set_proc_pid 4321 sample_proc).
Proof.
  destruct (Service_Start_served_by_agent handler_ok task_agent
              (answered_by handler_ok task_agent
                 (encode_request (start_container_request 2 "task-1")))
              start_task connected_state sample_proc connected_client 9%positive 4321
              eq_refl eq_refl eq_refl ltac:(done) eq_refl eq_refl eq_refl eq_refl
              ltac:(lia)) as (s' & Hrun & Hp & _).
  exists s'. split; [exact Hrun|exact Hp].
Defined.

(** X26 at a sample input: the first ping reaches [task_agent]. *)
Lemma Client_Connect_agent_answers_witness :
  ∃ s',
    Client_Connect connect_task_agent "/run/fc-cri/fc-100/vsock.sock" 3 vsockAgentPort
      connected_state = (Ret None, s')
    ∧ agentClient s' = Some {| conn := Some 9%positive; requestID := 2 |}.
Proof.
  destruct (Client_Connect_agent_answers handler_ok task_agent connect_task_agent
              "/run/fc-cri/fc-100/vsock.sock" 3 vsockAgentPort connected_state
              connected_client 9%positive eq_refl)
    as (s' & Hrun & Hcl & _).
  - by left.
  - reflexivity.
  - reflexivity.
  - by exists s'.
Defined.

(** X27 at a sample input: "task-2" is created on an agent that has
    "task-1". *)
Lemma Client_CreateContainer_served_by_agent_witness :
  (Client_CreateContainer
     (answered_by handler_ok task_agent
        (encode_request (create_container_request 2 sample_spec)))
     sample_spec connected_state).1 = Ret None.
Proof.
  destruct (Client_CreateContainer_served_by_agent handler_ok task_agent
              (answered_by handler_ok task_agent
                 (encode_request (create_container_request 2 sample_spec)))
              sample_spec connected_state connected_client 9%positive
              eq_refl eq_refl ltac:(done) eq_refl ltac:(done)) as [[Hrun _] _].
  exact Hrun.
Defined.

(** X28 at a sample input: the oldest of three snapshots is deleted. *)
Lemma SnapshotManager_DeleteSnapshot_cases_witness :
  ∃ s',
    SnapshotManager_DeleteSnapshot None "a" crowded_state = (Ret None, s')
    ∧ SnapshotManager_GetSnapshot "a" s' = (Ret None, s')
    ∧ SnapshotManager_GetSnapshot "b" s' = (Ret (Some (sample_snapshot "b" 2 false)), s').
Proof.
  destruct (SnapshotManager_DeleteSnapshot_cases None "a" crowded_state crowded_manager
              eq_refl) as (s' & _ & Hrun & Hget & Hother).
  exists s'. split; [done|]. split; [done|]. by apply Hother.
Defined.

(** X29 at a sample input: the connected client is closed. *)
Lemma Client_Close_keeps_connection_witness :
  ∃ s',
    Client_Close None connected_state = (Ret None, s')
    ∧ agentClient s' = Some connected_client
    ∧ trace s' = [EvConnClose 9%positive].
Proof.
  destruct (Client_Close_keeps_connection None connected_state connected_client eq_refl)
    as (Hrun & Hcl & _).
  eexists. split; [exact Hrun|]. split; [exact Hcl|reflexivity].
Defined.
